(** * Change-of-Value subscriptions and notifications (samples/COVMixin.py)

    A shallow embedding of the COV engine of [samples/COVMixin.py]: the
    change criteria, the subscription objects and their lists, the building
    of notifications and the per-client queue of confirmed notifications.

    Python objects that are shared and mutated (subscriptions, requests) live
    in a store and are named by references; methods are functions in a small
    state-and-exception monad, in which the effects made before a [raise]
    persist, as they do in Python. *)

From Stdlib Require Import QArith Lqa Qround Qabs.
From stdpp Require Import gmap strings list fin_maps sorting.

Open Scope Z_scope.

(** ** Python values, exceptions and the method monad *)

(** The values a property holds: [None], a number, a string, or a list
    such as the four status flags. A number is a Python float, a finite
    binary64 number, and is given by its exact value; the arithmetic on
    numbers rounds, see [round64] below. Python's integers, whose arithmetic
    does not round, and the floats [inf] and [nan] are not among the
    values. *)
#[local] Unset Elimination Schemes.
Inductive value : Type :=
  | VNone
  | VNum (q : Q)
  | VStr (s : string)
  | VList (l : list value).
#[local] Set Elimination Schemes.

(** Python's [==]: numbers compare by value, lists element by element,
    values of different kinds are unequal. *)
Fixpoint py_eq (a b : value) {struct a} : bool :=
  match a, b with
  | VNone, VNone => true
  | VNum p, VNum q => Qeq_bool p q
  | VStr s, VStr t => bool_decide (s = t)
  | VList l, VList m =>
      (fix all2 (l : list value) (m : list value) {struct l} : bool :=
         match l, m with
         | [], [] => true
         | x :: l', y :: m' => py_eq x y && all2 l' m'
         | _, _ => false
         end) l m
  | _, _ => false
  end.

(** Python's [!=]. *)
Definition py_ne (a b : value) : bool := negb (py_eq a b).

(** Python's [int(x)] on a real: truncation towards zero. *)
Definition py_int (q : Q) : Z := Z.quot (Qnum q) (Zpos (Qden q)).

Inductive exn : Type :=
  | KeyError
  | TypeError
  | ValueError
  | IndexError
  | AttributeError
  | RuntimeError
  | ReferenceError
  | DatatypeResolutionError.

Inductive result (A : Type) : Type :=
  | Ok (a : A)
  | Raise (e : exn).
Arguments Ok {A} a.
Arguments Raise {A} e.

(** A method over a state [S]: it returns or raises, and leaves a state
    behind in both cases. *)
Definition M (S A : Type) : Type := S -> result A * S.

Definition ret {S A} (a : A) : M S A := fun s => (Ok a, s).
Definition raise {S A} (e : exn) : M S A := fun s => (Raise e, s).
Definition bind {S A B} (m : M S A) (k : A -> M S B) : M S B :=
  fun s => match m s with
           | (Ok a, s') => k a s'
           | (Raise e, s') => (Raise e, s')
           end.
Definition get {S} : M S S := fun s => (Ok s, s).
Definition modify {S} (f : S -> S) : M S unit := fun s => (Ok tt, f s).
Definition lift_result {S A} (r : result A) : M S A := fun s => (r, s).

Declare Scope py_scope.
Delimit Scope py_scope with py.
Notation "x <- c1 ;; c2" := (bind c1 (fun x => c2))
  (at level 100, c1 at next level, right associativity) : py_scope.
Notation "c1 ;;; c2" := (bind c1 (fun _ => c2))
  (at level 100, right associativity) : py_scope.
Open Scope py_scope.

(** [d[k]] on a dict: [KeyError] when the key is missing. *)
Definition getitem {V} (d : gmap string V) (k : string) : result V :=
  match d !! k with
  | Some v => Ok v
  | None => Raise KeyError
  end.

(** ** Change criteria *)

(** The criteria classes of the module. [PulseConverterCriteria] does not
    derive from [COVCriteria]. *)
Inductive criteria_class : Type :=
  | GenericCriteria
  | COVIncrementCriteria
  | AccessDoorCriteria
  | AccessPointCriteria
  | CredentialDataInputCriteria
  | LoadControlCriteria
  | PulseConverterCriteria.

Definition _properties_tracked (c : criteria_class) : list string :=
  match c with
  | GenericCriteria => ["presentValue"; "statusFlags"]
  | COVIncrementCriteria => ["presentValue"; "statusFlags"]
  | AccessDoorCriteria => ["presentValue"; "statusFlags"; "doorAlarmState"]
  | AccessPointCriteria => ["accessEventTime"; "statusFlags"]
  | CredentialDataInputCriteria => ["updateTime"; "statusFlags"]
  | LoadControlCriteria =>
      ["presentValue"; "statusFlags"; "requestedShedLevel"; "startTime";
       "shedDuration"; "dutyWindow"]
  | PulseConverterCriteria => ["presentValue"; "statusFlags"]
  end%string.

Definition _properties_reported (c : criteria_class) : list string :=
  match c with
  | GenericCriteria => ["presentValue"; "statusFlags"]
  | COVIncrementCriteria => ["presentValue"; "statusFlags"]
  | AccessDoorCriteria => ["presentValue"; "statusFlags"; "doorAlarmState"]
  | AccessPointCriteria =>
      ["accessEvent"; "statusFlags"; "accessEventTag"; "accessEventTime";
       "accessEventCredential"; "accessEventAuthenticationFactor"]
  | CredentialDataInputCriteria => ["presentValue"; "statusFlags"; "updateTime"]
  | LoadControlCriteria =>
      ["presentValue"; "statusFlags"; "requestedShedLevel"; "startTime";
       "shedDuration"; "dutyWindow"]
  | PulseConverterCriteria => ["presentValue"; "statusFlags"]
  end%string.

(** The class attribute [_monitored_property_reference]: [COVCriteria] sets
    it to [None], two subclasses override it, and a class outside the
    [COVCriteria] hierarchy has no such attribute. *)
Definition _monitored_property_reference (c : criteria_class)
  : result (option string) :=
  match c with
  | GenericCriteria => Ok (Some "presentValue")
  | COVIncrementCriteria => Ok (Some "presentValue")
  | AccessPointCriteria => Ok (Some "accessEvent")
  | AccessDoorCriteria | CredentialDataInputCriteria | LoadControlCriteria =>
      Ok None
  | PulseConverterCriteria => Raise AttributeError
  end%string.

(** References to the objects of the store. *)
Definition subref := nat.
Definition reqref := nat.

(** Modelled from the spec: the datatypes of the properties and
    [Object.get_datatype] are not among the sources. A datatype is a class
    that is called on a value and returns the typed value or raises. *)
Definition datatype : Type := value -> result value.

(** A monitored object with the fields [COVObjectMixin] adds to it, and
    the properties of its class that [get_datatype] looks up, each with its
    datatype. *)
Record COVObject : Type := mkCOVObject {
  obj_class : criteria_class;
  _values : gmap string value;
  _cov_properties : gmap string value;
  _cov_subscriptions : list subref;
  _properties : gmap string datatype;
}.

Definition set_cov_properties (f : gmap string value -> gmap string value)
    (o : COVObject) : COVObject :=
  mkCOVObject (obj_class o) (_values o) (f (_cov_properties o))
              (_cov_subscriptions o) (_properties o).

Definition set_values (f : gmap string value -> gmap string value)
    (o : COVObject) : COVObject :=
  mkCOVObject (obj_class o) (f (_values o)) (_cov_properties o)
              (_cov_subscriptions o) (_properties o).

Definition set_cov_subscriptions (f : list subref -> list subref)
    (o : COVObject) : COVObject :=
  mkCOVObject (obj_class o) (_values o) (_cov_properties o)
              (f (_cov_subscriptions o)) (_properties o).

(** Modelled from the spec: [self.get_datatype(name)], which fails when the
    property has no datatype that can be resolved. *)
Definition get_datatype (name : string) : M COVObject datatype :=
  fun o => match _properties o !! name with
           | Some d => (Ok d, o)
           | None => (Raise DatatypeResolutionError, o)
           end.

(** [self._values[name]] and [self._cov_properties[name]]. *)
Definition values_getitem (name : string) : M COVObject value :=
  fun o => (getitem (_values o) name, o).
Definition cov_properties_getitem (name : string) : M COVObject value :=
  fun o => (getitem (_cov_properties o) name, o).
(** [self._cov_properties[name] = v]. *)
Definition cov_properties_setitem (name : string) (v : value)
  : M COVObject unit :=
  modify (set_cov_properties (insert name v)).

(** The loop of [COVCriteria._check_criteria] over the tracked names, with
    the flag [something_changed] it carries. *)
Fixpoint check_tracked (names : list string) (something_changed : bool)
  : M COVObject bool :=
  match names with
  | [] => ret something_changed
  | property_name :: rest =>
      cur <- values_getitem property_name ;;
      old <- cov_properties_getitem property_name ;;
      let property_changed := py_ne cur old in
      if property_changed then
        v <- values_getitem property_name ;;
        cov_properties_setitem property_name v ;;;
        check_tracked rest true
      else check_tracked rest something_changed
  end.

(** [COVCriteria._check_criteria] for a class with the given tracked
    names. *)
Definition COVCriteria_check_criteria (tracked : list string)
  : M COVObject bool :=
  check_tracked tracked false.

(** ** The arithmetic of Python floats

    A float is a binary64 number: 53 bits of mantissa, and a spacing of
    [2 ^ -1074] between the smallest numbers. The result of a subtraction
    or an addition is the exact result rounded to the nearest float, ties
    to the even mantissa. *)

(** The integer nearest to [y], ties to even. *)
Definition rne (y : Q) : Z :=
  let f := Qfloor y in
  match (y - inject_Z f ?= 1 # 2)%Q with
  | Lt => f
  | Gt => f + 1
  | Eq => if Z.even f then f else f + 1
  end.

(** Every float is a whole number of units of [2 ^ -1074]. *)
Definition float_unit : positive := 2 ^ 1074.

(** Rounding of [y >= 0] units to 53 bits: the bits below the 53 leading
    ones are rounded away. *)
Definition round_units (y : Q) : Z :=
  let k := Z.max 0 (Z.log2 (Qfloor y) - 52) in
  rne (y / inject_Z (2 ^ k)) * 2 ^ k.

(** The float nearest to [q]. A result of [2 ^ 1024] or more in magnitude
    stands for Python's [inf] or [-inf]: the criteria only compare it with
    floats, which are all smaller in magnitude. *)
Definition round64 (q : Q) : Q :=
  let n := round_units (Qabs q * inject_Z (Zpos float_unit)) in
  Qred ((if Qle_bool 0 q then n else - n) # float_unit).
#[global] Arguments round64 : simpl never.

(** The number is a float: rounding leaves it as it is, and it is below
    the overflow threshold. *)
Definition is_float64 (q : Q) : bool :=
  Qeq_bool (round64 q) q &&
  negb (Qle_bool (inject_Z (2 ^ 1024)) (Qabs q)).

(** Subtraction, addition and ordering of Python numbers; anything else
    raises [TypeError]. The comparisons of floats are exact. *)
Definition py_sub (a b : value) : result value :=
  match a, b with
  | VNum p, VNum q => Ok (VNum (round64 (p - q)))
  | _, _ => Raise TypeError
  end.
Definition py_add (a b : value) : result value :=
  match a, b with
  | VNum p, VNum q => Ok (VNum (round64 (p + q)))
  | _, _ => Raise TypeError
  end.
Definition py_le (a b : value) : result bool :=
  match a, b with
  | VNum p, VNum q => Ok (Qle_bool p q)
  | _, _ => Raise TypeError
  end.
Definition py_ge (a b : value) : result bool := py_le b a.

(** [COVIncrementCriteria._check_criteria]. *)
Definition COVIncrementCriteria_check_criteria : M COVObject bool :=
  let something_changed := false in
  old_present_value <- cov_properties_getitem "presentValue" ;;
  new_present_value <- values_getitem "presentValue" ;;
  cov_increment <- values_getitem "covIncrement" ;;
  low <- lift_result (py_sub old_present_value cov_increment) ;;
  below <- lift_result (py_le new_present_value low) ;;
  value_changed <-
    (if below then ret true
     else
       high <- lift_result (py_add old_present_value cov_increment) ;;
       lift_result (py_ge new_present_value high)) ;;
  something_changed <-
    (if value_changed then
       cov_properties_setitem "presentValue" new_present_value ;;;
       ret true
     else ret something_changed) ;;
  cur_flags <- values_getitem "statusFlags" ;;
  old_flags <- cov_properties_getitem "statusFlags" ;;
  let status_changed := py_ne cur_flags old_flags in
  if status_changed then
    v <- values_getitem "statusFlags" ;;
    cov_properties_setitem "statusFlags" v ;;;
    ret true
  else ret something_changed.

(** Method resolution of [self._check_criteria()] on an object of a given
    class. *)
Definition _check_criteria (c : criteria_class) : M COVObject bool :=
  match c with
  | COVIncrementCriteria => COVIncrementCriteria_check_criteria
  | PulseConverterCriteria => raise AttributeError
  | _ => COVCriteria_check_criteria (_properties_tracked c)
  end.

(** ** The store: subscriptions, requests, the application *)

(** A client address (an [Address]) and an object identifier
    [(obj_type, obj_inst)]. *)
Definition addr := string.
Definition objid := (string * Z)%type.

(** A [Subscription] object. [taskTime] and [isScheduled] are the fields it
    inherits from [OneShotTask]. Objects of the application are referred to
    by their identifier, so [obj_ref] is an identifier or [None]. *)
Record Subscription : Type := mkSubscription {
  obj_ref : option objid;
  client_addr : addr;
  proc_id : Z;
  obj_id : objid;
  confirmed : option bool;
  lifetime : option Z;
  taskTime : option Q;
  isScheduled : bool;
}.

Inductive request_class : Type :=
  | ConfirmedCOVNotificationRequest
  | UnconfirmedCOVNotificationRequest.

(** A notification request. [apduInvokeID] is [None] until the stack gives
    the request an invoke id when it is sent. *)
Record Request : Type := mkRequest {
  req_class : request_class;
  pduDestination : addr;
  subscriberProcessIdentifier : Z;
  initiatingDeviceIdentifier : objid;
  monitoredObjectIdentifier : objid;
  timeRemaining : Z;
  listOfValues : list (string * value);
  apduInvokeID : option Z;
}.

(** The classes of the APDUs that [confirmation] receives. *)
Inductive apdu_class : Type :=
  | SimpleAckPDU
  | ComplexAckPDU
  | Error
  | RejectPDU
  | AbortPDU.

(** An incoming response. *)
Record APDU : Type := mkAPDU {
  apdu_class_of : apdu_class;
  pduSource : addr;
  apdu_apduInvokeID : option Z;
}.

(** A [SubscribeCOVRequest]. *)
Record SubscribeCOVRequest : Type := mkSubscribeCOVRequest {
  scr_pduSource : addr;
  scr_subscriberProcessIdentifier : Z;
  scr_monitoredObjectIdentifier : objid;
  issueConfirmedNotifications : option bool;
  scr_lifetime : option Z;
}.

(** What [do_SubscribeCOVRequest] hands to [self.response]. *)
Inductive Response : Type :=
  | ErrorUnknownObject (context : SubscribeCOVRequest)
  | SimpleAck (context : SubscribeCOVRequest).

(** An element of the sequence [ReadProperty] returns. *)
Record COVSubscription : Type := mkCOVSubscription {
  recipient : addr;
  processIdentifier : Z;
  cs_objectIdentifier : objid;
  cs_propertyIdentifier : option string;
  cs_issueConfirmedNotifications : option bool;
  cs_timeRemaining : Z;
}.

(** The application with its objects, the objects of the store, the clock of
    the task manager and the traffic with the rest of the stack:
    [sent] lists the requests given to [request] of the superclass, in
    order, [passed_up] the responses given to its [confirmation], and
    [responses] what was given to [response]. *)
Record World : Type := mkWorld {
  now : Q;
  localDevice_objectIdentifier : objid;
  objects : gmap objid COVObject;
  subscriptions : gmap subref Subscription;
  next_subref : subref;
  active_cov_subscriptions : list subref;
  confirmed_notifications_queue : gmap addr (list (reqref * subref));
  requests : gmap reqref Request;
  next_reqref : reqref;
  next_invoke_id : Z;
  sent : list reqref;
  passed_up : list APDU;
  responses : list Response;
}.

Definition set_now (t : Q) (w : World) : World :=
  mkWorld t (localDevice_objectIdentifier w) (objects w) (subscriptions w)
    (next_subref w) (active_cov_subscriptions w)
    (confirmed_notifications_queue w) (requests w) (next_reqref w)
    (next_invoke_id w) (sent w) (passed_up w) (responses w).

Definition set_objects (f : gmap objid COVObject -> gmap objid COVObject)
    (w : World) : World :=
  mkWorld (now w) (localDevice_objectIdentifier w) (f (objects w))
    (subscriptions w) (next_subref w) (active_cov_subscriptions w)
    (confirmed_notifications_queue w) (requests w) (next_reqref w)
    (next_invoke_id w) (sent w) (passed_up w) (responses w).

Definition set_subscriptions
    (f : gmap subref Subscription -> gmap subref Subscription)
    (w : World) : World :=
  mkWorld (now w) (localDevice_objectIdentifier w) (objects w)
    (f (subscriptions w)) (next_subref w) (active_cov_subscriptions w)
    (confirmed_notifications_queue w) (requests w) (next_reqref w)
    (next_invoke_id w) (sent w) (passed_up w) (responses w).

Definition set_next_subref (n : subref) (w : World) : World :=
  mkWorld (now w) (localDevice_objectIdentifier w) (objects w)
    (subscriptions w) n (active_cov_subscriptions w)
    (confirmed_notifications_queue w) (requests w) (next_reqref w)
    (next_invoke_id w) (sent w) (passed_up w) (responses w).

Definition set_active_cov_subscriptions (f : list subref -> list subref)
    (w : World) : World :=
  mkWorld (now w) (localDevice_objectIdentifier w) (objects w)
    (subscriptions w) (next_subref w) (f (active_cov_subscriptions w))
    (confirmed_notifications_queue w) (requests w) (next_reqref w)
    (next_invoke_id w) (sent w) (passed_up w) (responses w).

Definition set_confirmed_notifications_queue
    (f : gmap addr (list (reqref * subref)) ->
         gmap addr (list (reqref * subref)))
    (w : World) : World :=
  mkWorld (now w) (localDevice_objectIdentifier w) (objects w)
    (subscriptions w) (next_subref w) (active_cov_subscriptions w)
    (f (confirmed_notifications_queue w)) (requests w) (next_reqref w)
    (next_invoke_id w) (sent w) (passed_up w) (responses w).

Definition set_requests (f : gmap reqref Request -> gmap reqref Request)
    (w : World) : World :=
  mkWorld (now w) (localDevice_objectIdentifier w) (objects w)
    (subscriptions w) (next_subref w) (active_cov_subscriptions w)
    (confirmed_notifications_queue w) (f (requests w)) (next_reqref w)
    (next_invoke_id w) (sent w) (passed_up w) (responses w).

Definition set_next_reqref (n : reqref) (w : World) : World :=
  mkWorld (now w) (localDevice_objectIdentifier w) (objects w)
    (subscriptions w) (next_subref w) (active_cov_subscriptions w)
    (confirmed_notifications_queue w) (requests w) n
    (next_invoke_id w) (sent w) (passed_up w) (responses w).

Definition set_next_invoke_id (n : Z) (w : World) : World :=
  mkWorld (now w) (localDevice_objectIdentifier w) (objects w)
    (subscriptions w) (next_subref w) (active_cov_subscriptions w)
    (confirmed_notifications_queue w) (requests w) (next_reqref w)
    n (sent w) (passed_up w) (responses w).

Definition set_sent (f : list reqref -> list reqref) (w : World) : World :=
  mkWorld (now w) (localDevice_objectIdentifier w) (objects w)
    (subscriptions w) (next_subref w) (active_cov_subscriptions w)
    (confirmed_notifications_queue w) (requests w) (next_reqref w)
    (next_invoke_id w) (f (sent w)) (passed_up w) (responses w).

Definition set_passed_up (f : list APDU -> list APDU) (w : World) : World :=
  mkWorld (now w) (localDevice_objectIdentifier w) (objects w)
    (subscriptions w) (next_subref w) (active_cov_subscriptions w)
    (confirmed_notifications_queue w) (requests w) (next_reqref w)
    (next_invoke_id w) (sent w) (f (passed_up w)) (responses w).

Definition set_responses (f : list Response -> list Response) (w : World)
  : World :=
  mkWorld (now w) (localDevice_objectIdentifier w) (objects w)
    (subscriptions w) (next_subref w) (active_cov_subscriptions w)
    (confirmed_notifications_queue w) (requests w) (next_reqref w)
    (next_invoke_id w) (sent w) (passed_up w) (f (responses w)).

(** ** Access to the objects of the store *)

(** Reading the fields of the subscription behind a reference. A reference
    always names a live object in Python; [ReferenceError] stands for a
    reference that names nothing. *)
Definition get_subscription (cov : subref) : M World Subscription :=
  fun w => match subscriptions w !! cov with
           | Some s => (Ok s, w)
           | None => (Raise ReferenceError, w)
           end.

Definition update_subscription (cov : subref)
    (f : Subscription -> Subscription) : M World unit :=
  modify (set_subscriptions (alter f cov)).

Definition get_request (request : reqref) : M World Request :=
  fun w => match requests w !! request with
           | Some r => (Ok r, w)
           | None => (Raise ReferenceError, w)
           end.

Definition get_object (obj : objid) : M World COVObject :=
  fun w => match objects w !! obj with
           | Some o => (Ok o, w)
           | None => (Raise ReferenceError, w)
           end.

(** A new object of the store: it gets the next reference. *)
Definition new_subscription (s : Subscription) : M World subref :=
  fun w =>
    let self := next_subref w in
    (Ok self, set_next_subref (S self) (set_subscriptions (insert self s) w)).

Definition new_request (q : Request) : M World reqref :=
  fun w =>
    let request := next_reqref w in
    (Ok request, set_next_reqref (S request) (set_requests (insert request q) w)).

(** Running a method of an object on the object stored under [obj]. *)
Definition on_object {A} (obj : objid) (m : M COVObject A) : M World A :=
  fun w => match objects w !! obj with
           | Some o =>
               let '(r, o') := m o in
               (r, set_objects (insert obj o') w)
           | None => (Raise ReferenceError, w)
           end.

(** ** The task manager *)

(** Modelled from the spec: [bacpypes.task] ([OneShotTask], [TaskManager])
    is not among the sources. The scheduler fires a one-shot callback after
    a relative delay, cancels a pending one, and tells the current time.
    [install_task(delta=d)] schedules the task at [now + d]; without a delay
    the task keeps the time it had, and is refused when it has none. *)
Definition get_time : M World Q := fun w => (Ok (now w), w).

Definition set_taskTime (t : option Q) (s : Subscription) : Subscription :=
  mkSubscription (obj_ref s) (client_addr s) (proc_id s) (obj_id s)
    (confirmed s) (lifetime s) t (isScheduled s).

Definition set_isScheduled (b : bool) (s : Subscription) : Subscription :=
  mkSubscription (obj_ref s) (client_addr s) (proc_id s) (obj_id s)
    (confirmed s) (lifetime s) (taskTime s) b.

Definition set_obj_ref (o : option objid) (s : Subscription) : Subscription :=
  mkSubscription o (client_addr s) (proc_id s) (obj_id s)
    (confirmed s) (lifetime s) (taskTime s) (isScheduled s).

Definition install_task (self : subref) (delta : option Z) : M World unit :=
  s <- get_subscription self ;;
  current_time <- get_time ;;
  let when :=
    match delta with
    | Some d => Some (current_time + inject_Z d)%Q
    | None => taskTime s
    end in
  match when with
  | None => raise RuntimeError
  | Some t =>
      update_subscription self (fun s => set_isScheduled true
                                           (set_taskTime (Some t) s))
  end.

(** Cancelling a task that is not scheduled does nothing. *)
Definition suspend_task (self : subref) : M World unit :=
  update_subscription self (set_isScheduled false).

(** ** SubscriptionList *)

(** [list.remove(x)]: removes the first occurrence, [ValueError] when there
    is none. *)
Fixpoint list_remove (x : subref) (l : list subref)
  : result (list subref) :=
  match l with
  | [] => Raise ValueError
  | y :: l' =>
      if bool_decide (y = x) then Ok l'
      else match list_remove x l' with
           | Ok l'' => Ok (y :: l'')
           | Raise e => Raise e
           end
  end.

(** [SubscriptionList.append] on the list of the object [obj]. *)
Definition SubscriptionList_append (obj : objid) (cov : subref)
  : M World unit :=
  on_object obj (modify (set_cov_subscriptions (fun l => l ++ [cov]))).

(** [SubscriptionList.remove] on the list of the object [obj]. *)
Definition SubscriptionList_remove (obj : objid) (cov : subref)
  : M World unit :=
  on_object obj
    (fun o => match list_remove cov (_cov_subscriptions o) with
              | Ok l => (Ok tt, set_cov_subscriptions (fun _ => l) o)
              | Raise e => (Raise e, o)
              end).

(** The loop of [SubscriptionList.find]: the first subscription whose
    three keys are all equal to the ones given. *)
Fixpoint find_loop (covs : list subref) (client : addr) (proc : Z)
    (oid : objid) : M World (option subref) :=
  match covs with
  | [] => ret None
  | cov :: rest =>
      s <- get_subscription cov ;;
      let all_equal :=
        bool_decide (client_addr s = client) &&
        bool_decide (proc_id s = proc) &&
        bool_decide (obj_id s = oid) in
      if all_equal then ret (Some cov)
      else find_loop rest client proc oid
  end.

Definition SubscriptionList_find (obj : objid) (client : addr) (proc : Z)
    (oid : objid) : M World (option subref) :=
  o <- get_object obj ;;
  find_loop (_cov_subscriptions o) client proc oid.

(** ** Subscription *)

(** [lifetime != 0], for a lifetime that may be [None]. *)
Definition lifetime_ne_0 (lifetime : option Z) : bool :=
  match lifetime with
  | Some z => negb (z =? 0)
  | None => true
  end.

(** Truth value of [cov.lifetime] and of [cov.confirmed]. *)
Definition truthy_lifetime (lifetime : option Z) : bool :=
  match lifetime with
  | Some z => negb (z =? 0)
  | None => false
  end.
Definition truthy_confirmed (confirmed : option bool) : bool :=
  match confirmed with
  | Some b => b
  | None => false
  end.

(** [Subscription.__init__]: returns the reference to the new object. *)
Definition Subscription_init (obj : objid) (client : addr) (proc : Z)
    (oid : objid) (conf : option bool) (life : option Z) : M World subref :=
  self <- new_subscription
            (mkSubscription (Some obj) client proc oid conf life None false) ;;
  SubscriptionList_append obj self ;;;
  modify (set_active_cov_subscriptions (fun l => l ++ [self])) ;;;
  (if lifetime_ne_0 life then
     s <- get_subscription self ;;
     install_task self (lifetime s)
   else ret tt) ;;;
  ret self.

(** [Subscription.cancel_subscription]. *)
Definition cancel_subscription (self : subref) : M World unit :=
  suspend_task self ;;;
  s <- get_subscription self ;;
  match obj_ref s with
  | None => raise AttributeError
  | Some obj =>
      SubscriptionList_remove obj self ;;;
      s <- get_subscription self ;;
      match obj_ref s with
      | None => raise AttributeError
      | Some _ =>
          w <- get ;;
          match list_remove self (active_cov_subscriptions w) with
          | Raise e => raise e
          | Ok l =>
              modify (set_active_cov_subscriptions (fun _ => l)) ;;;
              update_subscription self (set_obj_ref None)
          end
      end
  end.

(** [Subscription.renew_subscription]. *)
Definition renew_subscription (self : subref) (lifetime : option Z)
  : M World unit :=
  s <- get_subscription self ;;
  (if isScheduled s then suspend_task self else ret tt) ;;;
  if lifetime_ne_0 lifetime then install_task self lifetime
  else ret tt.

(** [Subscription.process_task]: what the task manager calls when the
    subscription expires. *)
Definition process_task (self : subref) : M World unit :=
  cancel_subscription self.

(** ** Building and sending notifications *)

(** The computation of [time_remaining], written out twice in the source
    with the same text: in [_send_cov_notifications] and in
    [ActiveCOVSubscriptions.ReadProperty]. *)
Definition time_remaining (cov : Subscription) (current_time : Q)
  : result Z :=
  if negb (truthy_lifetime (lifetime cov)) then Ok 0
  else
    match taskTime cov with
    | None => Raise TypeError
    | Some t =>
        let time_remaining := py_int (t - current_time) in
        (* make sure it is at least one second *)
        if time_remaining =? 0 then Ok 1 else Ok time_remaining
    end.

(** Modelled from the spec: the stack below the application is not among
    the sources. [request] of the superclass transmits the request; a
    confirmed request without an invoke id is given the next one, which is
    the correlation id of its response. *)
Definition super_request (request : reqref) : M World unit :=
  r <- get_request request ;;
  w <- get ;;
  (match req_class r, apduInvokeID r with
   | ConfirmedCOVNotificationRequest, None =>
       modify (set_requests
                 (insert request
                    (mkRequest (req_class r) (pduDestination r)
                       (subscriberProcessIdentifier r)
                       (initiatingDeviceIdentifier r)
                       (monitoredObjectIdentifier r) (timeRemaining r)
                       (listOfValues r) (Some (next_invoke_id w))))) ;;;
       modify (set_next_invoke_id ((next_invoke_id w + 1) mod 256))
   | _, _ => ret tt
   end) ;;;
  modify (set_sent (fun l => l ++ [request])).

(** Modelled from the spec: [confirmation] of the superclass, the default
    handler a response that is not ours is passed to. *)
Definition super_confirmation (apdu : APDU) : M World unit :=
  modify (set_passed_up (fun l => l ++ [apdu])).

(** Modelled from the spec: [response] of the application. *)
Definition response (r : Response) : M World unit :=
  modify (set_responses (fun l => l ++ [r])).

(** [self.confirmed_notifications_queue[key]] for the [defaultdict(list)]:
    a missing key is entered with an empty list. *)
Definition queue_getitem (key : addr) : M World (list (reqref * subref)) :=
  fun w => match confirmed_notifications_queue w !! key with
           | Some l => (Ok l, w)
           | None =>
               (Ok [], set_confirmed_notifications_queue (insert key []) w)
           end.

(** [COVApplicationMixin.cov_notification]. The list taken from the queue is
    the list in the queue, so the append is an update of the queue. *)
Definition cov_notification (cov : subref) (request : reqref)
  : M World unit :=
  c <- get_subscription cov ;;
  if truthy_confirmed (confirmed c) then
    notification_list <- queue_getitem (client_addr c) ;;
    let notification_list := notification_list ++ [(request, cov)] in
    modify (set_confirmed_notifications_queue
              (insert (client_addr c) notification_list)) ;;;
    if (1 <? length notification_list)%nat then ret tt
    else super_request request
  else super_request request.

Definition cov_error (cov : subref) (request : reqref) (response : APDU)
  : M World unit := ret tt.

Definition cov_reject (cov : subref) (request : reqref) (response : APDU)
  : M World unit := ret tt.

(** [COVApplicationMixin.cov_abort]: empties, in place, the list of the
    client of [cov]. *)
Definition cov_abort (cov : subref) (request : reqref) (response : APDU)
  : M World unit :=
  c <- get_subscription cov ;;
  queue_getitem (client_addr c) ;;;
  modify (set_confirmed_notifications_queue (insert (client_addr c) [])).

(** [COVApplicationMixin.confirmation]. [notification_list] is the list
    object stored in the queue under [apdu.pduSource]: what [pop] and
    [cov_abort] do to it is seen when it is read again. *)
Definition confirmation (apdu : APDU) : M World unit :=
  w <- get ;;
  match confirmed_notifications_queue w !! pduSource apdu with
  | None => super_confirmation apdu
  | Some notification_list =>
      match notification_list with
      | [] => raise IndexError
      | (request, cov) :: rest =>
          r <- get_request request ;;
          if bool_decide (apdu_apduInvokeID apdu = apduInvokeID r) then
            modify (set_confirmed_notifications_queue
                      (insert (pduSource apdu) rest)) ;;;
            match apdu_class_of apdu with
            | Error => cov_error cov request apdu
            | RejectPDU => cov_reject cov request apdu
            | AbortPDU => cov_abort cov request apdu
            | _ => ret tt
            end ;;;
            notification_list <- queue_getitem (pduSource apdu) ;;
            match notification_list with
            | [] =>
                modify (set_confirmed_notifications_queue
                          (delete (pduSource apdu)))
            | (request, cov) :: _ => super_request request
            end
          else super_confirmation apdu
      end
  end.

(** The list of values of [_send_cov_notifications]: for each reported
    property its datatype is looked up and called on the current value, and
    the typed value goes into the list under the name of the property. *)
Fixpoint build_list_of_values (names : list string)
  : M COVObject (list (string * value)) :=
  match names with
  | [] => ret []
  | property_name :: rest =>
      property_datatype <- get_datatype property_name ;;
      v <- values_getitem property_name ;;
      bundle_value <- lift_result (property_datatype v) ;;
      vs <- build_list_of_values rest ;;
      ret ((property_name, bundle_value) :: vs)
  end.

(** One turn of the loop of [_send_cov_notifications] over the
    subscriptions: a new request object is filled in and given to
    [cov_notification]. *)
Definition notify_subscription (current_time : Q)
    (list_of_values : list (string * value)) (cov : subref) : M World unit :=
  c <- get_subscription cov ;;
  time_remaining <- lift_result (time_remaining c current_time) ;;
  let class :=
    if truthy_confirmed (confirmed c) then ConfirmedCOVNotificationRequest
    else UnconfirmedCOVNotificationRequest in
  w <- get ;;
  request <- new_request
               (mkRequest class (client_addr c) (proc_id c)
                  (localDevice_objectIdentifier w) (obj_id c) time_remaining
                  list_of_values None) ;;
  cov_notification cov request.

Fixpoint notify_loop (current_time : Q)
    (list_of_values : list (string * value)) (covs : list subref)
  : M World unit :=
  match covs with
  | [] => ret tt
  | cov :: rest =>
      notify_subscription current_time list_of_values cov ;;;
      notify_loop current_time list_of_values rest
  end.

(** [COVObjectMixin._send_cov_notifications] on the object [self]. *)
Definition _send_cov_notifications (self : objid) : M World unit :=
  o <- get_object self ;;
  if (length (_cov_subscriptions o) =? 0)%nat then ret tt
  else
    current_time <- get_time ;;
    list_of_values <-
      on_object self (build_list_of_values (_properties_reported (obj_class o))) ;;
    notify_loop current_time list_of_values (_cov_subscriptions o).

(** [COVObjectMixin.WriteProperty] with the name of a property. The write
    itself is the one of the superclass, taken as the store of the value;
    the test of the criteria and the notifications follow it. *)
Definition WriteProperty (self : objid) (propid : string) (v : value)
  : M World unit :=
  on_object self (modify (set_values (insert propid v))) ;;;
  o <- get_object self ;;
  if bool_decide (propid ∈ _properties_tracked (obj_class o)) then
    changed <- on_object self (_check_criteria (obj_class o)) ;;
    if changed then _send_cov_notifications self else ret tt
  else ret tt.

(** [COVObjectMixin.__init__]: the empty list of subscriptions and the
    snapshot of the tracked properties. *)
Fixpoint snapshot_tracked (names : list string) : M COVObject unit :=
  match names with
  | [] => ret tt
  | property_name :: rest =>
      v <- values_getitem property_name ;;
      cov_properties_setitem property_name v ;;;
      snapshot_tracked rest
  end.

Definition COVObjectMixin_init (c : criteria_class)
    (properties : gmap string datatype) (kwargs : gmap string value)
  : result COVObject :=
  match snapshot_tracked (_properties_tracked c)
          (mkCOVObject c kwargs ∅ [] properties)
  with
  | (Ok _, self) => Ok self
  | (Raise e, _) => Raise e
  end.

(** [COVApplicationMixin.do_SubscribeCOVRequest]. *)
Definition do_SubscribeCOVRequest (apdu : SubscribeCOVRequest)
  : M World unit :=
  let client_addr := scr_pduSource apdu in
  let proc_id := scr_subscriberProcessIdentifier apdu in
  let obj_id := scr_monitoredObjectIdentifier apdu in
  let confirmed := issueConfirmedNotifications apdu in
  let lifetime := scr_lifetime apdu in
  let cancel_subscription_ :=
    bool_decide (confirmed = None) && bool_decide (lifetime = None) in
  w <- get ;;
  match objects w !! obj_id with
  | None => response (ErrorUnknownObject apdu)
  | Some _ =>
      cov <- SubscriptionList_find obj_id client_addr proc_id obj_id ;;
      match cov with
      | Some cov =>
          if cancel_subscription_ then cancel_subscription cov
          else renew_subscription cov lifetime
      | None =>
          if cancel_subscription_ then ret tt
          else
            Subscription_init obj_id client_addr proc_id obj_id confirmed
                              lifetime ;;;
            ret tt
      end ;;;
      response (SimpleAck apdu)
  end.

(** The loop of [ActiveCOVSubscriptions.ReadProperty]. *)
Fixpoint read_loop (current_time : Q) (covs : list subref)
  : M World (list COVSubscription) :=
  match covs with
  | [] => ret []
  | cov :: rest =>
      c <- get_subscription cov ;;
      time_remaining <- lift_result (time_remaining c current_time) ;;
      reference <-
        match obj_ref c with
        | None => raise AttributeError
        | Some obj =>
            o <- get_object obj ;;
            lift_result (_monitored_property_reference (obj_class o))
        end ;;
      let cov_subscription :=
        mkCOVSubscription (client_addr c) (proc_id c) (obj_id c) reference
                          (confirmed c) time_remaining in
      more <- read_loop current_time rest ;;
      ret (cov_subscription :: more)
  end.

(** [ActiveCOVSubscriptions.ReadProperty]. *)
Definition ReadProperty : M World (list COVSubscription) :=
  current_time <- get_time ;;
  w <- get ;;
  read_loop current_time (active_cov_subscriptions w).

(** ** Notions used to state the properties of the criteria *)

(** The tracked property [p] differs between the current values and the
    snapshot, by Python's [!=]. *)
Definition differs (o : COVObject) (p : string) : bool :=
  match _values o !! p, _cov_properties o !! p with
  | Some v, Some s => py_ne v s
  | _, _ => false
  end.

(** Every tracked name has a current value and a snapshot value, as
    [COVObjectMixin.__init__] leaves it. *)
Definition tracked_present (names : list string) (o : COVObject) : Prop :=
  ∀ p, p ∈ names →
    is_Some (_values o !! p) ∧ is_Some (_cov_properties o !! p).

(** The datatypes of the objects below: each takes a value of its kind as
    it is and raises [TypeError] on any other. *)
Definition Real : datatype :=
  fun v => match v with VNum _ => Ok v | _ => Raise TypeError end.
Definition BinaryPV : datatype :=
  fun v => match v with VStr _ => Ok v | _ => Raise TypeError end.
Definition StatusFlags : datatype :=
  fun v => match v with VList _ => Ok v | _ => Raise TypeError end.

(** An analog object with snapshot [s] of the present value, increment [i]
    and current present value [c]; the status flags are all clear in both
    the values and the snapshot. *)
Definition analog (s i c : Q) : COVObject :=
  mkCOVObject COVIncrementCriteria
    {[ "presentValue" := VNum c;
       "statusFlags" := VList [VNum 0; VNum 0; VNum 0; VNum 0];
       "covIncrement" := VNum i ]}
    {[ "presentValue" := VNum s;
       "statusFlags" := VList [VNum 0; VNum 0; VNum 0; VNum 0] ]}
    []
    {[ "presentValue" := Real; "statusFlags" := StatusFlags;
       "covIncrement" := Real ]}.

(** A binary object as [main] builds it, with the snapshot taken. *)
Definition binary (snapshot current : string) : COVObject :=
  mkCOVObject GenericCriteria
    {[ "presentValue" := VStr current;
       "statusFlags" := VList [VNum 0; VNum 0; VNum 0; VNum 0] ]}
    {[ "presentValue" := VStr snapshot;
       "statusFlags" := VList [VNum 0; VNum 0; VNum 0; VNum 0] ]}
    []
    {[ "presentValue" := BinaryPV; "statusFlags" := StatusFlags ]}.

(** The deadband rule of the increment criteria as the program computes
    it: the two bounds are the difference and the sum of two floats, so
    they are rounded. *)
Definition crosses_deadband (s i c : Q) : Prop :=
  (c <= round64 (s - i) ∨ round64 (s + i) <= c)%Q.

(** The deadband rule on the exact difference and sum. *)
Definition crosses_exact (s i c : Q) : Prop :=
  (c <= s - i ∨ s + i <= c)%Q.

(** The exact reading of the rule: on floats, the increment criteria would
    report the present value changed exactly when it is on or outside the
    exact band. *)
Definition deadband_rule_is_exact : Prop :=
  ∀ (o : COVObject) (s i c : Q) (f g : value),
    is_float64 s = true → is_float64 i = true → is_float64 c = true →
    _cov_properties o !! "presentValue" = Some (VNum s) →
    _values o !! "presentValue" = Some (VNum c) →
    _values o !! "covIncrement" = Some (VNum i) →
    _values o !! "statusFlags" = Some f →
    _cov_properties o !! "statusFlags" = Some g →
    py_ne f g = false →
    fst (COVIncrementCriteria_check_criteria o) = Ok true
    ↔ crosses_exact s i c.

(** A float so large that the floats next to it are 2 apart: 1 subtracted
    from it or added to it is rounded away. *)
Definition ten_to_16 : Q := 10000000000000000.

(** The degenerate-increment reading: with an increment of 0 the increment
    criteria would decide as the exact-match criteria do on the same
    object. *)
Definition increment_0_is_exact_match : Prop :=
  ∀ (o : COVObject) (s c : Q) (f g : value),
    _cov_properties o !! "presentValue" = Some (VNum s) →
    _values o !! "presentValue" = Some (VNum c) →
    _values o !! "covIncrement" = Some (VNum 0) →
    _values o !! "statusFlags" = Some f →
    _cov_properties o !! "statusFlags" = Some g →
    COVIncrementCriteria_check_criteria o
    = COVCriteria_check_criteria ["presentValue"; "statusFlags"] o.

(** Evaluating again, with no value written in between, reports nothing and
    writes nothing: [o'] is the object as an evaluation left it. *)
Definition quiet_after_evaluation (c : criteria_class) : Prop :=
  ∀ (o : COVObject) (b : bool) (o' : COVObject),
    _check_criteria c o = (Ok b, o') →
    _check_criteria c o' = (Ok false, o') ∧
    _check_criteria c (snd (_check_criteria c o')) = (Ok false, o').

(** ** The application as a transition system *)

(** What happens to the application: a subscribe request arrives, a
    property is written, notifications are triggered from the console, a
    response arrives, the clock moves on, the task manager fires a
    subscription that is due, the active subscriptions are read. *)
Inductive event : Type :=
  | EvSubscribe (apdu : SubscribeCOVRequest)
  | EvWrite (obj : objid) (propid : string) (v : value)
  | EvTrigger (obj : objid)
  | EvConfirmation (apdu : APDU)
  | EvTick (t : Q)
  | EvExpire (cov : subref)
  | EvRead.

(** The subscription is scheduled and its time has come. *)
Definition due (w : World) (cov : subref) : bool :=
  match subscriptions w !! cov with
  | Some s =>
      isScheduled s &&
      match taskTime s with
      | Some t => Qle_bool t (now w)
      | None => false
      end
  | None => false
  end.

(** The world after an event. A handler that raises leaves the world as it
    was when it raised. The task manager takes a task that is due off its
    list before it calls [process_task]. *)
Definition run_event (e : event) (w : World) : World :=
  match e with
  | EvSubscribe apdu => snd (do_SubscribeCOVRequest apdu w)
  | EvWrite obj propid v => snd (WriteProperty obj propid v w)
  | EvTrigger obj => snd (_send_cov_notifications obj w)
  | EvConfirmation apdu => snd (confirmation apdu w)
  | EvTick t => if Qle_bool (now w) t then set_now t w else w
  | EvExpire cov =>
      if due w cov
      then snd ((suspend_task cov ;;; process_task cov) w)
      else w
  | EvRead => snd (ReadProperty w)
  end.

Definition run_events (es : list event) (w : World) : World :=
  fold_left (fun w e => run_event e w) es w.

(** The application before any traffic: no subscription, no request, empty
    queues; the objects are there, none with a subscription. *)
Definition initial (w : World) : Prop :=
  subscriptions w = ∅ ∧
  active_cov_subscriptions w = [] ∧
  confirmed_notifications_queue w = ∅ ∧
  requests w = ∅ ∧
  sent w = [] ∧
  map_Forall (λ _ o, _cov_subscriptions o = []) (objects w).

Inductive reachable : World → Prop :=
  | reachable_initial w : initial w → reachable w
  | reachable_step e w : reachable w → reachable (run_event e w).

(** ** Notions used to state the properties of the queue *)

#[global] Instance request_class_eq_dec : EqDecision request_class.
Proof. solve_decision. Defined.

#[global] Instance apdu_class_eq_dec : EqDecision apdu_class.
Proof. solve_decision. Defined.

(** The request behind [r] is a confirmed notification for [d]. *)
Definition confirmed_to (w : World) (d : addr) (r : reqref) : Prop :=
  match requests w !! r with
  | Some q =>
      req_class q = ConfirmedCOVNotificationRequest ∧ pduDestination q = d
  | None => False
  end.

#[global] Instance confirmed_to_dec w d r : Decision (confirmed_to w d r).
Proof. unfold confirmed_to. destruct (requests w !! r); apply _. Defined.

(** The confirmed notifications transmitted to [d], in the order of their
    transmission. *)
Definition sent_to (w : World) (d : addr) : list reqref :=
  filter (confirmed_to w d) (sent w).

(** The pending sequence of [d]: the requests of its list in the queue. *)
Definition pending (w : World) (d : addr) : list reqref :=
  match confirmed_notifications_queue w !! d with
  | Some l => l.*1
  | None => []
  end.

(** The request has been given to the stack. *)
Definition transmitted (w : World) (r : reqref) : Prop := r ∈ sent w.

#[global] Instance transmitted_dec w r : Decision (transmitted w r).
Proof. unfold transmitted. apply _. Defined.

(** The pending requests of [d] that have been transmitted: they await
    their acknowledgement. *)
Definition awaiting (w : World) (d : addr) : list reqref :=
  filter (transmitted w) (pending w d).

(** At most one pending request of [d] has been transmitted: a list in the
    queue has a head, the head has been transmitted and nothing behind it
    has. *)
Definition one_in_flight (w : World) (d : addr) : Prop :=
  match confirmed_notifications_queue w !! d with
  | None => True
  | Some l =>
      ∃ r c rest, l = (r, c) :: rest ∧ transmitted w r ∧
                  ∀ x, x ∈ rest → ¬ transmitted w x.1
  end.

(** Requests are numbered as they are created, and a request is entered in
    the queue as soon as it is created, so the order of the references is
    the order of enqueueing. First in, first out: what has been transmitted
    to [d], followed by what still waits behind the head, is in that
    order. *)
Definition fifo (w : World) (d : addr) : Prop :=
  StronglySorted lt (sent_to w d ++ tail (pending w d)).

(** The entries of the queue under [d] are confirmed requests for [d] of
    subscriptions of the client [d]. *)
Definition queue_entries (w : World) : Prop :=
  ∀ d l r c, confirmed_notifications_queue w !! d = Some l → (r, c) ∈ l →
    confirmed_to w d r ∧
    ∃ s, subscriptions w !! c = Some s ∧ client_addr s = d.

(** References are handed out in increasing order. *)
Definition subrefs_fresh (w : World) : Prop :=
  ∀ c, is_Some (subscriptions w !! c) → (c < next_subref w)%nat.
Definition reqrefs_fresh (w : World) : Prop :=
  ∀ r, is_Some (requests w !! r) → (r < next_reqref w)%nat.
Definition sent_known (w : World) : Prop :=
  ∀ r, r ∈ sent w → is_Some (requests w !! r).

(** The invariant of the queue of confirmed notifications. *)
Record queue_inv (w : World) : Prop := mk_queue_inv {
  inv_subrefs : subrefs_fresh w;
  inv_reqrefs : reqrefs_fresh w;
  inv_sent : sent_known w;
  inv_entries : queue_entries w;
  inv_flight : ∀ d, one_in_flight w d;
  inv_fifo : ∀ d, fifo w d;
}.

(** ** Frames *)

(** The final world of every run of [m] is related to the initial one. *)
Definition frames {A} (R : World → World → Prop) (m : M World A) : Prop :=
  ∀ w, R w (snd (m w)).

(** Every run of [m] keeps [P]. *)
Definition preserves {A} (P : World → Prop) (m : M World A) : Prop :=
  ∀ w, P w → P (snd (m w)).

(** The part of the world the queue lives in is the same. *)
Definition delivery_unchanged (w w' : World) : Prop :=
  confirmed_notifications_queue w' = confirmed_notifications_queue w ∧
  requests w' = requests w ∧
  next_reqref w' = next_reqref w ∧
  sent w' = sent w.

(** The subscriptions of [w] are still there and have kept their client. *)
Definition subs_stable (w w' : World) : Prop :=
  ∀ c s, subscriptions w !! c = Some s →
    ∃ s', subscriptions w' !! c = Some s' ∧ client_addr s' = client_addr s.

(** What the methods of the registry do to the world, seen from the
    queue. *)
Definition registry_frame (w w' : World) : Prop :=
  delivery_unchanged w w' ∧
  (subrefs_fresh w → subrefs_fresh w' ∧ subs_stable w w').

(** The requests of the two worlds are the same objects, of the same class
    and for the same destination. *)
Definition req_stable (w w' : World) : Prop :=
  ∀ x, (λ q, (req_class q, pduDestination q)) <$> requests w' !! x
       = (λ q, (req_class q, pduDestination q)) <$> requests w !! x.

(** What transmitting the request [r] does to the world. *)
Definition sends (r : reqref) (w w' : World) : Prop :=
  sent w' = sent w ++ [r] ∧
  confirmed_notifications_queue w' = confirmed_notifications_queue w ∧
  subscriptions w' = subscriptions w ∧
  next_subref w' = next_subref w ∧
  next_reqref w' = next_reqref w ∧
  req_stable w w'.

(** The request [r] was created after every request in the log and in the
    queue. *)
Definition newest (w : World) (r : reqref) : Prop :=
  (∀ x, x ∈ sent w → (x < r)%nat) ∧
  (∀ d l x, confirmed_notifications_queue w !! d = Some l → x ∈ l →
            (x.1 < r)%nat).

(** A step of the queue: the subscriptions are untouched and the requests
    are the same objects. *)
Definition queue_step (w w' : World) : Prop :=
  subscriptions w' = subscriptions w ∧
  next_subref w' = next_subref w ∧
  next_reqref w' = next_reqref w ∧
  req_stable w w'.

(** The world after [pop(0)] on the list of the source of [apdu], [rest]
    being what was behind the head. *)
Definition popped (apdu : APDU) (rest : list (reqref * subref)) (w : World)
  : World :=
  set_confirmed_notifications_queue (insert (pduSource apdu) rest) w.

(** ** A device with two objects and one client *)

(** The device of [main]: a binary value object and an analog value object
    with an increment of 1, at time 0, before any traffic. *)
Definition bv1 : objid := ("binaryValue"%string, 1).
Definition av1 : objid := ("analogValue"%string, 1).

Definition device : World :=
  mkWorld 0 ("device"%string, 599)
    {[ bv1 := binary "inactive" "inactive"; av1 := analog 0 1 0 ]}
    ∅ 0%nat [] ∅ ∅ 0%nat 0 [] [] [].

Definition client : addr := "192.168.0.7"%string.

(** The client subscribes to the binary object, confirmed, for ever; the
    value is then written twice. *)
Definition two_pending : World :=
  run_events
    [ EvSubscribe (mkSubscribeCOVRequest client 1 bv1 (Some true) (Some 0));
      EvWrite bv1 "presentValue" (VStr "active");
      EvWrite bv1 "presentValue" (VStr "inactive") ]
    device.

(** The client has subscribed to the binary object. *)
Definition subscribed : World :=
  run_event
    (EvSubscribe (mkSubscribeCOVRequest client 1 bv1 (Some true) (Some 0)))
    device.

(** The client subscribes for ever (lifetime 0) and then, with the same
    process identifier and object, for 60 seconds. *)
Definition renewed_to_60 : World :=
  run_events
    [ EvSubscribe (mkSubscribeCOVRequest client 1 bv1 (Some true) (Some 0));
      EvSubscribe (mkSubscribeCOVRequest client 1 bv1 (Some true) (Some 60)) ]
    device.

(** The client subscribes for 5 seconds and then, with the same process
    identifier and object, for ever; the clock then reaches 100. *)
Definition renewed_to_0 : World :=
  run_events
    [ EvSubscribe (mkSubscribeCOVRequest client 1 bv1 (Some true) (Some 5));
      EvSubscribe (mkSubscribeCOVRequest client 1 bv1 (Some true) (Some 0));
      EvTick 100 ]
    device.

(** The client subscribes for 5 seconds, and the clock reaches 7 before the
    task manager has fired the subscription. *)
Definition overdue : World :=
  run_events
    [ EvSubscribe (mkSubscribeCOVRequest client 1 bv1 (Some true) (Some 5));
      EvTick 7 ]
    device.

(** The values of [timeRemaining] that [ReadProperty] reports. *)
Definition reported_time_remaining (w : World) : result (list Z) :=
  match fst (ReadProperty w) with
  | Ok l => Ok (cs_timeRemaining <$> l)
  | Raise e => Raise e
  end.

(** The value of [timeRemaining] in the request behind [r]. *)
Definition notified_time_remaining (w : World) (r : reqref) : option Z :=
  timeRemaining <$> requests w !! r.

(** ** Further notions: values, objects and the registry *)

(** The value is a number. *)
Definition is_number (v : value) : bool :=
  match v with
  | VNum _ => true
  | _ => false
  end.

(** A binary object on which [statusFlags] was never set, with a snapshot
    of the present value only. *)
Definition binary_without_flags (snapshot current : string) : COVObject :=
  mkCOVObject GenericCriteria
    {[ "presentValue" := VStr current ]}
    {[ "presentValue" := VStr snapshot ]}
    []
    {[ "presentValue" := BinaryPV; "statusFlags" := StatusFlags ]}.

(** An analog object whose [covIncrement] was never set: the property holds
    [None]. *)
Definition analog_without_increment (s c : Q) : COVObject :=
  mkCOVObject COVIncrementCriteria
    {[ "presentValue" := VNum c;
       "statusFlags" := VList [VNum 0; VNum 0; VNum 0; VNum 0];
       "covIncrement" := VNone ]}
    {[ "presentValue" := VNum s;
       "statusFlags" := VList [VNum 0; VNum 0; VNum 0; VNum 0] ]}
    []
    {[ "presentValue" := Real; "statusFlags" := StatusFlags;
       "covIncrement" := Real ]}.

(** What the stack below has seen of the queue: the queue, the requests, the
    log of transmissions and the next invoke id. *)
Definition delivery_state (w : World)
  : gmap addr (list (reqref * subref)) * gmap reqref Request
    * list reqref * Z :=
  (confirmed_notifications_queue w, requests w, sent w, next_invoke_id w).

(** The subscription behind [c] is registered with the object [k]: it
    exists and refers to [k]. A subscription that was cancelled refers to
    nothing. *)
Definition registered (w : World) (c : subref) (k : objid) : Prop :=
  ∃ s, subscriptions w !! c = Some s ∧ obj_ref s = Some k.

(** The test [all_equal] of [SubscriptionList.find]. *)
Definition matches (client : addr) (proc : Z) (oid : objid)
    (s : Subscription) : bool :=
  bool_decide (client_addr s = client) &&
  bool_decide (proc_id s = proc) &&
  bool_decide (obj_id s = oid).

(** No registered subscription has the three keys. *)
Definition no_match (w : World) (client : addr) (proc : Z) (oid : objid)
  : Prop :=
  ∀ c s, subscriptions w !! c = Some s → is_Some (obj_ref s) →
         matches client proc oid s = false.

(** The invariant of the registry: the list of the application and the
    lists of the objects hold, once each, the subscriptions that refer to
    an object; a subscription is in the list of the object it refers to and
    was made for; a subscription with a lifetime has a time, a scheduled
    one refers to an object; no two registered subscriptions have the same
    client, process identifier and object. *)
Record registry_inv (w : World) : Prop := mk_registry_inv {
  reg_fresh : subrefs_fresh w;
  reg_active_nodup : NoDup (active_cov_subscriptions w);
  reg_active :
    ∀ c, c ∈ active_cov_subscriptions w ↔ ∃ k, registered w c k;
  reg_list_nodup :
    ∀ k o, objects w !! k = Some o → NoDup (_cov_subscriptions o);
  reg_list :
    ∀ k o c, objects w !! k = Some o →
             (c ∈ _cov_subscriptions o ↔ registered w c k);
  reg_object : ∀ c k, registered w c k → is_Some (objects w !! k);
  reg_obj_id :
    ∀ c s k, subscriptions w !! c = Some s → obj_ref s = Some k →
             obj_id s = k;
  reg_task :
    ∀ c s, subscriptions w !! c = Some s →
           truthy_lifetime (lifetime s) = true → is_Some (taskTime s);
  reg_scheduled :
    ∀ c s, subscriptions w !! c = Some s → isScheduled s = true →
           is_Some (obj_ref s) ∧ is_Some (taskTime s);
  reg_unique :
    ∀ c1 c2 s1 s2,
      subscriptions w !! c1 = Some s1 → subscriptions w !! c2 = Some s2 →
      is_Some (obj_ref s1) → is_Some (obj_ref s2) →
      matches (client_addr s1) (proc_id s1) (obj_id s1) s2 = true →
      c1 = c2;
}.

(** The registry is the same in the two worlds: the subscriptions, the list
    of the application and the list of every object. *)
Definition registry_same (w w' : World) : Prop :=
  subscriptions w' = subscriptions w ∧
  next_subref w' = next_subref w ∧
  active_cov_subscriptions w' = active_cov_subscriptions w ∧
  ∀ k, _cov_subscriptions <$> objects w' !! k
       = _cov_subscriptions <$> objects w !! k.

(** What the task manager may do to a subscription: only the time and the
    scheduling change; a time is not lost; and only the subscription behind
    [cov] can become scheduled. *)
Definition sub_evolves (may_schedule : bool) (s s' : Subscription) : Prop :=
  obj_ref s' = obj_ref s ∧ client_addr s' = client_addr s ∧
  proc_id s' = proc_id s ∧ obj_id s' = obj_id s ∧
  confirmed s' = confirmed s ∧ lifetime s' = lifetime s ∧
  (is_Some (taskTime s) → is_Some (taskTime s')) ∧
  (isScheduled s' = true →
   isScheduled s = true ∨ (may_schedule = true ∧ is_Some (taskTime s'))).

Definition schedule_frame (cov : subref) (w w' : World) : Prop :=
  objects w' = objects w ∧
  active_cov_subscriptions w' = active_cov_subscriptions w ∧
  next_subref w' = next_subref w ∧
  delivery_unchanged w w' ∧
  ∀ c, match subscriptions w !! c, subscriptions w' !! c with
       | Some s, Some s' => sub_evolves (bool_decide (c = cov)) s s'
       | None, None => True
       | _, _ => False
       end.

(** The method [m] of an object leaves its list of subscriptions alone. *)
Definition keeps_subscriptions {A} (m : M COVObject A) : Prop :=
  ∀ o, _cov_subscriptions (snd (m o)) = _cov_subscriptions o.

(** The world after the subscription behind [cov], registered with the
    object [o] stored under [k], has been cancelled: [l_obj] and [l_app] are
    the two lists without it. *)
Definition cancelled (cov : subref) (k : objid) (o : COVObject)
    (l_obj l_app : list subref) (w : World) : World :=
  set_subscriptions (alter (set_obj_ref None) cov)
    (set_active_cov_subscriptions (λ _, l_app)
       (set_objects (insert k (set_cov_subscriptions (λ _, l_obj) o))
          (set_subscriptions (alter (set_isScheduled false) cov) w))).

(** The world after a subscription [s] has been made for the object [o]
    stored under [k]: it has the next reference and is at the end of the
    two lists. *)
Definition created (s : Subscription) (k : objid) (o : COVObject)
    (w : World) : World :=
  set_active_cov_subscriptions (λ l, l ++ [next_subref w])
    (set_objects
       (insert k (set_cov_subscriptions (λ l, l ++ [next_subref w]) o))
       (set_next_subref (S (next_subref w))
          (set_subscriptions (insert (next_subref w) s) w))).

(** The subscription [Subscription.__init__] leaves behind for a lifetime
    of [n] seconds, made at the time [t]. *)
Definition new_Subscription (k : objid) (client : addr) (proc : Z)
    (conf : option bool) (n : Z) (t : Q) : Subscription :=
  mkSubscription (Some k) client proc k conf (Some n)
    (if n =? 0 then None else Some (t + inject_Z n)%Q)
    (negb (n =? 0)).

(** The request is a cancellation: it carries neither the confirmed flag
    nor a lifetime. *)
Definition is_cancellation (apdu : SubscribeCOVRequest) : bool :=
  bool_decide (issueConfirmedNotifications apdu = None) &&
  bool_decide (scr_lifetime apdu = None).

(** The three keys of the request match the subscription. *)
Definition matches_request (apdu : SubscribeCOVRequest) (s : Subscription)
  : bool :=
  matches (scr_pduSource apdu) (scr_subscriberProcessIdentifier apdu)
          (scr_monitoredObjectIdentifier apdu) s.

(** The entry of [ActiveCOVSubscriptions.ReadProperty] for the subscription
    [c] of the world [w]. *)
Definition read_entry (w : World) (c : subref) (e : COVSubscription)
  : Prop :=
  ∃ s k o,
    subscriptions w !! c = Some s ∧ obj_ref s = Some k ∧
    objects w !! k = Some o ∧
    recipient e = client_addr s ∧
    processIdentifier e = proc_id s ∧
    cs_objectIdentifier e = obj_id s ∧
    _monitored_property_reference (obj_class o)
    = Ok (cs_propertyIdentifier e) ∧
    cs_issueConfirmedNotifications e = confirmed s ∧
    time_remaining s (now w) = Ok (cs_timeRemaining e).

(** The request that [_send_cov_notifications] fills in for the
    subscription [s]. *)
Definition notification_of (device_id : objid)
    (list_of_values : list (string * value)) (s : Subscription)
    (time_remaining : Z) (invoke_id : option Z) : Request :=
  mkRequest
    (if truthy_confirmed (confirmed s) then ConfirmedCOVNotificationRequest
     else UnconfirmedCOVNotificationRequest)
    (client_addr s) (proc_id s) device_id (obj_id s) time_remaining
    list_of_values invoke_id.

(** A device with a pulse converter, as [PulseConverterObjectCOV] builds
    it. *)
Definition pc1 : objid := ("pulseConverter"%string, 1).

Definition pulse_converter : COVObject :=
  mkCOVObject PulseConverterCriteria
    {[ "presentValue" := VNum 0;
       "statusFlags" := VList [VNum 0; VNum 0; VNum 0; VNum 0] ]}
    {[ "presentValue" := VNum 0;
       "statusFlags" := VList [VNum 0; VNum 0; VNum 0; VNum 0] ]}
    []
    {[ "presentValue" := Real; "statusFlags" := StatusFlags ]}.

Definition pulse_device : World :=
  mkWorld 0 ("device"%string, 599) {[ pc1 := pulse_converter ]}
    ∅ 0%nat [] ∅ ∅ 0%nat 0 [] [] [].

(** * Properties *)

(** ** Python equality *)

Lemma py_eq_refl (a : value) : py_eq a a = true.
Proof.
  revert a. fix IH 1. intros [ | q | s | l]; simpl.
  - reflexivity.
  - apply Qeq_bool_refl.
  - by apply bool_decide_eq_true.
  - induction l as [|x l IHl]; [reflexivity|].
    by rewrite IH, IHl.
Qed.

Lemma py_ne_refl (a : value) : py_ne a a = false.
Proof. unfold py_ne. by rewrite py_eq_refl. Qed.

(** ** The exact-match criteria *)

Lemma bool_decide_elem_of_cons_ne (p n : string) (rest : list string) :
  p ≠ n → bool_decide (p ∈ n :: rest) = bool_decide (p ∈ rest).
Proof.
  intros Hne. apply bool_decide_ext. rewrite elem_of_cons.
  split; [intros [Heq|Hin]; [by destruct Hne|exact Hin] | by right].
Qed.

Lemma differs_insert_snapshot o p v q :
  _values o !! p = Some v →
  differs (set_cov_properties (insert p v) o) q =
  if bool_decide (q = p) then false else differs o q.
Proof.
  intros Hv. unfold differs; simpl. case_bool_decide as Hq.
  - subst q. rewrite Hv, lookup_insert_eq. apply py_ne_refl.
  - by rewrite lookup_insert_ne.
Qed.

Lemma tracked_present_insert names o p v :
  tracked_present names o →
  tracked_present names (set_cov_properties (insert p v) o).
Proof.
  intros H q Hq. destruct (H q Hq) as [Hv Hs]. split; [exact Hv|].
  simpl. destruct (decide (p = q)) as [->|Hne].
  - rewrite lookup_insert_eq. by eexists.
  - by rewrite lookup_insert_ne.
Qed.

(** What the loop over the tracked names returns and leaves behind. *)
Lemma check_tracked_spec names :
  ∀ b0 o, tracked_present names o →
    ∃ o', check_tracked names b0 o
          = (Ok (b0 || existsb (differs o) names), o') ∧
      obj_class o' = obj_class o ∧
      _values o' = _values o ∧
      _cov_subscriptions o' = _cov_subscriptions o ∧
      ∀ p, _cov_properties o' !! p =
           if bool_decide (p ∈ names) && differs o p
           then _values o !! p else _cov_properties o !! p.
Proof.
  induction names as [|n rest IH]; intros b0 o Hpres.
  - exists o. simpl. rewrite orb_false_r. by repeat split.
  - destruct (Hpres n) as [[v Hv] [s Hs]]; [by left|].
    assert (Hrest : tracked_present rest o).
    { intros q Hq. apply Hpres. by right. }
    simpl. unfold bind, values_getitem, cov_properties_getitem, getitem.
    rewrite Hv, Hs. simpl.
    assert (Hd : differs o n = py_ne v s).
    { unfold differs. by rewrite Hv, Hs. }
    rewrite Hd. destruct (py_ne v s) eqn:Hne.
    + rewrite Hv. simpl.
      unfold cov_properties_setitem, modify. simpl.
      destruct (IH true (set_cov_properties (insert n v) o))
        as (o' & Hrun & Hc & Hvals & Hsubs & Hsnap).
      { by apply tracked_present_insert. }
      exists o'. rewrite Hrun. simpl. rewrite orb_true_r.
      repeat split; try done.
      intros p. rewrite Hsnap. simpl.
      rewrite (differs_insert_snapshot o n v p Hv).
      destruct (decide (p = n)) as [->|Hpn].
      * rewrite (bool_decide_eq_true_2 (n = n)) by done.
        rewrite andb_false_r, lookup_insert_eq.
        rewrite (bool_decide_eq_true_2 (n ∈ n :: rest)) by (by left).
        rewrite Hd. simpl. by rewrite Hv.
      * rewrite (bool_decide_eq_false_2 (p = n)) by done.
        rewrite lookup_insert_ne by done.
        by rewrite (bool_decide_elem_of_cons_ne p n rest Hpn).
    + destruct (IH b0 o Hrest) as (o' & Hrun & Hc & Hvals & Hsubs & Hsnap).
      exists o'. rewrite Hrun. simpl.
      repeat split; try done.
      intros p. rewrite Hsnap.
      destruct (decide (p = n)) as [->|Hpn].
      * rewrite Hd. simpl. by rewrite !andb_false_r.
      * by rewrite (bool_decide_elem_of_cons_ne p n rest Hpn).
Qed.

(** A run of the loop that returns has found every tracked name in both
    dictionaries. *)
Lemma check_tracked_Ok_present names :
  ∀ b0 o b o', check_tracked names b0 o = (Ok b, o') →
    tracked_present names o.
Proof.
  induction names as [|n rest IH]; intros b0 o b o' Hrun p Hp.
  - by apply elem_of_nil in Hp.
  - simpl in Hrun.
    unfold bind, values_getitem, cov_properties_getitem, getitem in Hrun.
    destruct (_values o !! n) as [v|] eqn:Hv; [|discriminate].
    destruct (_cov_properties o !! n) as [s|] eqn:Hs; [|discriminate].
    simpl in Hrun.
    apply elem_of_cons in Hp as [->|Hp].
    { rewrite Hv, Hs. split; by eexists. }
    destruct (py_ne v s).
    + rewrite Hv in Hrun. simpl in Hrun.
      apply IH in Hrun. destruct (Hrun p Hp) as [Hpv Hps]. split; [exact Hpv|].
      simpl in Hps. destruct (decide (n = p)) as [->|Hne].
      * rewrite Hs. by eexists.
      * by rewrite lookup_insert_ne in Hps.
    + by apply (IH _ _ _ _ Hrun).
Qed.

(** With no tracked name differing, the loop writes nothing. *)
Lemma check_tracked_quiet names :
  ∀ b0 o, tracked_present names o →
    (∀ p, p ∈ names → differs o p = false) →
    check_tracked names b0 o = (Ok b0, o).
Proof.
  induction names as [|n rest IH]; intros b0 o Hpres Hq; [reflexivity|].
  destruct (Hpres n) as [[v Hv] [s Hs]]; [by left|].
  simpl. unfold bind, values_getitem, cov_properties_getitem, getitem.
  rewrite Hv, Hs. simpl.
  assert (Hd : py_ne v s = false).
  { specialize (Hq n). unfold differs in Hq. rewrite Hv, Hs in Hq.
    apply Hq. by left. }
  rewrite Hd. apply IH.
  - intros q Hin. apply Hpres. by right.
  - intros q Hin. apply Hq. by right.
Qed.

(** What [__init__] leaves: every tracked name has a value and a snapshot
    value, and they are the same. *)
Lemma snapshot_tracked_spec names :
  ∀ o o', snapshot_tracked names o = (Ok tt, o') →
    _values o' = _values o ∧
    ∀ p, _cov_properties o' !! p =
         if bool_decide (p ∈ names) then _values o !! p
         else _cov_properties o !! p.
Proof.
  induction names as [|n rest IH]; intros o o' Hrun.
  - injection Hrun as <-. by split.
  - simpl in Hrun. unfold bind, values_getitem, getitem in Hrun.
    destruct (_values o !! n) as [v|] eqn:Hv; [|discriminate].
    simpl in Hrun. apply IH in Hrun as [Hvals Hsnap]. simpl in *.
    split; [exact Hvals|]. intros p. rewrite Hsnap.
    destruct (decide (p = n)) as [->|Hne].
    + rewrite (bool_decide_eq_true_2 (n ∈ n :: rest)) by by left.
      rewrite lookup_insert_eq. by destruct (bool_decide (n ∈ rest)).
    + rewrite (bool_decide_elem_of_cons_ne p n rest Hne).
      by rewrite lookup_insert_ne.
Qed.

Lemma snapshot_tracked_Ok_present names :
  ∀ o o', snapshot_tracked names o = (Ok tt, o') →
    ∀ p, p ∈ names → is_Some (_values o !! p).
Proof.
  induction names as [|n rest IH]; intros o o' Hrun p Hp.
  - by apply elem_of_nil in Hp.
  - simpl in Hrun. unfold bind, values_getitem, getitem in Hrun.
    destruct (_values o !! n) as [v|] eqn:Hv; [|discriminate].
    simpl in Hrun. apply elem_of_cons in Hp as [->|Hp]; [by eexists|].
    by apply (IH _ _ Hrun p Hp).
Qed.

Lemma COVObjectMixin_init_tracked_present c properties kwargs self :
  COVObjectMixin_init c properties kwargs = Ok self →
  tracked_present (_properties_tracked c) self ∧
  ∀ p, p ∈ _properties_tracked c → differs self p = false.
Proof.
  unfold COVObjectMixin_init.
  destruct (snapshot_tracked _ _) as [[[]|e] o'] eqn:Hrun; [|discriminate].
  intros [= ->].
  destruct (snapshot_tracked_spec _ _ _ Hrun) as [Hvals Hsnap].
  pose proof (snapshot_tracked_Ok_present _ _ _ Hrun) as Hpres.
  split.
  - intros p Hp. rewrite Hsnap, Hvals, (bool_decide_eq_true_2 _ Hp).
    split; by apply Hpres.
  - intros p Hp. unfold differs.
    rewrite Hsnap, Hvals, (bool_decide_eq_true_2 _ Hp).
    destruct (Hpres p Hp) as [v Hv]. rewrite Hv.
    apply py_ne_refl.
Qed.

(** C5. [COVCriteria._check_criteria] over any tracked names: it returns
    true exactly when some tracked property's current value is not equal to
    its snapshot value; the snapshot of every tracked property that differed
    is overwritten with the current value, and every other snapshot entry,
    like the current values themselves, is left as it was. *)
Theorem generic_check_criteria_spec (names : list string) (o : COVObject) :
  tracked_present names o →
  ∃ b o',
    COVCriteria_check_criteria names o = (Ok b, o') ∧
    (b = true ↔ ∃ p, p ∈ names ∧ differs o p = true) ∧
    (∀ p, p ∈ names → differs o p = true →
          _cov_properties o' !! p = _values o !! p) ∧
    (∀ p, ¬ (p ∈ names ∧ differs o p = true) →
          _cov_properties o' !! p = _cov_properties o !! p) ∧
    _values o' = _values o ∧
    obj_class o' = obj_class o ∧
    _cov_subscriptions o' = _cov_subscriptions o.
Proof.
  intros Hpres.
  destruct (check_tracked_spec names false o Hpres)
    as (o' & Hrun & Hc & Hvals & Hsubs & Hsnap).
  exists (existsb (differs o) names), o'. split; [exact Hrun|].
  split; [|split; [|split]]; [| | |done].
  - rewrite existsb_exists. split.
    + intros (p & Hin & Hd). exists p. by rewrite list_elem_of_In.
    + intros (p & Hin & Hd). exists p. by rewrite <- list_elem_of_In.
  - intros p Hin Hd. rewrite Hsnap, Hd.
    by rewrite bool_decide_eq_true_2.
  - intros p Hno. rewrite Hsnap.
    destruct (bool_decide (p ∈ names)) eqn:Hin; [|done].
    destruct (differs o p) eqn:Hd; [|done].
    destruct Hno. split; [|done]. by apply bool_decide_eq_true in Hin.
Qed.

Lemma generic_check_criteria_spec_witness :
  ∃ b o',
    COVCriteria_check_criteria (_properties_tracked GenericCriteria)
      (binary "inactive" "active") = (Ok b, o') ∧
    (b = true ↔ ∃ p, p ∈ _properties_tracked GenericCriteria ∧
                     differs (binary "inactive" "active") p = true) ∧
    (∀ p, p ∈ _properties_tracked GenericCriteria →
          differs (binary "inactive" "active") p = true →
          _cov_properties o' !! p
          = _values (binary "inactive" "active") !! p) ∧
    (∀ p, ¬ (p ∈ _properties_tracked GenericCriteria ∧
             differs (binary "inactive" "active") p = true) →
          _cov_properties o' !! p
          = _cov_properties (binary "inactive" "active") !! p) ∧
    _values o' = _values (binary "inactive" "active") ∧
    obj_class o' = obj_class (binary "inactive" "active") ∧
    _cov_subscriptions o' = _cov_subscriptions (binary "inactive" "active").
Proof.
  apply (generic_check_criteria_spec (_properties_tracked GenericCriteria)
           (binary "inactive" "active")).
  intros p Hp. simpl in Hp.
  apply elem_of_cons in Hp as [->|Hp];
    [split; eexists; reflexivity|].
  apply elem_of_cons in Hp as [->|Hp];
    [split; eexists; reflexivity|].
  by apply elem_of_nil in Hp.
Defined.

(** ** The arithmetic of floats *)

Lemma rne_bounds (y : Q) : Qfloor y <= rne y <= Qfloor y + 1.
Proof.
  unfold rne. destruct (_ ?= _)%Q; [destruct (Z.even _)| |]; lia.
Qed.

Lemma rne_mono (a b : Q) : (a <= b)%Q → rne a <= rne b.
Proof.
  intros Hab.
  pose proof (Qfloor_resp_le a b Hab) as Hf.
  pose proof (rne_bounds a) as Ha. pose proof (rne_bounds b) as Hb.
  destruct (decide (Qfloor a = Qfloor b)) as [Heq|Hne]; [|lia].
  unfold rne. rewrite <- Heq.
  destruct (Qcompare_spec (a - inject_Z (Qfloor a)) (1 # 2)) as [Ea|Ea|Ea];
    destruct (Qcompare_spec (b - inject_Z (Qfloor a)) (1 # 2)) as [Eb|Eb|Eb];
    try lia; try (destruct (Z.even (Qfloor a)); lia);
    exfalso; lra.
Qed.

Lemma rne_inject_Z (n : Z) : rne (inject_Z n) = n.
Proof.
  unfold rne. rewrite Qfloor_Z.
  destruct (Qcompare_spec (inject_Z n - inject_Z n) (1 # 2)) as [E|E|E];
    [exfalso; lra|done|exfalso; lra].
Qed.

Lemma pow2_pos_Q (k : Z) : 0 <= k → (0 < inject_Z (2 ^ k))%Q.
Proof.
  intros Hk. change 0%Q with (inject_Z 0). rewrite <- Zlt_Qlt.
  by apply Z.pow_pos_nonneg.
Qed.

Lemma rne_nonneg (y : Q) : (0 <= y)%Q → 0 <= rne y.
Proof.
  intros Hy. rewrite <- (rne_inject_Z 0). by apply rne_mono.
Qed.

(** The rounded number of units has at most 53 bits above the shift. *)
Lemma round_units_upper (y : Q) (k : Z) :
  (0 <= y)%Q → 0 <= k → Z.log2 (Qfloor y) - 52 <= k →
  rne (y / inject_Z (2 ^ k)) <= 2 ^ 53.
Proof.
  intros Hy Hk Hlog.
  rewrite <- (rne_inject_Z (2 ^ 53)). apply rne_mono.
  apply Qle_shift_div_r; [by apply pow2_pos_Q|].
  rewrite <- inject_Z_mult, <- Z.pow_add_r by lia.
  apply Qlt_le_weak. eapply Qlt_le_trans; [apply (Qlt_floor y)|].
  rewrite <- Zle_Qle.
  assert (Qfloor y < 2 ^ (53 + k)); [|lia].
  destruct (decide (0 < Qfloor y)) as [Hpos|Hnpos].
  - destruct (Z.log2_spec _ Hpos) as [_ Hlt].
    eapply Z.lt_le_trans; [exact Hlt|].
    apply Z.pow_le_mono_r; lia.
  - eapply Z.le_lt_trans; [|apply Z.pow_pos_nonneg; lia]. lia.
Qed.

Lemma round_units_lower (y : Q) (k : Z) :
  0 < k → k = Z.log2 (Qfloor y) - 52 →
  2 ^ 52 <= rne (y / inject_Z (2 ^ k)).
Proof.
  intros Hk Hlog.
  rewrite <- (rne_inject_Z (2 ^ 52)). apply rne_mono.
  apply Qle_shift_div_l; [apply pow2_pos_Q; lia|].
  rewrite <- inject_Z_mult, <- Z.pow_add_r by lia.
  eapply Qle_trans; [|apply (Qfloor_le y)].
  rewrite <- Zle_Qle.
  assert (Hpos : 0 < Qfloor y).
  { destruct (decide (0 < Qfloor y)) as [?|Hn]; [done|].
    rewrite Z.log2_nonpos in Hlog by lia. lia. }
  destruct (Z.log2_spec _ Hpos) as [Hle _].
  eapply Z.le_trans; [|exact Hle]. apply Z.pow_le_mono_r; lia.
Qed.

Lemma round_units_mono (a b : Q) :
  (0 <= a)%Q → (a <= b)%Q → round_units a <= round_units b.
Proof.
  intros Ha Hab. unfold round_units.
  assert (Hb : (0 <= b)%Q) by lra.
  pose proof (Z.log2_le_mono _ _ (Qfloor_resp_le a b Hab)) as Hlog.
  set (ka := Z.max 0 (Z.log2 (Qfloor a) - 52)).
  set (kb := Z.max 0 (Z.log2 (Qfloor b) - 52)).
  assert (Hka : 0 <= ka) by lia. assert (Hkb : 0 <= kb) by lia.
  destruct (decide (ka = kb)) as [Heq|Hne].
  - rewrite Heq. apply Z.mul_le_mono_nonneg_r; [by apply Z.pow_nonneg|].
    apply rne_mono. apply Qmult_le_compat_r; [exact Hab|].
    apply Qinv_le_0_compat, Qlt_le_weak, pow2_pos_Q, Hkb.
  - assert (Hlt : ka < kb) by lia.
    pose proof (round_units_upper a ka Ha Hka ltac:(lia)) as Hup.
    pose proof (round_units_lower b kb ltac:(lia) ltac:(lia)) as Hlow.
    assert (H1 : rne (a / inject_Z (2 ^ ka)) * 2 ^ ka <= 2 ^ 53 * 2 ^ ka).
    { apply Z.mul_le_mono_nonneg_r; [by apply Z.pow_nonneg|done]. }
    assert (H2 : 2 ^ 52 * 2 ^ kb <= rne (b / inject_Z (2 ^ kb)) * 2 ^ kb).
    { apply Z.mul_le_mono_nonneg_r; [by apply Z.pow_nonneg|done]. }
    assert (H3 : 2 ^ 53 * 2 ^ ka <= 2 ^ 52 * 2 ^ kb).
    { rewrite <- !Z.pow_add_r by lia. apply Z.pow_le_mono_r; lia. }
    lia.
Qed.

Lemma round_units_nonneg (y : Q) : (0 <= y)%Q → 0 <= round_units y.
Proof.
  intros Hy. unfold round_units. apply Z.mul_nonneg_nonneg.
  - apply rne_nonneg. apply Qle_shift_div_l; [apply pow2_pos_Q; lia|lra].
  - apply Z.pow_nonneg. lia.
Qed.

Lemma Qmake_le (a b : Z) (d : positive) : a <= b → (a # d <= b # d)%Q.
Proof. intros H. unfold Qle. simpl. nia. Qed.

(** Rounding is monotone. *)
Lemma round64_mono (a b : Q) : (a <= b)%Q → (round64 a <= round64 b)%Q.
Proof.
  intros Hab. unfold round64. rewrite !Qred_correct.
  assert (Hu : (0 <= inject_Z (Z.pos float_unit))%Q) by done.
  pose proof (Qabs_nonneg a) as Hna. pose proof (Qabs_nonneg b) as Hnb.
  destruct (Qle_bool 0 a) eqn:Ha, (Qle_bool 0 b) eqn:Hb.
  - apply Qle_bool_iff in Ha, Hb. apply Qmake_le.
    pose proof (Qabs_pos a Ha). pose proof (Qabs_pos b Hb).
    apply round_units_mono; [by apply Qmult_le_0_compat|].
    apply Qmult_le_compat_r; [lra|done].
  - apply Qle_bool_iff in Ha.
    assert (¬ (0 <= b)%Q) by (rewrite <- Qle_bool_iff; congruence). lra.
  - apply Qle_trans with (0 # float_unit).
    + apply Qmake_le.
      pose proof (round_units_nonneg (Qabs a * inject_Z (Z.pos float_unit))
                    (Qmult_le_0_compat _ _ Hna Hu)).
      lia.
    + apply Qmake_le. apply round_units_nonneg.
      by apply Qmult_le_0_compat.
  - assert (Ha' : ¬ (0 <= a)%Q) by (rewrite <- Qle_bool_iff; congruence).
    assert (Hb' : ¬ (0 <= b)%Q) by (rewrite <- Qle_bool_iff; congruence).
    apply Qmake_le.
    pose proof (Qabs_neg a ltac:(lra)). pose proof (Qabs_neg b ltac:(lra)).
    assert (round_units (Qabs b * inject_Z (Z.pos float_unit))
            <= round_units (Qabs a * inject_Z (Z.pos float_unit))); [|lia].
    apply round_units_mono; [by apply Qmult_le_0_compat|].
    apply Qmult_le_compat_r; [lra|done].
Qed.

#[global] Instance round64_comp : Proper (Qeq ==> Qeq) round64.
Proof.
  intros a b Hab. apply Qle_antisym; apply round64_mono; lra.
Qed.

Lemma is_float64_round (q : Q) : is_float64 q = true → (round64 q == q)%Q.
Proof.
  unfold is_float64. intros [H _]%andb_true_iff. by apply Qeq_bool_iff.
Qed.

Lemma Qle_bool_comp (a a' b b' : Q) :
  (a == a')%Q → (b == b')%Q → Qle_bool a b = Qle_bool a' b'.
Proof.
  intros Ha Hb. apply eq_true_iff_eq. rewrite !Qle_bool_iff.
  by rewrite Ha, Hb.
Qed.

(** ** The increment criteria *)

Lemma Qle_bool_crosses (s i c : Q) :
  Qle_bool c (round64 (s - i)) || Qle_bool (round64 (s + i)) c = true
  ↔ crosses_deadband s i c.
Proof.
  unfold crosses_deadband.
  rewrite orb_true_iff, !Qle_bool_iff. reflexivity.
Qed.

(** When the two bounds are floats, the rule is the exact one. *)
Lemma crosses_deadband_exact (s i c : Q) :
  is_float64 (s - i) = true → is_float64 (s + i) = true →
  crosses_deadband s i c ↔ crosses_exact s i c.
Proof.
  intros Hlow%is_float64_round Hhigh%is_float64_round.
  unfold crosses_deadband, crosses_exact. by rewrite Hlow, Hhigh.
Qed.

(** A float on or outside the exact band is on or outside the band that
    the program computes. *)
Lemma crosses_exact_deadband (s i c : Q) :
  is_float64 c = true → crosses_exact s i c → crosses_deadband s i c.
Proof.
  intros Hc%is_float64_round [H|H]; [left|right]; rewrite <- Hc.
  - by apply round64_mono.
  - by apply round64_mono.
Qed.

(** The run of [COVIncrementCriteria._check_criteria] on numbers. *)
Lemma increment_check_criteria_run (o : COVObject) (s i c : Q) (f g : value) :
  _cov_properties o !! "presentValue" = Some (VNum s) →
  _values o !! "presentValue" = Some (VNum c) →
  _values o !! "covIncrement" = Some (VNum i) →
  _values o !! "statusFlags" = Some f →
  _cov_properties o !! "statusFlags" = Some g →
  let value_changed :=
    Qle_bool c (round64 (s - i)) || Qle_bool (round64 (s + i)) c in
  let status_changed := py_ne f g in
  COVIncrementCriteria_check_criteria o =
    (Ok (value_changed || status_changed),
     (if status_changed then set_cov_properties (insert "statusFlags" f)
      else id)
       ((if value_changed
         then set_cov_properties (insert "presentValue" (VNum c))
         else id) o)).
Proof.
  intros Hs Hc Hi Hf Hg. simpl.
  unfold COVIncrementCriteria_check_criteria, bind, cov_properties_getitem,
    values_getitem, getitem, lift_result.
  rewrite Hs, Hc, Hi. simpl.
  destruct (Qle_bool c (round64 (s - i))) eqn:Hlow; simpl.
  - unfold cov_properties_setitem, modify, ret. simpl.
    rewrite Hf. rewrite lookup_insert_ne by done. rewrite Hg.
    destruct (py_ne f g); simpl; [by rewrite Hf|done].
  - unfold py_ge, py_le. destruct (Qle_bool (round64 (s + i)) c) eqn:Hhigh;
      simpl.
    + unfold cov_properties_setitem, modify, ret. simpl.
      rewrite Hf. rewrite lookup_insert_ne by done. rewrite Hg.
      destruct (py_ne f g); simpl; [by rewrite Hf|done].
    + unfold ret. rewrite Hf, Hg.
      destruct (py_ne f g); simpl; [by rewrite Hf|done].
Qed.

(** C4, amended. [COVIncrementCriteria._check_criteria]: the present value
    counts as changed exactly when [c <= s - i] or [c >= s + i], where the
    difference and the sum are those of floats, rounded to the nearest
    float; when the two are floats themselves, as for snapshot 10 and
    increment 2, this is the exact rule. The status flags are compared by
    [!=] on their own; the method returns true when either changed, and
    writes to the snapshot the properties that changed and no other. With
    snapshot 10 and increment 2 the values 12 and 8 are reported and 11.999
    is not. *)
Theorem increment_check_criteria_spec
    (o : COVObject) (s i c : Q) (f g : value) :
  _cov_properties o !! "presentValue" = Some (VNum s) →
  _values o !! "presentValue" = Some (VNum c) →
  _values o !! "covIncrement" = Some (VNum i) →
  _values o !! "statusFlags" = Some f →
  _cov_properties o !! "statusFlags" = Some g →
  ∃ value_changed status_changed o',
    (value_changed = true ↔ crosses_deadband s i c) ∧
    (is_float64 (s - i) = true → is_float64 (s + i) = true →
     (value_changed = true ↔ crosses_exact s i c)) ∧
    status_changed = py_ne f g ∧
    COVIncrementCriteria_check_criteria o
      = (Ok (value_changed || status_changed), o') ∧
    _cov_properties o' =
      (if status_changed then insert "statusFlags" f else id)
        ((if value_changed then insert "presentValue" (VNum c) else id)
           (_cov_properties o)) ∧
    _values o' = _values o ∧
    fst (COVIncrementCriteria_check_criteria (analog 10 2 12)) = Ok true ∧
    fst (COVIncrementCriteria_check_criteria (analog 10 2 8)) = Ok true ∧
    fst (COVIncrementCriteria_check_criteria
           (analog 10 2 (round64 11.999))) = Ok false.
Proof.
  intros Hs Hc Hi Hf Hg.
  pose proof (increment_check_criteria_run o s i c f g Hs Hc Hi Hf Hg) as Hrun.
  simpl in Hrun.
  eexists _, _, _. split; [apply Qle_bool_crosses|].
  split.
  { intros Hlow Hhigh. rewrite Qle_bool_crosses.
    by apply crosses_deadband_exact. }
  split; [reflexivity|]. split; [exact Hrun|].
  split; [|split; [|by vm_compute]].
  - by destruct (py_ne f g),
         (Qle_bool c (round64 (s - i)) || Qle_bool (round64 (s + i)) c).
  - by destruct (py_ne f g),
         (Qle_bool c (round64 (s - i)) || Qle_bool (round64 (s + i)) c).
Qed.

Lemma increment_check_criteria_spec_witness :
  ∃ value_changed status_changed o',
    (value_changed = true ↔ crosses_deadband 0 1 0.5) ∧
    (is_float64 (0 - 1) = true → is_float64 (0 + 1) = true →
     (value_changed = true ↔ crosses_exact 0 1 0.5)) ∧
    status_changed
      = py_ne (VList [VNum 0; VNum 0; VNum 0; VNum 0])
              (VList [VNum 0; VNum 0; VNum 0; VNum 0]) ∧
    COVIncrementCriteria_check_criteria (analog 0 1 0.5)
      = (Ok (value_changed || status_changed), o') ∧
    _cov_properties o' =
      (if status_changed
       then insert "statusFlags" (VList [VNum 0; VNum 0; VNum 0; VNum 0])
       else id)
        ((if value_changed then insert "presentValue" (VNum 0.5) else id)
           (_cov_properties (analog 0 1 0.5))) ∧
    _values o' = _values (analog 0 1 0.5) ∧
    fst (COVIncrementCriteria_check_criteria (analog 10 2 12)) = Ok true ∧
    fst (COVIncrementCriteria_check_criteria (analog 10 2 8)) = Ok true ∧
    fst (COVIncrementCriteria_check_criteria
           (analog 10 2 (round64 11.999))) = Ok false.
Proof.
  apply (increment_check_criteria_spec (analog 0 1 0.5) 0 1 0.5
           (VList [VNum 0; VNum 0; VNum 0; VNum 0])
           (VList [VNum 0; VNum 0; VNum 0; VNum 0])); reflexivity.
Defined.

(** Counterexample to C4 as stated: snapshot [10 ^ 16], current value
    [10 ^ 16], increment 1, all three of them floats. The current value is
    the snapshot, strictly inside the exact band, and the increment
    criteria report a change: [10 ^ 16 - 1] is rounded to [10 ^ 16]. *)
Lemma deadband_rule_not_exact :
  COVIncrementCriteria_check_criteria (analog ten_to_16 1 ten_to_16)
    = (Ok true, analog ten_to_16 1 ten_to_16) ∧
  round64 (ten_to_16 - 1) = ten_to_16 ∧
  ¬ crosses_exact ten_to_16 1 ten_to_16 ∧
  ¬ deadband_rule_is_exact.
Proof.
  assert (Hrun : COVIncrementCriteria_check_criteria
                   (analog ten_to_16 1 ten_to_16)
                 = (Ok true, analog ten_to_16 1 ten_to_16)).
  { by vm_compute. }
  assert (Hexact : ¬ crosses_exact ten_to_16 1 ten_to_16).
  { intros [H|H]; apply Qle_bool_iff in H; by vm_compute in H. }
  split; [exact Hrun|]. split; [by vm_compute|]. split; [exact Hexact|].
  intros Hclaim. apply Hexact.
  apply (Hclaim (analog ten_to_16 1 ten_to_16) ten_to_16 1%Q ten_to_16
           (VList [VNum 0; VNum 0; VNum 0; VNum 0])
           (VList [VNum 0; VNum 0; VNum 0; VNum 0]));
    by vm_compute.
Qed.

(** Counterexample to C3 as stated: snapshot 5, current value 5, increment
    0. The exact-match criteria report no change and the increment criteria
    report one. *)
Lemma increment_0_not_exact_match :
  COVIncrementCriteria_check_criteria (analog 5 0 5)
    = (Ok true, analog 5 0 5) ∧
  COVCriteria_check_criteria ["presentValue"; "statusFlags"] (analog 5 0 5)
    = (Ok false, analog 5 0 5) ∧
  ¬ increment_0_is_exact_match.
Proof.
  assert (Hinc : COVIncrementCriteria_check_criteria (analog 5 0 5)
                 = (Ok true, analog 5 0 5)).
  { by vm_compute. }
  assert (Hgen : COVCriteria_check_criteria ["presentValue"; "statusFlags"]
                   (analog 5 0 5) = (Ok false, analog 5 0 5)).
  { reflexivity. }
  split; [exact Hinc|]. split; [exact Hgen|].
  intros Hclaim.
  specialize (Hclaim (analog 5 0 5) 5%Q 5%Q
                (VList [VNum 0; VNum 0; VNum 0; VNum 0])
                (VList [VNum 0; VNum 0; VNum 0; VNum 0])
                eq_refl eq_refl eq_refl eq_refl eq_refl).
  rewrite Hinc, Hgen in Hclaim. discriminate.
Qed.

(** C3, amended. With an increment equal to 0 the increment criteria report
    the present value as changed at every evaluation, whatever the current
    value and the snapshot are, and take the current value as the new
    snapshot; the exact-match criteria report a change of present value or
    status flags only when one of them differs. *)
Theorem increment_0_always_changed
    (o : COVObject) (s i c : Q) (f g : value) :
  (i == 0)%Q →
  _cov_properties o !! "presentValue" = Some (VNum s) →
  _values o !! "presentValue" = Some (VNum c) →
  _values o !! "covIncrement" = Some (VNum i) →
  _values o !! "statusFlags" = Some f →
  _cov_properties o !! "statusFlags" = Some g →
  fst (COVIncrementCriteria_check_criteria o) = Ok true ∧
  _cov_properties (snd (COVIncrementCriteria_check_criteria o))
    !! "presentValue" = Some (VNum c) ∧
  fst (COVCriteria_check_criteria ["presentValue"; "statusFlags"] o)
    = Ok (negb (Qeq_bool c s) || py_ne f g).
Proof.
  intros Hi0 Hs Hc Hi Hf Hg.
  rewrite (increment_check_criteria_run o s i c f g Hs Hc Hi Hf Hg).
  assert (Hvc : Qle_bool c (round64 (s - i)) || Qle_bool (round64 (s + i)) c
                = true).
  { apply Qle_bool_crosses. unfold crosses_deadband.
    assert (Hsame : (round64 (s - i) == round64 (s + i))%Q).
    { apply round64_comp. rewrite Hi0. ring. }
    rewrite Hsame.
    destruct (Qlt_le_dec (round64 (s + i)) c) as [Hlt|Hle].
    - right. by apply Qlt_le_weak.
    - by left. }
  rewrite Hvc. simpl. split; [reflexivity|]. split.
  - destruct (py_ne f g); simpl.
    + rewrite lookup_insert_ne by done. by rewrite lookup_insert_eq.
    + by rewrite lookup_insert_eq.
  - unfold COVCriteria_check_criteria.
    assert (Hpres : tracked_present ["presentValue"; "statusFlags"] o).
    { intros p Hp. apply elem_of_cons in Hp as [->|Hp].
      { rewrite Hc, Hs. split; by eexists. }
      apply elem_of_cons in Hp as [->|Hp].
      { rewrite Hf, Hg. split; by eexists. }
      by apply elem_of_nil in Hp. }
    destruct (check_tracked_spec _ false o Hpres) as (o' & Hrun & _).
    rewrite Hrun. simpl. unfold differs. rewrite Hc, Hs, Hf, Hg.
    simpl. by rewrite orb_false_r.
Qed.

Lemma increment_0_always_changed_witness :
  fst (COVIncrementCriteria_check_criteria (analog 5 0 5)) = Ok true ∧
  _cov_properties (snd (COVIncrementCriteria_check_criteria (analog 5 0 5)))
    !! "presentValue" = Some (VNum 5) ∧
  fst (COVCriteria_check_criteria ["presentValue"; "statusFlags"]
         (analog 5 0 5))
    = Ok (negb (Qeq_bool 5 5)
          || py_ne (VList [VNum 0; VNum 0; VNum 0; VNum 0])
                   (VList [VNum 0; VNum 0; VNum 0; VNum 0])).
Proof.
  apply (increment_0_always_changed (analog 5 0 5) 5 0 5
           (VList [VNum 0; VNum 0; VNum 0; VNum 0])
           (VList [VNum 0; VNum 0; VNum 0; VNum 0])); reflexivity.
Defined.

(** ** Evaluating twice *)

Lemma generic_quiet_after_evaluation (names : list string)
    (o : COVObject) (b : bool) (o' : COVObject) :
  check_tracked names false o = (Ok b, o') →
  check_tracked names false o' = (Ok false, o').
Proof.
  intros Hrun.
  pose proof (check_tracked_Ok_present _ _ _ _ _ Hrun) as Hpres.
  destruct (check_tracked_spec names false o Hpres)
    as (o'' & Hrun' & Hc & Hvals & Hsubs & Hsnap).
  rewrite Hrun in Hrun'. injection Hrun' as _ <-.
  assert (Hpres' : tracked_present names o').
  { intros p Hp. destruct (Hpres p Hp) as [Hv Hs].
    rewrite Hvals, Hsnap. split; [exact Hv|].
    by destruct (bool_decide (p ∈ names) && differs o p). }
  apply check_tracked_quiet; [exact Hpres'|].
  intros p Hp. destruct (Hpres p Hp) as [[v Hv] [s Hs]].
  unfold differs. rewrite Hvals, Hsnap, Hv.
  rewrite (bool_decide_eq_true_2 _ Hp). simpl.
  destruct (differs o p) eqn:Hd.
  - apply py_ne_refl.
  - rewrite Hs. unfold differs in Hd. by rewrite Hv, Hs in Hd.
Qed.

(** A run of the increment criteria that returns has found its three
    numbers and the two values of the status flags. *)
Lemma increment_check_criteria_Ok_inv (o : COVObject) (b : bool)
    (o' : COVObject) :
  COVIncrementCriteria_check_criteria o = (Ok b, o') →
  ∃ s i c f g,
    _cov_properties o !! "presentValue" = Some (VNum s) ∧
    _values o !! "presentValue" = Some (VNum c) ∧
    _values o !! "covIncrement" = Some (VNum i) ∧
    _values o !! "statusFlags" = Some f ∧
    _cov_properties o !! "statusFlags" = Some g.
Proof.
  unfold COVIncrementCriteria_check_criteria, bind, cov_properties_getitem,
    values_getitem, getitem, lift_result.
  destruct (_cov_properties o !! "presentValue") as [vs|] eqn:Hs;
    [|discriminate].
  destruct (_values o !! "presentValue") as [vc|] eqn:Hc; [|discriminate].
  destruct (_values o !! "covIncrement") as [vi|] eqn:Hi; [|discriminate].
  destruct vs as [|s| |]; simpl; try discriminate.
  destruct vi as [|i| |]; simpl; try discriminate.
  destruct vc as [|c| |]; simpl; try discriminate.
  intros Hrun.
  assert (Hflags : is_Some (_values o !! "statusFlags") ∧
                   is_Some (_cov_properties o !! "statusFlags")).
  { destruct (Qle_bool c (round64 (s - i))); simpl in Hrun.
    - unfold cov_properties_setitem, modify in Hrun. simpl in Hrun.
      destruct (_values o !! "statusFlags") as [f|]; [|discriminate].
      rewrite lookup_insert_ne in Hrun by done.
      destruct (_cov_properties o !! "statusFlags") as [g|]; [|discriminate].
      split; by eexists.
    - unfold py_ge, py_le in Hrun.
      destruct (Qle_bool (round64 (s + i)) c); simpl in Hrun.
      + unfold cov_properties_setitem, modify in Hrun. simpl in Hrun.
        destruct (_values o !! "statusFlags") as [f|]; [|discriminate].
        rewrite lookup_insert_ne in Hrun by done.
        destruct (_cov_properties o !! "statusFlags") as [g|];
          [|discriminate].
        split; by eexists.
      + unfold ret in Hrun.
        destruct (_values o !! "statusFlags") as [f|]; [|discriminate].
        destruct (_cov_properties o !! "statusFlags") as [g|];
          [|discriminate].
        split; by eexists. }
  destruct Hflags as [[f Hf] [g Hg]].
  by exists s, i, c, f, g.
Qed.

(** An increment that is not rounded away: subtracted from the number and
    added to it, it gives floats below and above the number. *)
Lemma increment_quiet_after_evaluation (o : COVObject) (b : bool)
    (o' : COVObject) (i c : Q) :
  COVIncrementCriteria_check_criteria o = (Ok b, o') →
  _values o !! "covIncrement" = Some (VNum i) →
  _values o !! "presentValue" = Some (VNum c) →
  (round64 (c - i) < c)%Q → (c < round64 (c + i))%Q →
  COVIncrementCriteria_check_criteria o' = (Ok false, o').
Proof.
  intros Hrun Hi Hc Hbelow Habove.
  destruct (increment_check_criteria_Ok_inv o b o' Hrun)
    as (s & i' & c' & f & g & Hs & Hc' & Hi' & Hf & Hg).
  rewrite Hi in Hi'. injection Hi' as <-.
  rewrite Hc in Hc'. injection Hc' as <-.
  rewrite (increment_check_criteria_run o s i c f g Hs Hc Hi Hf Hg) in Hrun.
  injection Hrun as _ <-.
  set (vc := Qle_bool c (round64 (s - i)) || Qle_bool (round64 (s + i)) c).
  set (sc := py_ne f g).
  assert (Hrun2 := increment_check_criteria_run
    ((if sc then set_cov_properties (insert "statusFlags" f) else id)
       ((if vc then set_cov_properties (insert "presentValue" (VNum c))
         else id) o))
    (if vc then c else s) i c f (if sc then f else g)).
  simpl in Hrun2.
  assert (Hvc' : Qle_bool c (round64 ((if vc then c else s) - i))
                 || Qle_bool (round64 ((if vc then c else s) + i)) c
                 = false).
  { destruct vc eqn:Hvc; [|exact Hvc].
    apply not_true_is_false. rewrite Qle_bool_crosses.
    unfold crosses_deadband. intros [Hle|Hle]; lra. }
  assert (Hsc' : py_ne f (if sc then f else g) = false).
  { destruct sc eqn:Hsc; [apply py_ne_refl|exact Hsc]. }
  rewrite Hvc', Hsc' in Hrun2. simpl in Hrun2. apply Hrun2.
  - destruct sc, vc; simpl;
      rewrite ?lookup_insert_eq, ?lookup_insert_ne by done;
      rewrite ?lookup_insert_eq; done.
  - by destruct sc, vc.
  - by destruct sc, vc.
  - by destruct sc, vc.
  - destruct sc, vc; simpl;
      rewrite ?lookup_insert_eq, ?lookup_insert_ne by done; done.
Qed.

(** Counterexample to C6 as stated: an analog object with increment 0 whose
    snapshot equals its current values. No value is written, and both
    evaluations return true. *)
Lemma increment_0_never_quiet :
  _check_criteria COVIncrementCriteria (analog 5 0 5)
    = (Ok true, analog 5 0 5) ∧
  _check_criteria COVIncrementCriteria
      (snd (_check_criteria COVIncrementCriteria (analog 5 0 5)))
    = (Ok true, analog 5 0 5) ∧
  ¬ quiet_after_evaluation COVIncrementCriteria.
Proof.
  split; [by vm_compute|]. split; [by vm_compute|].
  intros Hclaim.
  assert (Hrun : _check_criteria COVIncrementCriteria (analog 5 0 5)
                 = (Ok true, analog 5 0 5)) by by vm_compute.
  destruct (Hclaim (analog 5 0 5) true (analog 5 0 5) Hrun) as [H _].
  rewrite Hrun in H. discriminate H.
Qed.

(** C6, amended. For the exact-match criteria, and for the increment
    criteria when the increment is not rounded away, that is when the
    present value minus the increment and the present value plus the
    increment, as floats, are below and above the present value: on the
    object as an evaluation left it, with no value written since, two
    evaluations in a row return false and leave the object, snapshot
    included, as it was. *)
Theorem evaluate_twice_quiet (c : criteria_class)
    (o : COVObject) (b : bool) (o' : COVObject) :
  _check_criteria c o = (Ok b, o') →
  (c = COVIncrementCriteria →
   ∃ i v, _values o !! "covIncrement" = Some (VNum i) ∧
          _values o !! "presentValue" = Some (VNum v) ∧
          (round64 (v - i) < v)%Q ∧ (v < round64 (v + i))%Q) →
  _check_criteria c o' = (Ok false, o') ∧
  _check_criteria c (snd (_check_criteria c o')) = (Ok false, o').
Proof.
  intros Hrun Hinc.
  assert (Hquiet : _check_criteria c o' = (Ok false, o')).
  { destruct c; simpl in *;
      try (by eapply generic_quiet_after_evaluation);
      try discriminate.
    destruct (Hinc eq_refl) as (i & v & Hi & Hv & Hbelow & Habove).
    by eapply increment_quiet_after_evaluation. }
  split; [exact Hquiet|]. by rewrite Hquiet.
Qed.

Lemma evaluate_twice_quiet_witness :
  _check_criteria COVIncrementCriteria
    (snd (_check_criteria COVIncrementCriteria (analog 0 1 1)))
  = (Ok false, snd (_check_criteria COVIncrementCriteria (analog 0 1 1))) ∧
  _check_criteria COVIncrementCriteria
    (snd (_check_criteria COVIncrementCriteria
            (snd (_check_criteria COVIncrementCriteria (analog 0 1 1)))))
  = (Ok false, snd (_check_criteria COVIncrementCriteria (analog 0 1 1))).
Proof.
  apply (evaluate_twice_quiet COVIncrementCriteria (analog 0 1 1) true).
  - by vm_compute.
  - intros _. exists 1%Q, 1%Q. by vm_compute.
Defined.

(** ** Frames of the methods *)

Section frames.
Context (R : World → World → Prop) `{!Reflexive R, !Transitive R}.

Lemma frames_ret {A} (a : A) : frames R (ret a).
Proof. intros w. simpl. reflexivity. Qed.

Lemma frames_raise {A} (e : exn) : frames R (@raise World A e).
Proof. intros w. simpl. reflexivity. Qed.

Lemma frames_get : frames R get.
Proof. intros w. simpl. reflexivity. Qed.

Lemma frames_lift_result {A} (r : result A) : frames R (lift_result r).
Proof. intros w. simpl. reflexivity. Qed.

Lemma frames_bind {A B} (m : M World A) (k : A → M World B) :
  frames R m → (∀ a, frames R (k a)) → frames R (bind m k).
Proof.
  intros Hm Hk w. unfold bind. specialize (Hm w).
  destruct (m w) as [[a|e] w1]; simpl in *; [|exact Hm].
  etrans; [exact Hm|apply Hk].
Qed.

Lemma frames_modify (f : World → World) :
  (∀ w, R w (f w)) → frames R (modify f).
Proof. intros Hf w. apply Hf. Qed.

Lemma frames_get_subscription cov : frames R (get_subscription cov).
Proof.
  intros w. unfold get_subscription.
  destruct (subscriptions w !! cov); simpl; reflexivity.
Qed.

Lemma frames_get_request r : frames R (get_request r).
Proof.
  intros w. unfold get_request.
  destruct (requests w !! r); simpl; reflexivity.
Qed.

Lemma frames_get_object obj : frames R (get_object obj).
Proof.
  intros w. unfold get_object.
  destruct (objects w !! obj); simpl; reflexivity.
Qed.

Lemma frames_get_time : frames R get_time.
Proof. intros w. simpl. reflexivity. Qed.

Lemma frames_on_object {A} obj (m : M COVObject A) :
  (∀ w f, R w (set_objects f w)) → frames R (on_object obj m).
Proof.
  intros Hobj w. unfold on_object.
  destruct (objects w !! obj) as [o|]; [|simpl; reflexivity].
  destruct (m o) as [r o']. simpl. apply Hobj.
Qed.
End frames.

Lemma preserves_frames {A} (R : World → World → Prop) (P : World → Prop)
    (m : M World A) :
  (∀ w w', R w w' → P w → P w') → frames R m → preserves P m.
Proof. intros HR Hm w HP. exact (HR _ _ (Hm w) HP). Qed.

Lemma preserves_bind {A B} (P : World → Prop) (m : M World A)
    (k : A → M World B) :
  preserves P m → (∀ a, preserves P (k a)) → preserves P (bind m k).
Proof.
  intros Hm Hk w HP. unfold bind. specialize (Hm w HP).
  destruct (m w) as [[a|e] w1]; simpl in *; [|exact Hm].
  by apply Hk.
Qed.

Lemma preserves_pure {A} (P : World → Prop) (m : M World A) :
  (∀ w, snd (m w) = w) → preserves P m.
Proof. intros Hm w HP. by rewrite Hm. Qed.

(** ** The registry, seen from the queue *)

#[local] Instance registry_frame_refl : Reflexive registry_frame.
Proof. intros w. split; [by repeat split|]. intros Hf. split; [done|].
  intros c s Hs. by exists s. Qed.

#[local] Instance registry_frame_trans : Transitive registry_frame.
Proof.
  intros w1 w2 w3 [(Hq1 & Hr1 & Hn1 & Hs1) H12] [(Hq2 & Hr2 & Hn2 & Hs2) H23].
  split.
  - repeat split; congruence.
  - intros Hf1. destruct (H12 Hf1) as [Hf2 Hst12].
    destruct (H23 Hf2) as [Hf3 Hst23]. split; [exact Hf3|].
    intros c s Hs. destruct (Hst12 c s Hs) as (s2 & Hs2' & Hc2).
    destruct (Hst23 c s2 Hs2') as (s3 & Hs3' & Hc3).
    exists s3. split; [exact Hs3'|congruence].
Qed.

Lemma registry_frame_set_objects w f : registry_frame w (set_objects f w).
Proof.
  split; [by repeat split|]. intros Hf. split; [exact Hf|].
  intros c s Hs. by exists s.
Qed.

Lemma registry_frame_set_active w f :
  registry_frame w (set_active_cov_subscriptions f w).
Proof.
  split; [by repeat split|]. intros Hf. split; [exact Hf|].
  intros c s Hs. by exists s.
Qed.

Lemma registry_frame_set_responses w f :
  registry_frame w (set_responses f w).
Proof.
  split; [by repeat split|]. intros Hf. split; [exact Hf|].
  intros c s Hs. by exists s.
Qed.

Lemma registry_frame_set_now w t : registry_frame w (set_now t w).
Proof.
  split; [by repeat split|]. intros Hf. split; [exact Hf|].
  intros c s Hs. by exists s.
Qed.

Lemma registry_frame_alter w cov (f : Subscription → Subscription) :
  (∀ s, client_addr (f s) = client_addr s) →
  registry_frame w (set_subscriptions (alter f cov) w).
Proof.
  intros Hf. split; [by repeat split|]. intros Hfresh. split.
  - intros c Hc. apply Hfresh. simpl in Hc.
    by rewrite lookup_alter_is_Some in Hc.
  - intros c s Hs. simpl. destruct (decide (cov = c)) as [->|Hne].
    + exists (f s). by rewrite lookup_alter_eq, Hs.
    + exists s. by rewrite lookup_alter_ne.
Qed.

Lemma frames_update_subscription cov (f : Subscription → Subscription) :
  (∀ s, client_addr (f s) = client_addr s) →
  frames registry_frame (update_subscription cov f).
Proof. intros Hf w. by apply registry_frame_alter. Qed.

Lemma frames_new_subscription s : frames registry_frame (new_subscription s).
Proof.
  intros w. split; [by repeat split|]. intros Hfresh. simpl. split.
  - intros c Hc. simpl in *.
    destruct (decide (next_subref w = c)) as [<-|Hne]; [lia|].
    rewrite lookup_insert_ne in Hc by done.
    specialize (Hfresh c Hc). lia.
  - intros c s' Hs'. exists s'. split; [|done]. simpl.
    rewrite lookup_insert_ne; [done|].
    intros <-. assert (next_subref w < next_subref w)%nat; [|lia].
    apply Hfresh. by eexists.
Qed.

(** One step of a proof that a method of the registry has the frame. *)
Create HintDb registry_frames.

Ltac registry_frame_step :=
  first
    [ solve [auto 1 with registry_frames nocore]
    | apply frames_bind; [apply _ | | intros ? ]
    | apply frames_ret; apply _
    | apply frames_raise; apply _
    | apply frames_get; apply _
    | apply frames_lift_result; apply _
    | apply frames_get_subscription; apply _
    | apply frames_get_object; apply _
    | apply frames_get_time; apply _
    | apply frames_on_object; [apply _ | apply registry_frame_set_objects]
    | apply frames_update_subscription; by intros []
    | apply frames_new_subscription
    | apply frames_modify; intros ?; apply registry_frame_set_active
    | apply frames_modify; intros ?; apply registry_frame_set_responses ].

Ltac registry_frame_tac :=
  repeat first
    [ registry_frame_step
    | match goal with
      | |- frames _ (match ?x with _ => _ end) => destruct x
      | |- frames _ (if ?b then _ else _) => destruct b
      end ].

Lemma frames_install_task self delta :
  frames registry_frame (install_task self delta).
Proof. unfold install_task. registry_frame_tac. Qed.
#[local] Hint Resolve frames_install_task : registry_frames.

Lemma frames_suspend_task self : frames registry_frame (suspend_task self).
Proof. unfold suspend_task. registry_frame_tac. Qed.
#[local] Hint Resolve frames_suspend_task : registry_frames.

Lemma frames_SubscriptionList_append obj cov :
  frames registry_frame (SubscriptionList_append obj cov).
Proof. unfold SubscriptionList_append. registry_frame_tac. Qed.
#[local] Hint Resolve frames_SubscriptionList_append : registry_frames.

Lemma frames_SubscriptionList_remove obj cov :
  frames registry_frame (SubscriptionList_remove obj cov).
Proof. unfold SubscriptionList_remove. registry_frame_tac. Qed.
#[local] Hint Resolve frames_SubscriptionList_remove : registry_frames.

Lemma frames_find_loop covs client proc oid :
  frames registry_frame (find_loop covs client proc oid).
Proof.
  induction covs as [|cov rest IH]; simpl; [registry_frame_tac|].
  registry_frame_tac.
Qed.
#[local] Hint Resolve frames_find_loop : registry_frames.

Lemma frames_SubscriptionList_find obj client proc oid :
  frames registry_frame (SubscriptionList_find obj client proc oid).
Proof.
  unfold SubscriptionList_find. registry_frame_tac.
Qed.
#[local] Hint Resolve frames_SubscriptionList_find : registry_frames.

Lemma frames_Subscription_init obj client proc oid conf life :
  frames registry_frame (Subscription_init obj client proc oid conf life).
Proof.
  unfold Subscription_init. registry_frame_tac.
Qed.
#[local] Hint Resolve frames_Subscription_init : registry_frames.

Lemma frames_cancel_subscription self :
  frames registry_frame (cancel_subscription self).
Proof.
  unfold cancel_subscription. registry_frame_tac.
Qed.
#[local] Hint Resolve frames_cancel_subscription : registry_frames.

Lemma frames_renew_subscription self lifetime :
  frames registry_frame (renew_subscription self lifetime).
Proof.
  unfold renew_subscription. registry_frame_tac.
Qed.
#[local] Hint Resolve frames_renew_subscription : registry_frames.

Lemma frames_do_SubscribeCOVRequest apdu :
  frames registry_frame (do_SubscribeCOVRequest apdu).
Proof.
  unfold do_SubscribeCOVRequest, response. registry_frame_tac.
Qed.
#[local] Hint Resolve frames_do_SubscribeCOVRequest : registry_frames.

Lemma frames_read_loop current_time covs :
  frames registry_frame (read_loop current_time covs).
Proof.
  induction covs as [|cov rest IH]; simpl; [registry_frame_tac|].
  registry_frame_tac.
Qed.
#[local] Hint Resolve frames_read_loop : registry_frames.

Lemma frames_ReadProperty : frames registry_frame ReadProperty.
Proof. unfold ReadProperty. registry_frame_tac. Qed.
#[local] Hint Resolve frames_ReadProperty : registry_frames.

Lemma frames_expire cov :
  frames registry_frame (suspend_task cov ;;; process_task cov).
Proof.
  unfold process_task. registry_frame_tac.
Qed.
#[local] Hint Resolve frames_expire : registry_frames.

(** ** The queue of confirmed notifications *)

Lemma req_stable_confirmed_to w w' d x :
  req_stable w w' → confirmed_to w' d x ↔ confirmed_to w d x.
Proof.
  intros Hst. specialize (Hst x). unfold confirmed_to.
  destruct (requests w' !! x) as [q'|], (requests w !! x) as [q|];
    simpl in Hst; try discriminate; [|done].
  injection Hst as Hc Hd. by rewrite Hc, Hd.
Qed.

Lemma req_stable_is_Some w w' x :
  req_stable w w' → is_Some (requests w' !! x) ↔ is_Some (requests w !! x).
Proof.
  intros Hst. specialize (Hst x).
  destruct (requests w' !! x), (requests w !! x);
    simpl in Hst; try discriminate; split; intros [? ?]; try done; by eexists.
Qed.

Lemma req_stable_refl w w' : requests w' = requests w → req_stable w w'.
Proof. intros Heq x. by rewrite Heq. Qed.

Lemma confirmed_to_is_Some w d x :
  confirmed_to w d x → is_Some (requests w !! x).
Proof.
  unfold confirmed_to. destruct (requests w !! x); [by eexists|done].
Qed.

Lemma sent_to_app w w' d l :
  req_stable w w' → sent w' = sent w ++ l →
  sent_to w' d = sent_to w d ++ filter (confirmed_to w' d) l.
Proof.
  intros Hst Hs. unfold sent_to. rewrite Hs, filter_app. f_equal.
  apply list_filter_iff. intros x. by apply req_stable_confirmed_to.
Qed.

Lemma sent_to_same w w' d :
  req_stable w w' → sent w' = sent w → sent_to w' d = sent_to w d.
Proof.
  intros Hst Hs. unfold sent_to. rewrite Hs.
  apply list_filter_iff. intros x. by apply req_stable_confirmed_to.
Qed.

Lemma sent_to_elem w d x : x ∈ sent_to w d → x ∈ sent w ∧ confirmed_to w d x.
Proof. unfold sent_to. rewrite list_elem_of_filter. tauto. Qed.

(** What [request] of the superclass does. *)
Lemma super_request_sends r w :
  is_Some (requests w !! r) →
  ∃ w', super_request r w = (Ok tt, w') ∧ sends r w w'.
Proof.
  intros [q Hq]. unfold super_request, bind, get_request, get. rewrite Hq.
  destruct (req_class q) eqn:Hclass, (apduInvokeID q) eqn:Hid; simpl;
    eexists; (split; [reflexivity|]); unfold sends; simpl;
    repeat split; try (by apply req_stable_refl).
  intros x. simpl. destruct (decide (r = x)) as [->|Hne].
  - by rewrite lookup_insert_eq, Hq, <- Hclass.
  - by rewrite lookup_insert_ne.
Qed.

(** The references in the log and in the queue are below the next one. *)
Lemma queue_inv_sent_lt w x :
  queue_inv w → x ∈ sent w → (x < next_reqref w)%nat.
Proof. intros Hinv Hx. by apply (inv_reqrefs w Hinv), (inv_sent w Hinv). Qed.

Lemma queue_inv_entry_lt w d l x :
  queue_inv w → confirmed_notifications_queue w !! d = Some l → x ∈ l →
  (x.1 < next_reqref w)%nat.
Proof.
  intros Hinv Hl Hx. destruct x as [r c].
  destruct (inv_entries w Hinv d l r c Hl Hx) as [Hc _].
  by apply (inv_reqrefs w Hinv), (confirmed_to_is_Some w d).
Qed.

Lemma queue_inv_nonempty w d l :
  queue_inv w → confirmed_notifications_queue w !! d = Some l →
  ∃ r c rest, l = (r, c) :: rest ∧ r ∈ sent w ∧
              ∀ x, x ∈ rest → x.1 ∉ sent w.
Proof.
  intros Hinv Hl. pose proof (inv_flight w Hinv d) as Hf.
  unfold one_in_flight in Hf. by rewrite Hl in Hf.
Qed.

(** The methods of the registry keep the invariant of the queue. *)
Lemma queue_inv_registry_frame w w' :
  registry_frame w w' → queue_inv w → queue_inv w'.
Proof.
  intros [(Hq & Hr & Hn & Hs) Hsub] [Hf1 Hf2 Hf3 Hf4 Hf5 Hf6].
  destruct (Hsub Hf1) as [Hfresh Hstable].
  assert (Hst : req_stable w w') by by apply req_stable_refl.
  split.
  - exact Hfresh.
  - intros r. rewrite Hr, Hn. apply Hf2.
  - intros r. rewrite Hs, Hr. apply Hf3.
  - intros d l r c. rewrite Hq. intros Hl Hin.
    destruct (Hf4 d l r c Hl Hin) as [Hc (s & Hs' & Hd)]. split.
    + by apply (req_stable_confirmed_to w w').
    + destruct (Hstable c s Hs') as (s' & Hs'' & Hc'). exists s'.
      split; [done|congruence].
  - intros d. specialize (Hf5 d). unfold one_in_flight, transmitted in *.
    by rewrite Hq, Hs.
  - intros d. specialize (Hf6 d). unfold fifo, pending in *.
    by rewrite (sent_to_same w w' d Hst Hs), Hq.
Qed.

(** *** The cases of a step of the queue *)

Lemma list_filter_iff_in {A} (P Q : A → Prop)
    `{!∀ x, Decision (P x), !∀ x, Decision (Q x)} (l : list A) :
  (∀ x, x ∈ l → P x ↔ Q x) → filter P l = filter Q l.
Proof.
  induction l as [|a l IH]; intros Hiff; [done|].
  rewrite !filter_cons, IH.
  - destruct (decide (P a)) as [HP|HP], (decide (Q a)) as [HQ|HQ];
      try done; exfalso; [apply HQ|apply HP]; apply (Hiff a); try done;
      by left.
  - intros x Hx. apply Hiff. by right.
Qed.

Lemma tail_fmap_fst_elem (l : list (reqref * subref)) x :
  x ∈ tail (l.*1) → ∃ e, e ∈ l ∧ e.1 = x.
Proof.
  intros Hx. destruct l as [|e0 l]; simpl in Hx; [by apply elem_of_nil in Hx|].
  apply list_elem_of_fmap in Hx as (e & -> & He).
  exists e. split; [by right|done].
Qed.

(** A new request: the invariant holds on, and the request is the newest. *)
Lemma queue_inv_new_request w q :
  queue_inv w →
  queue_inv (snd (new_request q w)) ∧ newest (snd (new_request q w)) (next_reqref w).
Proof.
  intros Hinv. destruct Hinv as [Hf1 Hf2 Hf3 Hf4 Hf5 Hf6].
  assert (Hinv : queue_inv w) by by split.
  assert (Hold : ∀ x, is_Some (requests w !! x) →
                      <[next_reqref w:=q]> (requests w) !! x = requests w !! x).
  { intros x Hx. apply lookup_insert_ne. specialize (Hf2 x Hx). lia. }
  assert (Hsent : ∀ d, sent_to (snd (new_request q w)) d = sent_to w d).
  { intros d. unfold sent_to. simpl. apply list_filter_iff_in.
    intros x Hx. unfold confirmed_to. simpl. by rewrite (Hold x (Hf3 x Hx)). }
  split; [split|].
  - exact Hf1.
  - intros r. simpl. destruct (decide (next_reqref w = r)) as [<-|Hne]; [lia|].
    rewrite lookup_insert_ne by done. intros Hr. specialize (Hf2 r Hr). lia.
  - intros r Hr. simpl in *. rewrite Hold; by apply Hf3.
  - intros d l r c Hl Hin. simpl in *.
    destruct (Hf4 d l r c Hl Hin) as [Hc Hs]. split; [|exact Hs].
    unfold confirmed_to. simpl.
    rewrite Hold; [exact Hc|]. by apply (confirmed_to_is_Some w d).
  - exact Hf5.
  - intros d. unfold fifo. rewrite Hsent. apply Hf6.
  - split.
    + intros x Hx. simpl in Hx. by apply queue_inv_sent_lt.
    + intros d l x Hl Hx. simpl in Hl. by apply (queue_inv_entry_lt w d l).
Qed.

(** A request enters the list of a client that has one in flight. *)
Lemma queue_inv_enqueue w d l r c s :
  queue_inv w → newest w r →
  confirmed_notifications_queue w !! d = Some l →
  confirmed_to w d r →
  subscriptions w !! c = Some s → client_addr s = d →
  queue_inv (set_confirmed_notifications_queue (insert d (l ++ [(r, c)])) w).
Proof.
  intros Hinv [Hnew1 Hnew2] Hl Hconf Hs Hd.
  destruct (queue_inv_nonempty w d l Hinv Hl)
    as (h & ch & rest & Hleq & Hh & Hrest).
  destruct Hinv as [Hf1 Hf2 Hf3 Hf4 Hf5 Hf6].
  split.
  - exact Hf1.
  - exact Hf2.
  - exact Hf3.
  - intros d' l' r' c' Hl' Hin. simpl in Hl'.
    destruct (decide (d = d')) as [<-|Hne].
    + rewrite lookup_insert_eq in Hl'. injection Hl' as <-.
      apply elem_of_app in Hin as [Hin|Hin].
      * exact (Hf4 d _ r' c' Hl Hin).
      * apply list_elem_of_singleton in Hin. injection Hin as -> ->.
        split; [exact Hconf|]. by exists s.
    + rewrite lookup_insert_ne in Hl' by done. exact (Hf4 d' l' r' c' Hl' Hin).
  - intros d'. unfold one_in_flight, transmitted. simpl.
    destruct (decide (d = d')) as [<-|Hne].
    + rewrite lookup_insert_eq. exists h, ch, (rest ++ [(r, c)]).
      split; [by rewrite Hleq|]. split; [exact Hh|].
      intros x Hx. apply elem_of_app in Hx as [Hx|Hx]; [by apply Hrest|].
      apply list_elem_of_singleton in Hx. subst x. simpl.
      intros Hr. specialize (Hnew1 r Hr). lia.
    + rewrite lookup_insert_ne by done. apply Hf5.
  - intros d'. specialize (Hf6 d'). unfold fifo, pending, sent_to in *.
    simpl. destruct (decide (d = d')) as [<-|Hne].
    + rewrite lookup_insert_eq. rewrite Hl in Hf6.
      rewrite fmap_app.
      assert (Htail : tail (l.*1 ++ [(r, c)].*1) = tail (l.*1) ++ [r]).
      { by rewrite Hleq. }
      rewrite Htail, app_assoc.
      apply StronglySorted_app_2; [|exact Hf6|by repeat constructor].
      intros x1 x2 Hx1 Hx2. apply list_elem_of_singleton in Hx2. subst x2.
      apply elem_of_app in Hx1 as [Hx1|Hx1].
      * apply list_elem_of_filter in Hx1 as [_ Hx1]. by apply Hnew1.
      * apply tail_fmap_fst_elem in Hx1 as (e & He & <-).
        by apply (Hnew2 d _ e Hl).
    + by rewrite lookup_insert_ne.
Qed.

Lemma queue_step_subrefs w w' :
  queue_step w w' → subrefs_fresh w → subrefs_fresh w'.
Proof. intros (Hs & Hn & _) Hf c. rewrite Hs, Hn. apply Hf. Qed.

Lemma queue_step_reqrefs w w' :
  queue_step w w' → reqrefs_fresh w → reqrefs_fresh w'.
Proof.
  intros (_ & _ & Hn & Hst) Hf r. rewrite Hn.
  rewrite (req_stable_is_Some w w' r Hst). apply Hf.
Qed.

Lemma queue_step_sent_known w w' l :
  queue_step w w' → sent_known w → sent w' = sent w ++ l →
  (∀ r, r ∈ l → is_Some (requests w !! r)) → sent_known w'.
Proof.
  intros (_ & _ & _ & Hst) Hk Hs Hl r. rewrite Hs.
  rewrite (req_stable_is_Some w w' r Hst).
  intros [Hr|Hr]%elem_of_app; [by apply Hk|by apply Hl].
Qed.

Lemma queue_step_entries w w' d l r c :
  queue_step w w' → queue_entries w →
  confirmed_notifications_queue w !! d = Some l → (r, c) ∈ l →
  confirmed_to w' d r ∧
  ∃ s, subscriptions w' !! c = Some s ∧ client_addr s = d.
Proof.
  intros (Hs & _ & _ & Hst) He Hl Hin.
  destruct (He d l r c Hl Hin) as [Hc Hsub]. split.
  - by apply (req_stable_confirmed_to w w').
  - by rewrite Hs.
Qed.

(** An unconfirmed notification is transmitted. *)
Lemma queue_inv_send_unconfirmed w w' r :
  queue_inv w → newest w r → queue_step w w' →
  sent w' = sent w ++ [r] →
  confirmed_notifications_queue w' = confirmed_notifications_queue w →
  is_Some (requests w !! r) → (∀ d, ¬ confirmed_to w d r) →
  queue_inv w'.
Proof.
  intros Hinv [Hnew1 Hnew2] Hstep Hs Hq Hr Hun.
  pose proof Hstep as (_ & _ & _ & Hst).
  destruct Hinv as [Hf1 Hf2 Hf3 Hf4 Hf5 Hf6]. split.
  - by apply (queue_step_subrefs w).
  - by apply (queue_step_reqrefs w).
  - apply (queue_step_sent_known w w' [r]); try done.
    by intros x ->%list_elem_of_singleton.
  - intros d l x c. rewrite Hq. by apply queue_step_entries.
  - intros d. specialize (Hf5 d). unfold one_in_flight, transmitted in *.
    rewrite Hq, Hs. destruct (confirmed_notifications_queue w !! d) as [l|] eqn:Hl;
      [|done].
    destruct Hf5 as (h & ch & rest & -> & Hh & Hrest).
    exists h, ch, rest. split; [done|]. split; [apply elem_of_app; by left|].
    intros x Hx [Hin|Hin%list_elem_of_singleton]%elem_of_app.
    + by apply (Hrest x).
    + assert (x.1 < r)%nat; [|lia].
      apply (Hnew2 d _ x Hl). by right.
  - intros d. specialize (Hf6 d). unfold fifo, pending in *.
    rewrite Hq, (sent_to_app w w' d [r] Hst Hs).
    rewrite filter_cons_False, filter_nil, app_nil_r; [exact Hf6|].
    rewrite (req_stable_confirmed_to w w' d r Hst). apply Hun.
Qed.

(** The first notification of a client is entered and transmitted. *)
Lemma queue_inv_send_first w w' d r c s :
  queue_inv w → newest w r → queue_step w w' →
  sent w' = sent w ++ [r] →
  confirmed_notifications_queue w !! d = None →
  confirmed_notifications_queue w' !! d = Some [(r, c)] →
  (∀ d', d' ≠ d → confirmed_notifications_queue w' !! d'
                  = confirmed_notifications_queue w !! d') →
  confirmed_to w d r →
  subscriptions w !! c = Some s → client_addr s = d →
  queue_inv w'.
Proof.
  intros Hinv [Hnew1 Hnew2] Hstep Hs Hnone Hq Hother Hconf Hsub Hd.
  pose proof Hstep as (Hsubs & _ & _ & Hst).
  destruct Hinv as [Hf1 Hf2 Hf3 Hf4 Hf5 Hf6]. split.
  - by apply (queue_step_subrefs w).
  - by apply (queue_step_reqrefs w).
  - apply (queue_step_sent_known w w' [r]); try done.
    intros x ->%list_elem_of_singleton. by apply (confirmed_to_is_Some w d).
  - intros d' l x c' Hl Hin. destruct (decide (d' = d)) as [->|Hne].
    + rewrite Hq in Hl. injection Hl as <-.
      apply list_elem_of_singleton in Hin. injection Hin as -> ->. split.
      * by apply (req_stable_confirmed_to w w').
      * exists s. by rewrite Hsubs.
    + rewrite (Hother d' Hne) in Hl. by apply (queue_step_entries w w' d' l).
  - intros d'. unfold one_in_flight, transmitted.
    destruct (decide (d' = d)) as [->|Hne].
    + rewrite Hq. exists r, c, []. split; [done|]. split.
      * rewrite Hs. apply elem_of_app. right. by left.
      * intros x Hx. by apply elem_of_nil in Hx.
    + specialize (Hf5 d'). unfold one_in_flight, transmitted in Hf5.
      rewrite (Hother d' Hne), Hs.
      destruct (confirmed_notifications_queue w !! d') as [l|] eqn:Hl; [|done].
      destruct Hf5 as (h & ch & rest & -> & Hh & Hrest).
      exists h, ch, rest. split; [done|]. split; [apply elem_of_app; by left|].
      intros x Hx [Hin|Hin%list_elem_of_singleton]%elem_of_app.
      * by apply (Hrest x).
      * assert (x.1 < r)%nat; [|lia].
        apply (Hnew2 d' _ x Hl). by right.
  - intros d'. specialize (Hf6 d'). unfold fifo, pending in *.
    rewrite (sent_to_app w w' d' [r] Hst Hs).
    destruct (decide (d' = d)) as [->|Hne].
    + rewrite Hq. rewrite Hnone in Hf6. simpl in *.
      rewrite filter_cons_True, filter_nil
        by by apply (req_stable_confirmed_to w w').
      rewrite app_nil_r in *.
      apply StronglySorted_app_2; [|exact Hf6|by repeat constructor].
      intros x1 x2 Hx1 ->%list_elem_of_singleton.
      apply sent_to_elem in Hx1 as [Hx1 _]. by apply Hnew1.
    + rewrite (Hother d' Hne).
      rewrite filter_cons_False, filter_nil, app_nil_r; [exact Hf6|].
      rewrite (req_stable_confirmed_to w w' d' r Hst).
      unfold confirmed_to in *. destruct (requests w !! r); [|done].
      intros [_ Hd']. destruct Hconf as [_ Hd'']. congruence.
Qed.

(** The head is taken off and the next notification is transmitted. *)
Lemma queue_inv_pop_send w w' d h ch r2 c2 rest :
  queue_inv w → queue_step w w' →
  confirmed_notifications_queue w !! d = Some ((h, ch) :: (r2, c2) :: rest) →
  sent w' = sent w ++ [r2] →
  confirmed_notifications_queue w' !! d = Some ((r2, c2) :: rest) →
  (∀ d', d' ≠ d → confirmed_notifications_queue w' !! d'
                  = confirmed_notifications_queue w !! d') →
  queue_inv w'.
Proof.
  intros Hinv Hstep Hl Hs Hq Hother.
  pose proof Hstep as (Hsubs & _ & _ & Hst).
  destruct (inv_entries w Hinv d _ r2 c2 Hl) as [Hconf2 _];
    [right; by left|].
  pose proof (inv_fifo w Hinv d) as Hfifo. unfold fifo, pending in Hfifo.
  rewrite Hl in Hfifo. simpl in Hfifo.
  destruct Hinv as [Hf1 Hf2 Hf3 Hf4 Hf5 Hf6]. split.
  - by apply (queue_step_subrefs w).
  - by apply (queue_step_reqrefs w).
  - apply (queue_step_sent_known w w' [r2]); try done.
    intros x ->%list_elem_of_singleton. by apply (confirmed_to_is_Some w d).
  - intros d' l x c' Hl' Hin. destruct (decide (d' = d)) as [->|Hne].
    + rewrite Hq in Hl'. injection Hl' as <-.
      apply (queue_step_entries w w' d _ x c' Hstep Hf4 Hl). by right.
    + rewrite (Hother d' Hne) in Hl'.
      by apply (queue_step_entries w w' d' l).
  - intros d'. unfold one_in_flight, transmitted.
    destruct (decide (d' = d)) as [->|Hne].
    + rewrite Hq. exists r2, c2, rest. split; [done|]. split.
      * rewrite Hs. apply elem_of_app. right. by left.
      * specialize (Hf5 d). unfold one_in_flight, transmitted in Hf5.
        rewrite Hl in Hf5.
        destruct Hf5 as (h' & ch' & rest' & Heq & Hh & Hrest).
        injection Heq as <- <- <-.
        intros x Hx. rewrite Hs.
        intros [Hin|Hin%list_elem_of_singleton]%elem_of_app.
        -- apply (Hrest x); [by right|done].
        -- apply StronglySorted_app_1_r in Hfifo.
           apply StronglySorted_cons in Hfifo as [Hall _].
           rewrite Forall_forall in Hall.
           assert (r2 < x.1)%nat; [|lia].
           apply Hall. apply list_elem_of_fmap. by exists x.
    + specialize (Hf5 d'). unfold one_in_flight, transmitted in Hf5.
      rewrite (Hother d' Hne), Hs.
      destruct (confirmed_notifications_queue w !! d') as [l|] eqn:Hl';
        [|done].
      destruct Hf5 as (h' & ch' & rest' & -> & Hh & Hrest).
      exists h', ch', rest'. split; [done|].
      split; [apply elem_of_app; by left|].
      intros x Hx [Hin|Hin%list_elem_of_singleton]%elem_of_app.
      * by apply (Hrest x).
      * destruct x as [x cx]. simpl in Hin. subst x.
        destruct (Hf4 d' _ r2 cx Hl') as [Hconf' _]; [by right|].
        unfold confirmed_to in *. destruct (requests w !! r2); [|done].
        destruct Hconf' as [_ Hd']. destruct Hconf2 as [_ Hd'']. congruence.
  - intros d'. unfold fifo, pending.
    rewrite (sent_to_app w w' d' [r2] Hst Hs).
    destruct (decide (d' = d)) as [->|Hne].
    + rewrite Hq. simpl.
      rewrite filter_cons_True, filter_nil
        by by apply (req_stable_confirmed_to w w').
      by rewrite <- app_assoc.
    + specialize (Hf6 d'). unfold fifo, pending in Hf6.
      rewrite (Hother d' Hne).
      rewrite filter_cons_False, filter_nil, app_nil_r; [exact Hf6|].
      rewrite (req_stable_confirmed_to w w' d' r2 Hst).
      unfold confirmed_to in *. destruct (requests w !! r2); [|done].
      intros [_ Hd']. destruct Hconf2 as [_ Hd'']. congruence.
Qed.

(** The list of a client is released. *)
Lemma queue_inv_release w w' d :
  queue_inv w → queue_step w w' →
  sent w' = sent w →
  confirmed_notifications_queue w' !! d = None →
  (∀ d', d' ≠ d → confirmed_notifications_queue w' !! d'
                  = confirmed_notifications_queue w !! d') →
  queue_inv w'.
Proof.
  intros Hinv Hstep Hs Hq Hother.
  pose proof Hstep as (Hsubs & _ & _ & Hst).
  destruct Hinv as [Hf1 Hf2 Hf3 Hf4 Hf5 Hf6]. split.
  - by apply (queue_step_subrefs w).
  - by apply (queue_step_reqrefs w).
  - apply (queue_step_sent_known w w' []); try done.
    + by rewrite app_nil_r.
    + intros x Hx. by apply elem_of_nil in Hx.
  - intros d' l x c' Hl' Hin. destruct (decide (d' = d)) as [->|Hne].
    + by rewrite Hq in Hl'.
    + rewrite (Hother d' Hne) in Hl'.
      by apply (queue_step_entries w w' d' l).
  - intros d'. unfold one_in_flight, transmitted.
    destruct (decide (d' = d)) as [->|Hne]; [by rewrite Hq|].
    specialize (Hf5 d'). unfold one_in_flight, transmitted in Hf5.
    by rewrite (Hother d' Hne), Hs.
  - intros d'. specialize (Hf6 d'). unfold fifo, pending in *.
    rewrite (sent_to_same w w' d' Hst Hs).
    destruct (decide (d' = d)) as [->|Hne].
    + rewrite Hq. simpl. rewrite app_nil_r.
      by apply StronglySorted_app_1_l in Hf6.
    + by rewrite (Hother d' Hne).
Qed.

(** *** The runs of [confirmation] *)

(** A response that is not ours: no list for its source, or an invoke id
    other than the one of the head. *)
Lemma confirmation_unmatched (apdu : APDU) (w : World) :
  (confirmed_notifications_queue w !! pduSource apdu = None ∨
   ∃ request cov rest r,
     confirmed_notifications_queue w !! pduSource apdu
       = Some ((request, cov) :: rest) ∧
     requests w !! request = Some r ∧
     apdu_apduInvokeID apdu ≠ apduInvokeID r) →
  confirmation apdu w
  = (Ok tt, set_passed_up (λ l, l ++ [apdu]) w).
Proof.
  intros [Hnone|(request & cov & rest & r & Hq & Hr & Hid)];
    unfold confirmation, bind, get; simpl.
  - by rewrite Hnone.
  - rewrite Hq. unfold get_request. rewrite Hr.
    by rewrite bool_decide_eq_false_2.
Qed.

(** A matched response other than an abort, with more behind the head. *)
Lemma confirmation_matched_next (apdu : APDU) (w : World)
    request cov request' cov' rest r :
  confirmed_notifications_queue w !! pduSource apdu
    = Some ((request, cov) :: (request', cov') :: rest) →
  requests w !! request = Some r →
  apdu_apduInvokeID apdu = apduInvokeID r →
  apdu_class_of apdu ≠ AbortPDU →
  confirmation apdu w
  = super_request request' (popped apdu ((request', cov') :: rest) w).
Proof.
  intros Hq Hr Hid Hclass. unfold confirmation, bind, get; simpl.
  rewrite Hq. unfold get_request. rewrite Hr.
  rewrite bool_decide_eq_true_2 by done. unfold modify. simpl.
  destruct (apdu_class_of apdu); try done;
    unfold cov_error, cov_reject, ret, queue_getitem; simpl;
    by rewrite lookup_insert_eq.
Qed.

(** A matched response other than an abort, with nothing behind the
    head. *)
Lemma confirmation_matched_last (apdu : APDU) (w : World) request cov r :
  confirmed_notifications_queue w !! pduSource apdu
    = Some [(request, cov)] →
  requests w !! request = Some r →
  apdu_apduInvokeID apdu = apduInvokeID r →
  apdu_class_of apdu ≠ AbortPDU →
  confirmation apdu w
  = (Ok tt, set_confirmed_notifications_queue (delete (pduSource apdu)) w).
Proof.
  intros Hq Hr Hid Hclass. unfold confirmation, bind, get; simpl.
  rewrite Hq. unfold get_request. rewrite Hr.
  rewrite bool_decide_eq_true_2 by done. unfold modify. simpl.
  destruct (apdu_class_of apdu); try done;
    unfold cov_error, cov_reject, ret, queue_getitem; simpl;
    rewrite lookup_insert_eq; unfold set_confirmed_notifications_queue;
    simpl; by rewrite delete_insert_eq.
Qed.

(** A matched abort, for a head whose subscription is of the client the
    abort comes from. *)
Lemma confirmation_matched_abort (apdu : APDU) (w : World)
    request cov rest r s :
  confirmed_notifications_queue w !! pduSource apdu
    = Some ((request, cov) :: rest) →
  requests w !! request = Some r →
  apdu_apduInvokeID apdu = apduInvokeID r →
  apdu_class_of apdu = AbortPDU →
  subscriptions w !! cov = Some s → client_addr s = pduSource apdu →
  confirmation apdu w
  = (Ok tt, set_confirmed_notifications_queue (delete (pduSource apdu)) w).
Proof.
  intros Hq Hr Hid Hclass Hs Hd. unfold confirmation, bind, get; simpl.
  rewrite Hq. unfold get_request. rewrite Hr.
  rewrite bool_decide_eq_true_2 by done. unfold modify. simpl.
  rewrite Hclass. unfold cov_abort, bind, get_subscription. simpl.
  rewrite Hs, Hd. unfold queue_getitem, modify. simpl.
  rewrite lookup_insert_eq. simpl. rewrite lookup_insert_eq.
  unfold set_confirmed_notifications_queue. simpl.
  by rewrite !delete_insert_eq.
Qed.

(** *** The invariant is kept *)

Lemma registry_frame_set_passed_up w f : registry_frame w (set_passed_up f w).
Proof.
  split; [by repeat split|]. intros Hf. split; [exact Hf|].
  intros c s Hs. by exists s.
Qed.

Lemma queue_step_popped_sends apdu rest r w w' :
  sends r (popped apdu rest w) w' → queue_step w w'.
Proof.
  intros (_ & _ & Hsubs & Hn1 & Hn2 & Hst). by repeat split.
Qed.

Lemma preserves_confirmation apdu : preserves queue_inv (confirmation apdu).
Proof.
  intros w Hinv.
  destruct (confirmed_notifications_queue w !! pduSource apdu) as [l|] eqn:Hq.
  2:{ rewrite confirmation_unmatched by by left.
      eapply queue_inv_registry_frame; [|exact Hinv].
      apply registry_frame_set_passed_up. }
  destruct (queue_inv_nonempty w _ l Hinv Hq)
    as (h & ch & rest & -> & Hh & Hrest).
  destruct (inv_entries w Hinv _ _ h ch Hq) as [Hconf (s & Hs & Hd)];
    [by left|].
  destruct (confirmed_to_is_Some w _ h Hconf) as [r Hr].
  destruct (decide (apdu_apduInvokeID apdu = apduInvokeID r)) as [Hid|Hid].
  2:{ rewrite confirmation_unmatched.
      - eapply queue_inv_registry_frame; [|exact Hinv].
        apply registry_frame_set_passed_up.
      - right. by exists h, ch, rest, r. }
  assert (Hrelease : queue_inv
            (set_confirmed_notifications_queue (delete (pduSource apdu)) w)).
  { apply (queue_inv_release w _ (pduSource apdu) Hinv).
    - by repeat split.
    - reflexivity.
    - simpl. apply lookup_delete_eq.
    - intros d' Hne. simpl. by apply lookup_delete_ne. }
  destruct (decide (apdu_class_of apdu = AbortPDU)) as [Hclass|Hclass].
  { by rewrite (confirmation_matched_abort apdu w h ch rest r s). }
  destruct rest as [|[r2 c2] rest].
  { by rewrite (confirmation_matched_last apdu w h ch r). }
  rewrite (confirmation_matched_next apdu w h ch r2 c2 rest r) by done.
  destruct (inv_entries w Hinv _ _ r2 c2 Hq) as [Hconf2 _];
    [right; by left|].
  destruct (super_request_sends r2 (popped apdu ((r2, c2) :: rest) w))
    as (w' & Hrun & Hsends).
  { simpl. by apply (confirmed_to_is_Some w (pduSource apdu)). }
  rewrite Hrun. simpl.
  apply (queue_inv_pop_send w w' (pduSource apdu) h ch r2 c2 rest);
    try done.
  - by apply (queue_step_popped_sends apdu ((r2, c2) :: rest) r2).
  - by destruct Hsends as (-> & _).
  - destruct Hsends as (_ & -> & _). simpl. apply lookup_insert_eq.
  - intros d' Hne. destruct Hsends as (_ & -> & _). simpl.
    by apply lookup_insert_ne.
Qed.

Lemma preserves_notify_subscription current_time list_of_values cov :
  preserves queue_inv (notify_subscription current_time list_of_values cov).
Proof.
  intros w Hinv. unfold notify_subscription, bind, get_subscription.
  destruct (subscriptions w !! cov) as [c|] eqn:Hc; [|exact Hinv].
  unfold lift_result.
  destruct (time_remaining c current_time) as [tr|e]; [|exact Hinv].
  simpl.
  set (q := mkRequest _ _ _ _ _ _ _ _).
  destruct (queue_inv_new_request w q Hinv) as [Hinv1 Hnew].
  set (r := next_reqref w) in *.
  set (w1 := set_next_reqref (S r) (set_requests (insert r q) w)) in *.
  simpl in Hinv1, Hnew. fold w1 in Hinv1, Hnew.
  assert (Hr : requests w1 !! r = Some q) by apply lookup_insert_eq.
  unfold cov_notification, bind, get_subscription. simpl. rewrite Hc.
  destruct (truthy_confirmed (confirmed c)) eqn:Hconf.
  - assert (Hto : confirmed_to w1 (client_addr c) r).
    { unfold confirmed_to. by rewrite Hr. }
    unfold queue_getitem. simpl.
    destruct (confirmed_notifications_queue w !! client_addr c) as [l|] eqn:Hq.
    + destruct (queue_inv_nonempty w1 _ l Hinv1 Hq)
        as (h & ch & rest & -> & _ & _).
      unfold modify. simpl.
      assert (Hlen : (1 <? length (rest ++ [(r, cov)]) + 1)%nat = true).
      { apply Nat.ltb_lt. rewrite length_app. simpl. lia. }
      replace (S (length (rest ++ [(r, cov)])))
        with (length (rest ++ [(r, cov)]) + 1)%nat by lia.
      rewrite Hlen. simpl.
      by apply (queue_inv_enqueue w1 (client_addr c) ((h, ch) :: rest) r cov c).
    + unfold modify. simpl.
      match goal with
      | |- queue_inv (snd (super_request r ?w3)) =>
          destruct (super_request_sends r w3) as (w' & Hrun & Hsends);
            [by eexists|]
      end.
      rewrite Hrun. simpl.
      destruct Hsends as (Hs & Hq' & Hsub & Hn1 & Hn2 & Hst).
      apply (queue_inv_send_first w1 w' (client_addr c) r cov c); try done.
      * rewrite Hq'. simpl. apply lookup_insert_eq.
      * intros d' Hne. rewrite Hq'. simpl.
        by rewrite !lookup_insert_ne.
  - destruct (super_request_sends r w1) as (w' & Hrun & Hsends);
      [by eexists|].
    rewrite Hrun. simpl.
    destruct Hsends as (Hs & Hq' & Hsub & Hn1 & Hn2 & Hst).
    apply (queue_inv_send_unconfirmed w1 w' r Hinv1 Hnew).
    + by repeat split.
    + exact Hs.
    + exact Hq'.
    + by eexists.
    + intros d. unfold confirmed_to. rewrite Hr. by intros [? _].
Qed.

Lemma preserves_registry {A} (m : M World A) :
  frames registry_frame m → preserves queue_inv m.
Proof.
  apply preserves_frames. intros w w' Hf Hinv.
  by apply (queue_inv_registry_frame w w').
Qed.

Lemma preserves_notify_loop current_time list_of_values covs :
  preserves queue_inv (notify_loop current_time list_of_values covs).
Proof.
  induction covs as [|cov rest IH]; simpl.
  - apply preserves_registry. registry_frame_tac.
  - apply preserves_bind; [apply preserves_notify_subscription|].
    intros _. exact IH.
Qed.

Lemma preserves_send_cov_notifications self :
  preserves queue_inv (_send_cov_notifications self).
Proof.
  unfold _send_cov_notifications.
  apply preserves_bind; [apply preserves_registry; registry_frame_tac|].
  intros o. destruct (_ =? _)%nat.
  { apply preserves_registry. registry_frame_tac. }
  apply preserves_bind; [apply preserves_registry; registry_frame_tac|].
  intros current_time.
  apply preserves_bind; [apply preserves_registry; registry_frame_tac|].
  intros list_of_values. apply preserves_notify_loop.
Qed.

Lemma preserves_WriteProperty self propid v :
  preserves queue_inv (WriteProperty self propid v).
Proof.
  unfold WriteProperty.
  apply preserves_bind; [apply preserves_registry; registry_frame_tac|].
  intros _.
  apply preserves_bind; [apply preserves_registry; registry_frame_tac|].
  intros o. destruct (bool_decide _).
  2:{ apply preserves_registry. registry_frame_tac. }
  apply preserves_bind; [apply preserves_registry; registry_frame_tac|].
  intros [|]; [apply preserves_send_cov_notifications|].
  apply preserves_registry. registry_frame_tac.
Qed.

Lemma queue_inv_run_event e w : queue_inv w → queue_inv (run_event e w).
Proof.
  intros Hinv. destruct e as [apdu|obj propid v|obj|apdu|t|cov|]; simpl.
  - by apply (preserves_registry _ (frames_do_SubscribeCOVRequest apdu)).
  - by apply preserves_WriteProperty.
  - by apply preserves_send_cov_notifications.
  - by apply preserves_confirmation.
  - destruct (Qle_bool (now w) t); [|exact Hinv].
    eapply queue_inv_registry_frame; [|exact Hinv].
    apply registry_frame_set_now.
  - destruct (due w cov); [|exact Hinv].
    by apply (preserves_registry _ (frames_expire cov)).
  - by apply (preserves_registry _ frames_ReadProperty).
Qed.

Lemma queue_inv_initial w : initial w → queue_inv w.
Proof.
  intros (Hsubs & Hact & Hq & Hreq & Hsent & Hobj). split.
  - intros c. rewrite Hsubs, lookup_empty. by intros [? ?].
  - intros r. rewrite Hreq, lookup_empty. by intros [? ?].
  - intros r. rewrite Hsent. by intros ?%elem_of_nil.
  - intros d l r c. by rewrite Hq, lookup_empty.
  - intros d. unfold one_in_flight. by rewrite Hq, lookup_empty.
  - intros d. unfold fifo, pending, sent_to.
    rewrite Hq, lookup_empty, Hsent. simpl. constructor.
Qed.

Lemma reachable_queue_inv w : reachable w → queue_inv w.
Proof.
  induction 1 as [w Hinit|e w _ IH].
  - by apply queue_inv_initial.
  - by apply queue_inv_run_event.
Qed.

(** *** The runs of a notification for a confirmed subscription *)

(** The client has a list in the queue: the new request goes to its end and
    nothing is transmitted. *)
Lemma notify_subscription_enqueues (w : World) current_time list_of_values
    (cov : subref) (c : Subscription) (tr : Z) h rest :
  subscriptions w !! cov = Some c →
  truthy_confirmed (confirmed c) = true →
  time_remaining c current_time = Ok tr →
  confirmed_notifications_queue w !! client_addr c = Some (h :: rest) →
  fst (notify_subscription current_time list_of_values cov w) = Ok tt ∧
  confirmed_notifications_queue
    (snd (notify_subscription current_time list_of_values cov w))
    !! client_addr c = Some ((h :: rest) ++ [(next_reqref w, cov)]) ∧
  sent (snd (notify_subscription current_time list_of_values cov w))
    = sent w.
Proof.
  intros Hc Hconf Htr Hq.
  unfold notify_subscription, bind, get_subscription, lift_result.
  rewrite Hc, Htr. simpl.
  unfold cov_notification, bind, get_subscription. simpl.
  rewrite Hc, Hconf. unfold queue_getitem. simpl. rewrite Hq.
  unfold modify. simpl.
  assert (Hlen : (1 <? S (length (rest ++ [(next_reqref w, cov)])))%nat
                 = true).
  { apply Nat.ltb_lt. rewrite length_app. simpl. lia. }
  rewrite Hlen. simpl. split; [done|]. split; [|done].
  apply lookup_insert_eq.
Qed.

(** The client has no list in the queue: the new request is the head of a
    new list and is transmitted. *)
Lemma notify_subscription_first (w : World) current_time list_of_values
    (cov : subref) (c : Subscription) (tr : Z) :
  subscriptions w !! cov = Some c →
  truthy_confirmed (confirmed c) = true →
  time_remaining c current_time = Ok tr →
  confirmed_notifications_queue w !! client_addr c = None →
  fst (notify_subscription current_time list_of_values cov w) = Ok tt ∧
  confirmed_notifications_queue
    (snd (notify_subscription current_time list_of_values cov w))
    !! client_addr c = Some [(next_reqref w, cov)] ∧
  sent (snd (notify_subscription current_time list_of_values cov w))
    = sent w ++ [next_reqref w].
Proof.
  intros Hc Hconf Htr Hq.
  unfold notify_subscription, bind, get_subscription, lift_result.
  rewrite Hc, Htr. simpl.
  unfold cov_notification, bind, get_subscription. simpl.
  rewrite Hc, Hconf. unfold queue_getitem. simpl. rewrite Hq.
  unfold modify. simpl.
  match goal with
  | |- context [super_request ?r ?w3] =>
      destruct (super_request_sends r w3) as (w' & Hrun & Hs & Hq' & _);
        [simpl; rewrite lookup_insert_eq; by eexists|]
  end.
  rewrite Hrun. simpl. split; [done|]. split; [|exact Hs].
  rewrite Hq'. simpl. apply lookup_insert_eq.
Qed.

(** ** The claims on the queue *)

Lemma reachable_run_events es w : reachable w → reachable (run_events es w).
Proof.
  revert w. induction es as [|e es IH]; intros w Hw; [exact Hw|].
  simpl. apply IH. by constructor.
Qed.

Lemma initial_device : initial device.
Proof.
  repeat split.
  apply (bool_decide_unpack _). by vm_compute.
Qed.

Lemma reachable_two_pending : reachable two_pending.
Proof. apply reachable_run_events. constructor. exact initial_device. Qed.

Lemma one_in_flight_awaiting w d :
  one_in_flight w d → (length (awaiting w d) ≤ 1)%nat.
Proof.
  unfold one_in_flight, awaiting, pending.
  destruct (confirmed_notifications_queue w !! d) as [l|]; [|simpl; lia].
  intros (r & c & rest & -> & Hr & Hrest). rewrite fmap_cons.
  rewrite filter_cons_True by done.
  assert (Hnil : filter (transmitted w) rest.*1 = []).
  { clear Hr. induction rest as [|x rest IH]; [done|]. rewrite fmap_cons.
    rewrite filter_cons_False.
    - apply IH. intros y Hy. apply Hrest. by right.
    - apply Hrest. by left. }
  rewrite Hnil. simpl. lia.
Qed.

(** C1. In every reachable state and for every client: the list of the
    client in the queue, when there is one, has a head that has been
    transmitted and nothing behind the head has been, so at most one pending
    request awaits its acknowledgement; what has been transmitted to the
    client, followed by what waits behind the head, is in the order of
    enqueueing. A notification for a confirmed subscription of the client
    goes to the end of the list and is not transmitted, or, when the client
    has no list, becomes the head of a new list and is transmitted. A matched
    response other than an abort takes the head off: with more behind the
    head it transmits the new head, and with nothing behind the head it
    deletes the list of the client and transmits nothing, so that the next
    notification for the client is transmitted at once. *)
Theorem queue_one_in_flight_fifo (w : World) (d : addr) :
  reachable w →
  one_in_flight w d ∧
  (length (awaiting w d) ≤ 1)%nat ∧
  fifo w d ∧
  (∀ current_time list_of_values cov c tr,
     subscriptions w !! cov = Some c →
     client_addr c = d →
     truthy_confirmed (confirmed c) = true →
     time_remaining c current_time = Ok tr →
     let w' := snd (notify_subscription current_time list_of_values cov w) in
     match confirmed_notifications_queue w !! d with
     | Some l =>
         confirmed_notifications_queue w' !! d
           = Some (l ++ [(next_reqref w, cov)]) ∧
         sent w' = sent w
     | None =>
         confirmed_notifications_queue w' !! d
           = Some [(next_reqref w, cov)] ∧
         sent w' = sent w ++ [next_reqref w]
     end) ∧
  (∀ apdu request cov request' cov' rest r,
     pduSource apdu = d →
     confirmed_notifications_queue w !! d
       = Some ((request, cov) :: (request', cov') :: rest) →
     requests w !! request = Some r →
     apdu_apduInvokeID apdu = apduInvokeID r →
     apdu_class_of apdu ≠ AbortPDU →
     fst (confirmation apdu w) = Ok tt ∧
     confirmed_notifications_queue (snd (confirmation apdu w)) !! d
       = Some ((request', cov') :: rest) ∧
     sent (snd (confirmation apdu w)) = sent w ++ [request']) ∧
  ∀ apdu request cov r,
    pduSource apdu = d →
    confirmed_notifications_queue w !! d = Some [(request, cov)] →
    requests w !! request = Some r →
    apdu_apduInvokeID apdu = apduInvokeID r →
    apdu_class_of apdu ≠ AbortPDU →
    confirmation apdu w
    = (Ok tt, set_confirmed_notifications_queue (delete d) w) ∧
    confirmed_notifications_queue (snd (confirmation apdu w)) !! d = None ∧
    sent (snd (confirmation apdu w)) = sent w.
Proof.
  intros Hreach. pose proof (reachable_queue_inv w Hreach) as Hinv.
  split; [apply (inv_flight w Hinv)|].
  split; [apply one_in_flight_awaiting, (inv_flight w Hinv)|].
  split; [apply (inv_fifo w Hinv)|].
  split.
  { intros current_time list_of_values cov c tr Hc <- Hconf Htr. simpl.
    destruct (confirmed_notifications_queue w !! client_addr c) as [l|] eqn:Hq.
    - destruct (queue_inv_nonempty w _ l Hinv Hq)
        as (h & ch & rest & -> & _ & _).
      by destruct (notify_subscription_enqueues w current_time list_of_values
                     cov c tr (h, ch) rest Hc Hconf Htr Hq) as (_ & ? & ?).
    - by destruct (notify_subscription_first w current_time list_of_values
                     cov c tr Hc Hconf Htr Hq) as (_ & ? & ?). }
  split.
  { intros apdu request cov request' cov' rest r <- Hq Hr Hid Hclass.
    rewrite (confirmation_matched_next apdu w request cov request' cov' rest r)
      by done.
    destruct (inv_entries w Hinv _ _ request' cov' Hq) as [Hconf _];
      [right; by left|].
    destruct (super_request_sends request'
                (popped apdu ((request', cov') :: rest) w))
      as (w' & Hrun & Hs & Hq' & _).
    { simpl. by apply (confirmed_to_is_Some w (pduSource apdu)). }
    rewrite Hrun. simpl. split; [done|]. split.
    - rewrite Hq'. simpl. apply lookup_insert_eq.
    - exact Hs. }
  intros apdu request cov r <- Hq Hr Hid Hclass.
  rewrite (confirmation_matched_last apdu w request cov r) by done.
  split; [done|]. simpl. split; [apply lookup_delete_eq|done].
Qed.

Lemma queue_one_in_flight_fifo_witness :
  one_in_flight two_pending client ∧
  (length (awaiting two_pending client) ≤ 1)%nat ∧
  fifo two_pending client ∧
  confirmation (mkAPDU SimpleAckPDU client (Some 0))
    (run_event (EvWrite bv1 "presentValue" (VStr "active")) subscribed)
  = (Ok tt,
     set_confirmed_notifications_queue (delete client)
       (run_event (EvWrite bv1 "presentValue" (VStr "active")) subscribed)).
Proof.
  destruct (queue_one_in_flight_fifo two_pending client reachable_two_pending)
    as (H1 & H2 & H3 & _).
  split; [exact H1|]. split; [exact H2|]. split; [exact H3|].
  destruct (queue_one_in_flight_fifo
              (run_event (EvWrite bv1 "presentValue" (VStr "active"))
                 subscribed) client)
    as (_ & _ & _ & _ & _ & Hlast).
  { apply reachable_step, (reachable_step _ device), reachable_initial,
      initial_device. }
  apply (Hlast (mkAPDU SimpleAckPDU client (Some 0)) 0%nat 0%nat
           (mkRequest ConfirmedCOVNotificationRequest client 1
              ("device"%string, 599) bv1 0
              [("presentValue"%string, VStr "active");
               ("statusFlags"%string,
                VList [VNum 0; VNum 0; VNum 0; VNum 0])]
              (Some 0))).
  - reflexivity.
  - by vm_compute.
  - by vm_compute.
  - reflexivity.
  - done.
Defined.

(** C8. In a reachable state, an abort that matches the head of the list of
    its source: [confirmation] returns, the list of the source is released
    from the queue, nothing is transmitted, and no request that was behind
    the head has been transmitted. *)
Theorem abort_drops_pending (w : World) (apdu : APDU)
    request cov rest r :
  reachable w →
  confirmed_notifications_queue w !! pduSource apdu
    = Some ((request, cov) :: rest) →
  requests w !! request = Some r →
  apdu_apduInvokeID apdu = apduInvokeID r →
  apdu_class_of apdu = AbortPDU →
  confirmation apdu w
    = (Ok tt, set_confirmed_notifications_queue (delete (pduSource apdu)) w) ∧
  confirmed_notifications_queue (snd (confirmation apdu w)) !! pduSource apdu
    = None ∧
  pending (snd (confirmation apdu w)) (pduSource apdu) = [] ∧
  sent (snd (confirmation apdu w)) = sent w ∧
  ∀ x, x ∈ rest → ¬ transmitted (snd (confirmation apdu w)) x.1.
Proof.
  intros Hreach Hq Hr Hid Hclass.
  pose proof (reachable_queue_inv w Hreach) as Hinv.
  destruct (inv_entries w Hinv _ _ request cov Hq) as [_ (s & Hs & Hd)];
    [by left|].
  rewrite (confirmation_matched_abort apdu w request cov rest r s) by done.
  split; [done|]. simpl. split; [apply lookup_delete_eq|].
  split; [unfold pending; simpl; by rewrite lookup_delete_eq|].
  split; [done|].
  destruct (queue_inv_nonempty w _ _ Hinv Hq)
    as (h & ch & rest' & Heq & _ & Hrest).
  injection Heq as <- <- <-. exact Hrest.
Qed.

Lemma abort_drops_pending_witness :
  confirmation (mkAPDU AbortPDU client (Some 0)) two_pending
    = (Ok tt, set_confirmed_notifications_queue (delete client) two_pending) ∧
  confirmed_notifications_queue
    (snd (confirmation (mkAPDU AbortPDU client (Some 0)) two_pending))
    !! client = None ∧
  pending (snd (confirmation (mkAPDU AbortPDU client (Some 0)) two_pending))
    client = [] ∧
  sent (snd (confirmation (mkAPDU AbortPDU client (Some 0)) two_pending))
    = sent two_pending ∧
  ∀ x, x ∈ [(1%nat, 0%nat)] →
       ¬ transmitted
           (snd (confirmation (mkAPDU AbortPDU client (Some 0)) two_pending))
           x.1.
Proof.
  apply (abort_drops_pending two_pending (mkAPDU AbortPDU client (Some 0))
           0%nat 0%nat [(1%nat, 0%nat)]
           (mkRequest ConfirmedCOVNotificationRequest client 1
              ("device"%string, 599) bv1 0
              [("presentValue"%string, VStr "active");
               ("statusFlags"%string,
                VList [VNum 0; VNum 0; VNum 0; VNum 0])]
              (Some 0))).
  - exact reachable_two_pending.
  - by vm_compute.
  - by vm_compute.
  - reflexivity.
  - reflexivity.
Defined.

(** C9. A response whose source has no list in the queue, or whose invoke
    id is not the one of the head of that list, is passed to [confirmation]
    of the superclass as it is, and nothing else happens: the queue, the
    requests and the log of transmissions are as they were. *)
Theorem unmatched_confirmation_passed_up (w : World) (apdu : APDU) :
  (confirmed_notifications_queue w !! pduSource apdu = None ∨
   ∃ request cov rest r,
     confirmed_notifications_queue w !! pduSource apdu
       = Some ((request, cov) :: rest) ∧
     requests w !! request = Some r ∧
     apdu_apduInvokeID apdu ≠ apduInvokeID r) →
  confirmation apdu w = (Ok tt, set_passed_up (λ l, l ++ [apdu]) w) ∧
  passed_up (snd (confirmation apdu w)) = passed_up w ++ [apdu] ∧
  confirmed_notifications_queue (snd (confirmation apdu w))
    = confirmed_notifications_queue w ∧
  requests (snd (confirmation apdu w)) = requests w ∧
  sent (snd (confirmation apdu w)) = sent w.
Proof.
  intros Hun. by rewrite (confirmation_unmatched apdu w Hun).
Qed.

Lemma unmatched_confirmation_passed_up_witness :
  confirmation (mkAPDU SimpleAckPDU client (Some 7)) two_pending
    = (Ok tt,
       set_passed_up (λ l, l ++ [mkAPDU SimpleAckPDU client (Some 7)])
         two_pending) ∧
  passed_up (snd (confirmation (mkAPDU SimpleAckPDU client (Some 7))
                    two_pending))
    = passed_up two_pending ++ [mkAPDU SimpleAckPDU client (Some 7)] ∧
  confirmed_notifications_queue
    (snd (confirmation (mkAPDU SimpleAckPDU client (Some 7)) two_pending))
    = confirmed_notifications_queue two_pending ∧
  requests (snd (confirmation (mkAPDU SimpleAckPDU client (Some 7))
                   two_pending))
    = requests two_pending ∧
  sent (snd (confirmation (mkAPDU SimpleAckPDU client (Some 7)) two_pending))
    = sent two_pending.
Proof.
  apply (unmatched_confirmation_passed_up two_pending
           (mkAPDU SimpleAckPDU client (Some 7))).
  right.
  exists 0%nat, 0%nat, [(1%nat, 0%nat)],
    (mkRequest ConfirmedCOVNotificationRequest client 1
       ("device"%string, 599) bv1 0
       [("presentValue"%string, VStr "active");
        ("statusFlags"%string, VList [VNum 0; VNum 0; VNum 0; VNum 0])]
       (Some 0)).
  split; [by vm_compute|]. split; [by vm_compute|]. by vm_compute.
Defined.

(** ** Destroying a subscription twice *)

Lemma list_remove_absent (x : subref) (l : list subref) :
  x ∉ l → list_remove x l = Raise ValueError.
Proof.
  induction l as [|y l IH]; intros Hx; [reflexivity|]. simpl.
  rewrite bool_decide_eq_false_2.
  - rewrite IH; [reflexivity|]. intros Hin. apply Hx. by right.
  - intros ->. apply Hx. by left.
Qed.

(** A subscription whose reference to its object is broken cannot be
    cancelled: the attribute is looked up on [None]. *)
Lemma cancel_destroyed_raises (w : World) (self : subref) (s : Subscription) :
  subscriptions w !! self = Some s → obj_ref s = None →
  fst (cancel_subscription self w) = Raise AttributeError.
Proof.
  intros Hs Hnone.
  unfold cancel_subscription, bind, suspend_task, update_subscription,
    modify, get_subscription. simpl.
  rewrite lookup_alter_eq, Hs. simpl. by rewrite Hnone.
Qed.

(** A cancellation that returns has broken the reference. *)
Lemma cancel_breaks_obj_ref (w : World) (self : subref) (w' : World) :
  cancel_subscription self w = (Ok tt, w') →
  ∃ s, subscriptions w' !! self = Some s ∧ obj_ref s = None.
Proof.
  unfold cancel_subscription, bind, suspend_task, update_subscription,
    modify, get_subscription, SubscriptionList_remove, on_object, get, raise.
  simpl. rewrite lookup_alter_eq.
  destruct (subscriptions w !! self) as [s|] eqn:Hs; simpl; [|discriminate].
  destruct (obj_ref s) as [obj|] eqn:Hobj; [|discriminate]. simpl.
  destruct (objects w !! obj) as [o|]; simpl; [|discriminate].
  destruct (list_remove self (_cov_subscriptions o)); simpl; [|discriminate].
  rewrite lookup_alter_eq, Hs. simpl. rewrite Hobj.
  destruct (list_remove self (active_cov_subscriptions _)); simpl;
    [|discriminate].
  intros [= <-]. simpl. rewrite !lookup_alter_eq, Hs. simpl.
  by eexists.
Qed.

(** C10. Once [cancel_subscription] has returned for a subscription, be it
    called for a cancellation request or by [process_task] when the
    subscription expired, the reference of the subscription to its object
    is [None]; a second call of [cancel_subscription] or of [process_task]
    raises [AttributeError], right away or in any later state in which that
    reference is still [None]. Removing from a list an element that is not
    in it raises [ValueError]. *)
Theorem cancel_subscription_twice_raises
    (w : World) (self : subref) (w' : World) :
  cancel_subscription self w = (Ok tt, w') →
  (∃ s, subscriptions w' !! self = Some s ∧ obj_ref s = None) ∧
  fst (cancel_subscription self w') = Raise AttributeError ∧
  fst (process_task self w') = Raise AttributeError ∧
  (∀ w'' s, subscriptions w'' !! self = Some s → obj_ref s = None →
            fst (cancel_subscription self w'') = Raise AttributeError ∧
            fst (process_task self w'') = Raise AttributeError) ∧
  ∀ x l, x ∉ l → list_remove x l = Raise ValueError.
Proof.
  intros Hrun. destruct (cancel_breaks_obj_ref w self w' Hrun) as (s & Hs & Hn).
  split; [by exists s|].
  split; [by apply (cancel_destroyed_raises w' self s)|].
  split; [by apply (cancel_destroyed_raises w' self s)|].
  split; [|apply list_remove_absent].
  intros w'' s' Hs' Hn'. split; by apply (cancel_destroyed_raises w'' self s').
Qed.

Lemma cancel_subscription_twice_raises_witness :
  (∃ s, subscriptions (snd (cancel_subscription 0%nat subscribed)) !! 0%nat
        = Some s ∧ obj_ref s = None) ∧
  fst (cancel_subscription 0%nat (snd (cancel_subscription 0%nat subscribed)))
    = Raise AttributeError ∧
  fst (process_task 0%nat (snd (cancel_subscription 0%nat subscribed)))
    = Raise AttributeError ∧
  (∀ w'' s, subscriptions w'' !! 0%nat = Some s → obj_ref s = None →
            fst (cancel_subscription 0%nat w'') = Raise AttributeError ∧
            fst (process_task 0%nat w'') = Raise AttributeError) ∧
  ∀ x l, x ∉ l → list_remove x l = Raise ValueError.
Proof.
  apply (cancel_subscription_twice_raises subscribed 0%nat
           (snd (cancel_subscription 0%nat subscribed))).
  by vm_compute.
Defined.

(** ** Renewal and the time remaining *)

(** [renew_subscription] leaves the field [lifetime] as it was. *)
Lemma renew_subscription_keeps_lifetime
    (w : World) (self : subref) (new_lifetime : option Z) (s : Subscription) :
  subscriptions w !! self = Some s →
  ∃ s', subscriptions (snd (renew_subscription self new_lifetime w)) !! self
        = Some s' ∧
        lifetime s' = lifetime s.
Proof.
  intros Hs.
  unfold renew_subscription, bind, get_subscription, suspend_task,
    install_task, update_subscription, modify, get_time, bind,
    get_subscription, ret, raise.
  rewrite Hs.
  destruct (isScheduled s), (lifetime_ne_0 new_lifetime),
    new_lifetime as [z|]; simpl;
    rewrite ?lookup_alter_eq, ?Hs; simpl;
    try destruct (taskTime s); simpl;
    rewrite ?lookup_alter_eq, ?Hs; simpl; by eexists.
Qed.

(** What the computation gives when the clock is less than one second past
    the time of the task: 0 for a lifetime that is 0 or [None], at least 1
    otherwise. *)
Lemma time_remaining_not_late (cov : Subscription) (current_time t : Q) :
  taskTime cov = Some t → (current_time < t + 1)%Q →
  ∃ n, time_remaining cov current_time = Ok n ∧
       (truthy_lifetime (lifetime cov) = false → n = 0) ∧
       (truthy_lifetime (lifetime cov) = true → 1 ≤ n).
Proof.
  intros Ht Hlate.
  assert (Hq : (-1 < t - current_time)%Q) by lra.
  unfold time_remaining. rewrite Ht.
  set (x := (t - current_time)%Q) in *.
  destruct (truthy_lifetime (lifetime cov)); simpl.
  2:{ exists 0. by repeat split. }
  destruct (py_int x =? 0) eqn:Hz.
  { exists 1. by repeat split. }
  eexists. split; [reflexivity|]. split; [done|]. intros _.
  apply Z.eqb_neq in Hz.
  assert (Hnn : 0 ≤ py_int x); [|lia].
  unfold py_int in *.
  destruct (Z_lt_le_dec (Qnum x) 0) as [Hneg|Hpos].
  - exfalso. apply Hz. apply Z.quot_small_iff; [done|].
    clearbody x. unfold Qlt in Hq. simpl in Hq. lia.
  - apply Z.quot_pos; lia.
Qed.

(** C7, the code at the failing input. The client subscribes for ever and
    then, with the same address, process identifier and object, for 60
    seconds. There is one subscription in the list of the object and in the
    list of the application, and its task is scheduled at 60 seconds from
    now; but its field [lifetime] is still 0, so the time remaining is
    reported as 0, by [ReadProperty] and in the next notification, as for a
    subscription that never expires. *)
Theorem renewal_keeps_old_lifetime :
  _cov_subscriptions <$> objects renewed_to_60 !! bv1 = Some [0%nat] ∧
  active_cov_subscriptions renewed_to_60 = [0%nat] ∧
  isScheduled <$> subscriptions renewed_to_60 !! 0%nat = Some true ∧
  taskTime <$> subscriptions renewed_to_60 !! 0%nat = Some (Some 60%Q) ∧
  lifetime <$> subscriptions renewed_to_60 !! 0%nat = Some (Some 0) ∧
  reported_time_remaining renewed_to_60 = Ok [0] ∧
  notified_time_remaining
    (run_event (EvWrite bv1 "presentValue" (VStr "active")) renewed_to_60)
    0%nat = Some 0.
Proof. by vm_compute. Qed.

(** C2, the code at the failing input. A subscription with [lifetime] 5
    whose task was to run at time 5 gets -95 at time 100: only a result of 0
    is replaced by 1. The state is reached when the client subscribes for 5
    seconds and renews for ever, which suspends the task and leaves
    [lifetime] at 5: the subscription stays registered, and at time 100
    [ReadProperty] and the next notification report -95. It is also reached
    when the clock is at 7 and the task manager has not yet fired the
    subscription that was due at 5: [ReadProperty] reports -2. *)
Theorem time_remaining_negative :
  time_remaining
    (mkSubscription (Some bv1) client 1 bv1 (Some true) (Some 5)
                    (Some 5%Q) true) 100
    = Ok (-95) ∧
  active_cov_subscriptions renewed_to_0 = [0%nat] ∧
  lifetime <$> subscriptions renewed_to_0 !! 0%nat = Some (Some 5) ∧
  reported_time_remaining renewed_to_0 = Ok [-95] ∧
  notified_time_remaining
    (run_event (EvWrite bv1 "presentValue" (VStr "active")) renewed_to_0)
    0%nat = Some (-95) ∧
  active_cov_subscriptions overdue = [0%nat] ∧
  isScheduled <$> subscriptions overdue !! 0%nat = Some true ∧
  reported_time_remaining overdue = Ok [-2].
Proof. by vm_compute. Qed.

(** * Further properties *)

(** ** The criteria: what an evaluation leaves, and how it fails *)

(** X1. After [COVCriteria._check_criteria] has returned, whatever it
    returned, every tracked property has a snapshot value equal, by
    Python's [==], to its current value. *)
Theorem generic_snapshot_in_sync (names : list string)
    (o : COVObject) (b : bool) (o' : COVObject) :
  COVCriteria_check_criteria names o = (Ok b, o') →
  ∀ p, p ∈ names →
    ∃ v s, _values o' !! p = Some v ∧ _cov_properties o' !! p = Some s ∧
           py_eq v s = true.
Proof.
  unfold COVCriteria_check_criteria. intros Hrun p Hp.
  pose proof (check_tracked_Ok_present _ _ _ _ _ Hrun) as Hpres.
  destruct (check_tracked_spec names false o Hpres)
    as (o'' & Hrun' & _ & Hvals & _ & Hsnap).
  rewrite Hrun in Hrun'. injection Hrun' as _ <-.
  destruct (Hpres p Hp) as [[v Hv] [s Hs]].
  rewrite Hvals, Hsnap, Hv, (bool_decide_eq_true_2 _ Hp). simpl.
  destruct (differs o p) eqn:Hd.
  - exists v, v. repeat split; try done. apply py_eq_refl.
  - exists v, s. repeat split; try done.
    unfold differs in Hd. rewrite Hv, Hs in Hd.
    unfold py_ne in Hd. by apply negb_false_iff in Hd.
Qed.

Lemma generic_snapshot_in_sync_witness :
  ∃ v s,
    _values (snd (COVCriteria_check_criteria
                    (_properties_tracked GenericCriteria)
                    (binary "inactive" "active"))) !! "presentValue"
    = Some v ∧
    _cov_properties (snd (COVCriteria_check_criteria
                            (_properties_tracked GenericCriteria)
                            (binary "inactive" "active"))) !! "presentValue"
    = Some s ∧
    py_eq v s = true.
Proof.
  apply (generic_snapshot_in_sync (_properties_tracked GenericCriteria)
           (binary "inactive" "active") true _ eq_refl "presentValue").
  apply (bool_decide_unpack _). by vm_compute.
Defined.

(** X2. After [COVIncrementCriteria._check_criteria] has returned, with an
    increment greater than 0 and a present value that is a float, the
    current present value lies strictly inside the band of one increment
    around the snapshot, and the snapshot of the status flags equals the
    current flags. *)
Theorem increment_snapshot_within_deadband
    (o : COVObject) (b : bool) (o' : COVObject) (i : Q) :
  COVIncrementCriteria_check_criteria o = (Ok b, o') →
  _values o !! "covIncrement" = Some (VNum i) → (0 < i)%Q →
  (∀ c, _values o !! "presentValue" = Some (VNum c) →
        is_float64 c = true) →
  ∃ s c f g,
    _cov_properties o' !! "presentValue" = Some (VNum s) ∧
    _values o' !! "presentValue" = Some (VNum c) ∧
    (s - i < c)%Q ∧ (c < s + i)%Q ∧
    _values o' !! "statusFlags" = Some f ∧
    _cov_properties o' !! "statusFlags" = Some g ∧
    py_eq f g = true.
Proof.
  intros Hrun Hi Hpos Hfloat.
  destruct (increment_check_criteria_Ok_inv o b o' Hrun)
    as (s & i' & c & f & g & Hs & Hc & Hi' & Hf & Hg).
  rewrite Hi in Hi'. injection Hi' as <-.
  rewrite (increment_check_criteria_run o s i c f g Hs Hc Hi Hf Hg) in Hrun.
  injection Hrun as _ <-.
  destruct (Qle_bool c (round64 (s - i)) || Qle_bool (round64 (s + i)) c)
    eqn:Hvc.
  - exists c, c, f, (if py_ne f g then f else g).
    destruct (py_ne f g) eqn:Hne; simpl;
      rewrite ?lookup_insert_eq, ?lookup_insert_ne by done;
      rewrite ?lookup_insert_eq;
      (repeat split; try done; try lra).
    + apply py_eq_refl.
    + unfold py_ne in Hne. by apply negb_false_iff in Hne.
  - assert (Hin : ¬ crosses_exact s i c).
    { intros Hex.
      apply (crosses_exact_deadband s i c (Hfloat c Hc)) in Hex.
      apply Qle_bool_crosses in Hex. congruence. }
    assert (Hl : (s - i < c)%Q).
    { apply Qnot_le_lt. intros H. apply Hin. by left. }
    assert (Hh : (c < s + i)%Q).
    { apply Qnot_le_lt. intros H. apply Hin. by right. }
    exists s, c, f, (if py_ne f g then f else g).
    destruct (py_ne f g) eqn:Hne; simpl;
      rewrite ?lookup_insert_eq, ?lookup_insert_ne by done;
      (repeat split; try done).
    + apply py_eq_refl.
    + unfold py_ne in Hne. by apply negb_false_iff in Hne.
Qed.

Lemma increment_snapshot_within_deadband_witness :
  ∃ s c f g,
    _cov_properties (snd (COVIncrementCriteria_check_criteria
                            (analog 10 2 12))) !! "presentValue"
      = Some (VNum s) ∧
    _values (snd (COVIncrementCriteria_check_criteria (analog 10 2 12)))
      !! "presentValue" = Some (VNum c) ∧
    (s - 2 < c)%Q ∧ (c < s + 2)%Q ∧
    _values (snd (COVIncrementCriteria_check_criteria (analog 10 2 12)))
      !! "statusFlags" = Some f ∧
    _cov_properties (snd (COVIncrementCriteria_check_criteria
                            (analog 10 2 12))) !! "statusFlags" = Some g ∧
    py_eq f g = true.
Proof.
  apply (increment_snapshot_within_deadband (analog 10 2 12) true _ 2).
  - by vm_compute.
  - reflexivity.
  - reflexivity.
  - intros c Hc. vm_compute in Hc. injection Hc as <-. by vm_compute.
Defined.

Lemma check_tracked_app l1 :
  ∀ l2 b0 o,
    check_tracked (l1 ++ l2) b0 o =
    match check_tracked l1 b0 o with
    | (Ok b, o') => check_tracked l2 b o'
    | (Raise e, o') => (Raise e, o')
    end.
Proof.
  induction l1 as [|n l1 IH]; intros l2 b0 o; [reflexivity|].
  simpl. unfold bind, values_getitem, cov_properties_getitem, getitem.
  destruct (_values o !! n) as [v|]; [|reflexivity].
  destruct (_cov_properties o !! n) as [s|]; [|reflexivity]. simpl.
  destruct (py_ne v s); [|apply IH].
  destruct (_values o !! n); [|reflexivity]. simpl. apply IH.
Qed.

(** X3. When a tracked name has no current value or no snapshot value,
    [COVCriteria._check_criteria] raises [KeyError] when it comes to that
    name; the names before it have been checked, and the snapshots among
    them that were overwritten stay overwritten. *)
Theorem generic_check_criteria_missing_key
    (before : list string) (p : string) (after : list string)
    (o : COVObject) :
  tracked_present before o →
  _values o !! p = None ∨ _cov_properties o !! p = None →
  COVCriteria_check_criteria (before ++ p :: after) o
  = (Raise KeyError, snd (COVCriteria_check_criteria before o)) ∧
  ∀ q, q ∈ before → differs o q = true →
       _cov_properties (snd (COVCriteria_check_criteria (before ++ p :: after) o))
         !! q = _values o !! q.
Proof.
  intros Hpres Hmiss. unfold COVCriteria_check_criteria.
  destruct (check_tracked_spec before false o Hpres)
    as (o' & Hrun & _ & Hvals & _ & Hsnap).
  assert (Hnot : p ∉ before ∨ _values o !! p = None).
  { destruct Hmiss as [Hv|Hs]; [by right|]. left. intros Hin.
    destruct (Hpres p Hin) as [_ [s' Hs']]. congruence. }
  assert (Hraise : check_tracked (before ++ p :: after) false o
                   = (Raise KeyError, o')).
  { rewrite check_tracked_app, Hrun. simpl.
    unfold bind, values_getitem, cov_properties_getitem, getitem.
    rewrite Hvals. destruct (_values o !! p) as [v|] eqn:Hv; [|reflexivity].
    rewrite Hsnap. destruct Hnot as [Hnot|?]; [|congruence].
    rewrite (bool_decide_eq_false_2 _ Hnot). simpl.
    destruct Hmiss as [?|Hs]; [congruence|]. by rewrite Hs. }
  rewrite Hraise, Hrun. split; [reflexivity|].
  intros q Hq Hd. simpl. by rewrite Hsnap, (bool_decide_eq_true_2 _ Hq), Hd.
Qed.

Lemma generic_check_criteria_missing_key_witness :
  COVCriteria_check_criteria (["presentValue"] ++ "statusFlags" :: [])
    (binary_without_flags "inactive" "active")
  = (Raise KeyError,
     snd (COVCriteria_check_criteria ["presentValue"]
            (binary_without_flags "inactive" "active"))) ∧
  ∀ q, q ∈ ["presentValue"] →
       differs (binary_without_flags "inactive" "active") q = true →
       _cov_properties
         (snd (COVCriteria_check_criteria
                 (["presentValue"] ++ "statusFlags" :: [])
                 (binary_without_flags "inactive" "active")))
         !! q = _values (binary_without_flags "inactive" "active") !! q.
Proof.
  apply (generic_check_criteria_missing_key ["presentValue"] "statusFlags" []
           (binary_without_flags "inactive" "active")).
  - intros q Hq. apply list_elem_of_singleton in Hq as ->.
    split; eexists; reflexivity.
  - left. reflexivity.
Defined.

(** X4. When the snapshot of the present value, the present value or
    [covIncrement] is not a number, as for an object whose [covIncrement]
    holds [None], [COVIncrementCriteria._check_criteria] raises [TypeError]
    and writes nothing. *)
Theorem increment_check_criteria_type_error
    (o : COVObject) (old new increment : value) :
  _cov_properties o !! "presentValue" = Some old →
  _values o !! "presentValue" = Some new →
  _values o !! "covIncrement" = Some increment →
  is_number old && is_number new && is_number increment = false →
  COVIncrementCriteria_check_criteria o = (Raise TypeError, o).
Proof.
  intros Hs Hc Hi Hnum.
  unfold COVIncrementCriteria_check_criteria, bind, cov_properties_getitem,
    values_getitem, getitem, lift_result.
  rewrite Hs, Hc, Hi. simpl.
  destruct old as [|s| |]; try reflexivity.
  destruct increment as [|i| |]; try reflexivity.
  destruct new as [|c| |]; try reflexivity.
  discriminate Hnum.
Qed.

Lemma increment_check_criteria_type_error_witness :
  COVIncrementCriteria_check_criteria (analog_without_increment 0 1)
  = (Raise TypeError, analog_without_increment 0 1).
Proof.
  apply (increment_check_criteria_type_error (analog_without_increment 0 1)
           (VNum 0) (VNum 1) VNone); reflexivity.
Defined.

(** ** The time remaining *)

(** X5. For a subscription whose [lifetime] is neither 0 nor [None] and
    whose task has a time [t]: the time remaining is never 0; it is at
    least 1 exactly when the clock is less than one second past [t]; and
    when at least one second is left it is the number of whole seconds
    left, rounded down. *)
Theorem time_remaining_time_bounded
    (cov : Subscription) (current_time t : Q) :
  truthy_lifetime (lifetime cov) = true →
  taskTime cov = Some t →
  ∃ n, time_remaining cov current_time = Ok n ∧
       n ≠ 0 ∧
       (1 ≤ n ↔ (current_time < t + 1)%Q) ∧
       ((1 <= t - current_time)%Q → n = Qfloor (t - current_time)).
Proof.
  intros Hlife Ht. unfold time_remaining. rewrite Hlife, Ht.
  set (x := (t - current_time)%Q).
  assert (Hx : (current_time < t + 1)%Q ↔ (-1 < x)%Q).
  { subst x. split; intros H; lra. }
  clearbody x. simpl.
  assert (Hfloor : (0 <= x)%Q → py_int x = Qfloor x).
  { intros H0. unfold py_int, Qfloor. destruct x as [num den].
    unfold Qle in H0. simpl in *. rewrite Z.quot_div_nonneg; lia. }
  assert (Hneg : (x <= -1)%Q → py_int x < 0).
  { intros H1. unfold py_int. destruct x as [num den].
    unfold Qle in H1. simpl in *.
    assert (Hq : - (num ÷ Z.pos den) = (- num) ÷ Z.pos den).
    { by rewrite Z.quot_opp_l. }
    assert (0 < (- num) ÷ Z.pos den); [|lia].
    apply Z.quot_str_pos. lia. }
  assert (Hsmall : (-1 < x)%Q → 0 ≤ py_int x).
  { intros H1. destruct (Qlt_le_dec x 0) as [Hlt|Hge].
    - assert (py_int x = 0); [|lia].
      unfold py_int. destruct x as [num den].
      unfold Qlt in *. simpl in *. apply Z.quot_small_iff; lia.
    - rewrite Hfloor by done. apply (Qfloor_resp_le 0 x) in Hge.
      by simpl in Hge. }
  destruct (py_int x =? 0) eqn:Hz.
  - apply Z.eqb_eq in Hz. exists 1. split; [done|]. split; [done|].
    split.
    + split; [intros _|done]. apply Hx.
      destruct (Qlt_le_dec (-1) x) as [?|Hle]; [done|].
      apply Hneg in Hle. lia.
    + intros H1. rewrite <- Hfloor by lra.
      assert (1 ≤ Qfloor x); [|rewrite Hfloor in Hz by lra; lia].
      apply (Qfloor_resp_le 1 x) in H1. by simpl in H1.
  - apply Z.eqb_neq in Hz. exists (py_int x). split; [done|].
    split; [done|]. split.
    + rewrite Hx. split.
      * intros Hn. destruct (Qlt_le_dec (-1) x) as [?|Hle]; [done|].
        apply Hneg in Hle. lia.
      * intros H1. apply Hsmall in H1. lia.
    + intros H1. apply Hfloor. lra.
Qed.

Lemma time_remaining_time_bounded_witness :
  ∃ n, time_remaining
         (mkSubscription (Some bv1) client 1 bv1 (Some true) (Some 60)
                         (Some 60%Q) true) 15.5 = Ok n ∧
       n ≠ 0 ∧
       (1 ≤ n ↔ (15.5 < 60 + 1)%Q) ∧
       ((1 <= 60 - 15.5)%Q → n = Qfloor (60 - 15.5)).
Proof.
  apply (time_remaining_time_bounded
           (mkSubscription (Some bv1) client 1 bv1 (Some true) (Some 60)
                           (Some 60%Q) true) 15.5 60); reflexivity.
Defined.

(** ** The queue: what [confirmation] and [cov_notification] never do *)

(** X6. In every reachable state [confirmation] returns for every response:
    the list it looks at has a head, the request of the head and the
    subscription of the head are there. It transmits nothing, or the one
    request that was second in the list of the source of the response. *)
Theorem confirmation_never_raises (w : World) (apdu : APDU) :
  reachable w →
  fst (confirmation apdu w) = Ok tt ∧
  (sent (snd (confirmation apdu w)) = sent w ∨
   ∃ h x rest,
     confirmed_notifications_queue w !! pduSource apdu
       = Some (h :: x :: rest) ∧
     sent (snd (confirmation apdu w)) = sent w ++ [x.1]).
Proof.
  intros Hreach. pose proof (reachable_queue_inv w Hreach) as Hinv.
  destruct (confirmed_notifications_queue w !! pduSource apdu) as [l|] eqn:Hq.
  2:{ rewrite confirmation_unmatched by by left. split; [done|by left]. }
  destruct (queue_inv_nonempty w _ l Hinv Hq)
    as (h & ch & rest & -> & Hh & Hrest).
  destruct (inv_entries w Hinv _ _ h ch Hq) as [Hconf (s & Hs & Hd)];
    [by left|].
  destruct (confirmed_to_is_Some w _ h Hconf) as [r Hr].
  destruct (decide (apdu_apduInvokeID apdu = apduInvokeID r)) as [Hid|Hid].
  2:{ rewrite confirmation_unmatched; [split; [done|by left]|].
      right. by exists h, ch, rest, r. }
  destruct (decide (apdu_class_of apdu = AbortPDU)) as [Hclass|Hclass].
  { rewrite (confirmation_matched_abort apdu w h ch rest r s) by done.
    split; [done|by left]. }
  destruct rest as [|[r2 c2] rest].
  { rewrite (confirmation_matched_last apdu w h ch r) by done.
    split; [done|by left]. }
  rewrite (confirmation_matched_next apdu w h ch r2 c2 rest r) by done.
  destruct (inv_entries w Hinv _ _ r2 c2 Hq) as [Hconf2 _];
    [right; by left|].
  destruct (super_request_sends r2 (popped apdu ((r2, c2) :: rest) w))
    as (w' & Hrun & Hsent & _).
  { simpl. by apply (confirmed_to_is_Some w (pduSource apdu)). }
  rewrite Hrun. simpl. split; [done|]. right.
  exists (h, ch), (r2, c2), rest. split; [done|]. exact Hsent.
Qed.

Lemma confirmation_never_raises_witness :
  fst (confirmation (mkAPDU Error client (Some 0)) two_pending) = Ok tt ∧
  (sent (snd (confirmation (mkAPDU Error client (Some 0)) two_pending))
     = sent two_pending ∨
   ∃ h x rest,
     confirmed_notifications_queue two_pending
       !! pduSource (mkAPDU Error client (Some 0))
       = Some (h :: x :: rest) ∧
     sent (snd (confirmation (mkAPDU Error client (Some 0)) two_pending))
       = sent two_pending ++ [x.1]).
Proof.
  apply (confirmation_never_raises two_pending
           (mkAPDU Error client (Some 0))).
  exact reachable_two_pending.
Defined.

(** X7. [cov_error] and [cov_reject] do nothing: two responses from the
    same source with the same invoke id, neither of them an abort, be they
    an acknowledgement, an error or a reject, have the same effect on the
    queue, the requests and the transmissions, in every state. *)
Theorem error_and_reject_advance_like_ack (w : World) (a1 a2 : APDU) :
  pduSource a1 = pduSource a2 →
  apdu_apduInvokeID a1 = apdu_apduInvokeID a2 →
  apdu_class_of a1 ≠ AbortPDU →
  apdu_class_of a2 ≠ AbortPDU →
  fst (confirmation a1 w) = fst (confirmation a2 w) ∧
  delivery_state (snd (confirmation a1 w))
  = delivery_state (snd (confirmation a2 w)).
Proof.
  destruct a1 as [c1 src1 id1], a2 as [c2 src2 id2]. simpl.
  intros <- <- Hc1 Hc2.
  unfold confirmation, bind, get, get_request, super_confirmation, modify.
  simpl.
  destruct (confirmed_notifications_queue w !! src1) as [[|[h ch] rest]|];
    [done| |done].
  destruct (requests w !! h) as [r|]; [|done].
  destruct (bool_decide (id1 = apduInvokeID r)); [|done]. simpl.
  destruct c1, c2; try done.
Qed.

Lemma error_and_reject_advance_like_ack_witness :
  fst (confirmation (mkAPDU Error client (Some 0)) two_pending)
  = fst (confirmation (mkAPDU SimpleAckPDU client (Some 0)) two_pending) ∧
  delivery_state
    (snd (confirmation (mkAPDU Error client (Some 0)) two_pending))
  = delivery_state
      (snd (confirmation (mkAPDU SimpleAckPDU client (Some 0)) two_pending)).
Proof.
  apply (error_and_reject_advance_like_ack two_pending
           (mkAPDU Error client (Some 0))
           (mkAPDU SimpleAckPDU client (Some 0)));
    by vm_compute.
Defined.

(** X8. A notification for a subscription that is not confirmed is
    transmitted at once, whatever is pending for its client: the queue is
    not touched, the one new request is an unconfirmed request with the
    fields of the subscription, and no invoke id is used. *)
Theorem unconfirmed_notification_bypasses_queue
    (w : World) current_time list_of_values
    (cov : subref) (c : Subscription) (tr : Z) :
  subscriptions w !! cov = Some c →
  truthy_confirmed (confirmed c) = false →
  time_remaining c current_time = Ok tr →
  fst (notify_subscription current_time list_of_values cov w) = Ok tt ∧
  confirmed_notifications_queue
    (snd (notify_subscription current_time list_of_values cov w))
    = confirmed_notifications_queue w ∧
  sent (snd (notify_subscription current_time list_of_values cov w))
    = sent w ++ [next_reqref w] ∧
  requests (snd (notify_subscription current_time list_of_values cov w))
    = <[next_reqref w :=
          mkRequest UnconfirmedCOVNotificationRequest (client_addr c)
            (proc_id c) (localDevice_objectIdentifier w) (obj_id c) tr
            list_of_values None]> (requests w) ∧
  next_invoke_id (snd (notify_subscription current_time list_of_values cov w))
    = next_invoke_id w.
Proof.
  intros Hc Hconf Htr.
  unfold notify_subscription, bind, get_subscription, lift_result.
  rewrite Hc, Htr. simpl.
  unfold cov_notification, bind, get_subscription. simpl.
  rewrite Hc, Hconf.
  unfold super_request, bind, get_request, get. simpl.
  by rewrite lookup_insert_eq.
Qed.

Lemma unconfirmed_notification_bypasses_queue_witness :
  fst (notify_subscription 0 [] 0%nat
         (run_event
            (EvSubscribe (mkSubscribeCOVRequest client 1 bv1 (Some false)
                            (Some 0))) device)) = Ok tt.
Proof.
  destruct (unconfirmed_notification_bypasses_queue
              (run_event
                 (EvSubscribe (mkSubscribeCOVRequest client 1 bv1 (Some false)
                                 (Some 0))) device)
              0 [] 0%nat
              (mkSubscription (Some bv1) client 1 bv1 (Some false) (Some 0)
                              None false) 0) as [H _].
  - by vm_compute.
  - reflexivity.
  - reflexivity.
  - exact H.
Defined.

(** X9. A subscribe request (creation, renewal or cancellation), the
    expiry of a subscription, the clock and a read of the active
    subscriptions leave the queue, the requests and the log of
    transmissions as they are: nothing is transmitted when a subscription
    goes, and what is queued for it stays queued. *)
Theorem registry_events_leave_delivery (w : World) :
  (∀ apdu, delivery_unchanged w (run_event (EvSubscribe apdu) w)) ∧
  (∀ cov, delivery_unchanged w (run_event (EvExpire cov) w)) ∧
  (∀ t, delivery_unchanged w (run_event (EvTick t) w)) ∧
  delivery_unchanged w (run_event EvRead w).
Proof.
  split; [|split; [|split]].
  - intros apdu. apply (frames_do_SubscribeCOVRequest apdu w).
  - intros cov. simpl. destruct (due w cov); [|by repeat split].
    apply (frames_expire cov w).
  - intros t. simpl. by destruct (Qle_bool (now w) t).
  - apply (frames_ReadProperty w).
Qed.

(** ** The registry *)

(** *** Removing from a list *)

Lemma list_remove_elem (x : subref) (l : list subref) :
  x ∈ l →
  ∃ l1 l2, l = l1 ++ x :: l2 ∧ (x ∉ l1) ∧ list_remove x l = Ok (l1 ++ l2).
Proof.
  induction l as [|y l IH]; intros Hx; [by apply elem_of_nil in Hx|].
  simpl. destruct (decide (y = x)) as [->|Hne].
  - exists [], l. rewrite bool_decide_eq_true_2 by done.
    repeat split; try done. by intros ?%elem_of_nil.
  - rewrite bool_decide_eq_false_2 by done.
    apply elem_of_cons in Hx as [->|Hx]; [done|].
    destruct (IH Hx) as (l1 & l2 & -> & Hnot & ->).
    exists (y :: l1), l2. repeat split; try done.
    intros [->|?]%elem_of_cons; [done|]. by apply Hnot.
Qed.

Lemma list_remove_NoDup (x : subref) (l : list subref) :
  NoDup l → x ∈ l →
  ∃ l', list_remove x l = Ok l' ∧ NoDup l' ∧
        ∀ y, y ∈ l' ↔ y ∈ l ∧ y ≠ x.
Proof.
  intros Hnd Hx. destruct (list_remove_elem x l Hx) as (l1 & l2 & -> & Hn & ->).
  exists (l1 ++ l2). split; [done|].
  apply NoDup_app in Hnd as (Hnd1 & Hdisj & Hnd2).
  apply NoDup_cons in Hnd2 as [Hx2 Hnd2]. split.
  - apply NoDup_app. repeat split; try done.
    intros y Hy1 Hy2. apply (Hdisj y Hy1). by right.
  - intros y. rewrite !elem_of_app, elem_of_cons. split.
    + intros [Hy|Hy]; (split; [tauto|]); intros ->; [done|done].
    + intros [[Hy|[->|Hy]] Hne]; [by left|done|by right].
Qed.

(** *** Steps that leave the registry alone *)

#[local] Instance registry_same_refl : Reflexive registry_same.
Proof. intros w. by repeat split. Qed.

#[local] Instance registry_same_trans : Transitive registry_same.
Proof.
  intros w1 w2 w3 (Hs1 & Hn1 & Ha1 & Ho1) (Hs2 & Hn2 & Ha2 & Ho2).
  split; [congruence|]. split; [congruence|]. split; [congruence|].
  intros k. by rewrite Ho2, Ho1.
Qed.

Lemma registered_same w w' c k :
  subscriptions w' = subscriptions w → registered w' c k ↔ registered w c k.
Proof. intros Hs. unfold registered. by rewrite Hs. Qed.

Lemma registry_inv_same w w' :
  registry_same w w' → registry_inv w → registry_inv w'.
Proof.
  intros (Hs & Hn & Ha & Ho) [H1 H2 H3 H4 H5 H6 H7 H8 H9 H10].
  assert (Hobj : ∀ k o', objects w' !! k = Some o' →
            ∃ o, objects w !! k = Some o ∧
                 _cov_subscriptions o = _cov_subscriptions o').
  { intros k o' Ho'. specialize (Ho k). rewrite Ho' in Ho. simpl in Ho.
    destruct (objects w !! k) as [o|]; [|discriminate].
    exists o. split; [done|]. by injection Ho. }
  split.
  - intros c. rewrite Hs, Hn. apply H1.
  - by rewrite Ha.
  - intros c. rewrite Ha, H3. by setoid_rewrite (registered_same w w' c).
  - intros k o' Ho'. destruct (Hobj k o' Ho') as (o & Hok & <-). by eapply H4.
  - intros k o' c Ho'. destruct (Hobj k o' Ho') as (o & Hok & <-).
    rewrite (registered_same w w' c k Hs). by apply H5.
  - intros c k Hr. apply (registered_same w w' c k Hs) in Hr.
    destruct (H6 c k Hr) as [o Hok]. specialize (Ho k).
    rewrite Hok in Ho. destruct (objects w' !! k); [by eexists|discriminate].
  - intros c s k. rewrite Hs. apply H7.
  - intros c s. rewrite Hs. apply H8.
  - intros c s. rewrite Hs. apply H9.
  - intros c1 c2 s1 s2. rewrite Hs. apply H10.
Qed.

(** The methods of the criteria and the reading of the values leave the
    list of subscriptions of the object alone. *)
Lemma keeps_bind {A B} (m : M COVObject A) (k : A → M COVObject B) :
  keeps_subscriptions m → (∀ a, keeps_subscriptions (k a)) →
  keeps_subscriptions (bind m k).
Proof.
  intros Hm Hk o. unfold bind. specialize (Hm o).
  destruct (m o) as [[a|e] o1]; simpl in *; [|exact Hm].
  by rewrite Hk.
Qed.

Lemma keeps_pure {A} (m : M COVObject A) :
  (∀ o, snd (m o) = o) → keeps_subscriptions m.
Proof. intros Hm o. by rewrite Hm. Qed.

Create HintDb keeps_db.

Lemma keeps_ret {A} (a : A) : keeps_subscriptions (@ret COVObject A a).
Proof. by apply keeps_pure. Qed.
Lemma keeps_raise {A} e : keeps_subscriptions (@raise COVObject A e).
Proof. by apply keeps_pure. Qed.
Lemma keeps_lift_result {A} (r : result A) :
  keeps_subscriptions (@lift_result COVObject A r).
Proof. by apply keeps_pure. Qed.
Lemma keeps_values_getitem name : keeps_subscriptions (values_getitem name).
Proof. by apply keeps_pure. Qed.
Lemma keeps_cov_properties_getitem name :
  keeps_subscriptions (cov_properties_getitem name).
Proof. by apply keeps_pure. Qed.
Lemma keeps_cov_properties_setitem name v :
  keeps_subscriptions (cov_properties_setitem name v).
Proof. by intros o. Qed.
#[local] Hint Resolve keeps_ret keeps_raise keeps_lift_result
  keeps_values_getitem keeps_cov_properties_getitem
  keeps_cov_properties_setitem : keeps_db.

Ltac keeps_tac :=
  repeat first
    [ solve [auto 1 with keeps_db nocore]
    | apply keeps_bind; [|intros ?]
    | match goal with
      | |- keeps_subscriptions (match ?x with _ => _ end) => destruct x
      | |- keeps_subscriptions (if ?b then _ else _) => destruct b
      end ].

Lemma keeps_check_tracked names b0 :
  keeps_subscriptions (check_tracked names b0).
Proof.
  revert b0. induction names as [|n rest IH]; intros b0; simpl; keeps_tac.
Qed.
#[local] Hint Resolve keeps_check_tracked : keeps_db.

Lemma keeps_COVIncrementCriteria_check_criteria :
  keeps_subscriptions COVIncrementCriteria_check_criteria.
Proof. unfold COVIncrementCriteria_check_criteria. keeps_tac. Qed.
#[local] Hint Resolve keeps_COVIncrementCriteria_check_criteria : keeps_db.

Lemma keeps_check_criteria c : keeps_subscriptions (_check_criteria c).
Proof.
  destruct c; simpl; unfold COVCriteria_check_criteria; keeps_tac.
Qed.

Lemma build_list_of_values_pure names o :
  snd (build_list_of_values names o) = o.
Proof.
  induction names as [|n rest IH]; [done|]. simpl.
  unfold bind, get_datatype, values_getitem, lift_result.
  destruct (_properties o !! n) as [d|]; [|done].
  destruct (getitem (_values o) n) as [v|]; [|done].
  destruct (d v); [|done].
  simpl. destruct (build_list_of_values rest o) as [[vs|e] o'];
    simpl in *; by subst.
Qed.

Lemma frames_on_object_registry_same {A} obj (m : M COVObject A) :
  keeps_subscriptions m → frames registry_same (on_object obj m).
Proof.
  intros Hm w. unfold on_object.
  destruct (objects w !! obj) as [o|] eqn:Ho; [|simpl; reflexivity].
  specialize (Hm o). destruct (m o) as [r o']. simpl in *.
  repeat split. intros k. simpl. destruct (decide (obj = k)) as [->|Hne].
  - rewrite lookup_insert_eq, Ho. simpl. by rewrite Hm.
  - by rewrite lookup_insert_ne.
Qed.

Create HintDb same_db.

Lemma frames_new_request_same q : frames registry_same (new_request q).
Proof. intros w. by repeat split. Qed.
Lemma frames_queue_getitem_same key : frames registry_same (queue_getitem key).
Proof.
  intros w. unfold queue_getitem.
  destruct (confirmed_notifications_queue w !! key); by repeat split.
Qed.
Lemma frames_set_queue_same f :
  frames registry_same (modify (set_confirmed_notifications_queue f)).
Proof. intros w. by repeat split. Qed.
Lemma frames_set_requests_same f :
  frames registry_same (modify (set_requests f)).
Proof. intros w. by repeat split. Qed.
Lemma frames_set_next_invoke_id_same n :
  frames registry_same (modify (set_next_invoke_id n)).
Proof. intros w. by repeat split. Qed.
Lemma frames_set_sent_same f : frames registry_same (modify (set_sent f)).
Proof. intros w. by repeat split. Qed.
Lemma frames_set_passed_up_same f :
  frames registry_same (modify (set_passed_up f)).
Proof. intros w. by repeat split. Qed.
#[local] Hint Resolve frames_new_request_same frames_queue_getitem_same
  frames_set_queue_same frames_set_requests_same
  frames_set_next_invoke_id_same frames_set_sent_same
  frames_set_passed_up_same : same_db.

Ltac registry_same_tac :=
  repeat first
    [ solve [auto 1 with same_db nocore]
    | apply frames_bind; [apply _ | | intros ? ]
    | apply frames_ret; apply _
    | apply frames_raise; apply _
    | apply frames_get; apply _
    | apply frames_lift_result; apply _
    | apply frames_get_subscription; apply _
    | apply frames_get_request; apply _
    | apply frames_get_object; apply _
    | apply frames_get_time; apply _
    | match goal with
      | |- frames _ (match ?x with _ => _ end) => destruct x
      | |- frames _ (if ?b then _ else _) => destruct b
      end ].

Lemma frames_super_request_same r : frames registry_same (super_request r).
Proof. unfold super_request. registry_same_tac. Qed.
#[local] Hint Resolve frames_super_request_same : same_db.

Lemma frames_cov_notification_same cov r :
  frames registry_same (cov_notification cov r).
Proof. unfold cov_notification. registry_same_tac. Qed.
#[local] Hint Resolve frames_cov_notification_same : same_db.

Lemma frames_notify_subscription_same t vs cov :
  frames registry_same (notify_subscription t vs cov).
Proof. unfold notify_subscription. registry_same_tac. Qed.
#[local] Hint Resolve frames_notify_subscription_same : same_db.

Lemma frames_notify_loop_same t vs covs :
  frames registry_same (notify_loop t vs covs).
Proof. induction covs as [|c rest IH]; simpl; registry_same_tac. Qed.
#[local] Hint Resolve frames_notify_loop_same : same_db.

Lemma frames_send_cov_notifications_same self :
  frames registry_same (_send_cov_notifications self).
Proof.
  unfold _send_cov_notifications. registry_same_tac.
  apply frames_on_object_registry_same, keeps_pure.
  apply build_list_of_values_pure.
Qed.
#[local] Hint Resolve frames_send_cov_notifications_same : same_db.

Lemma frames_WriteProperty_same self propid v :
  frames registry_same (WriteProperty self propid v).
Proof.
  unfold WriteProperty. registry_same_tac.
  - by apply frames_on_object_registry_same.
  - apply frames_on_object_registry_same, keeps_check_criteria.
Qed.

Lemma frames_confirmation_same apdu :
  frames registry_same (confirmation apdu).
Proof.
  unfold confirmation, super_confirmation, cov_error, cov_reject, cov_abort.
  registry_same_tac.
Qed.

(** *** Steps of the task manager *)

Lemma sub_evolves_refl b s : sub_evolves b s s.
Proof. repeat split; try done. by left. Qed.

Lemma sub_evolves_trans b s1 s2 s3 :
  sub_evolves b s1 s2 → sub_evolves b s2 s3 → sub_evolves b s1 s3.
Proof.
  intros (Ha1 & Ha2 & Ha3 & Ha4 & Ha5 & Ha6 & Ha7 & Ha8)
         (Hb1 & Hb2 & Hb3 & Hb4 & Hb5 & Hb6 & Hb7 & Hb8).
  repeat split; try congruence.
  - intros H. by apply Hb7, Ha7.
  - intros H. destruct (Hb8 H) as [H2|[Hm Ht]]; [|by right].
    destruct (Ha8 H2) as [H1|[Hm Ht]]; [by left|].
    right. split; [done|]. by apply Hb7.
Qed.

#[local] Instance schedule_frame_refl cov : Reflexive (schedule_frame cov).
Proof.
  intros w. repeat split. intros c.
  destruct (subscriptions w !! c); [apply sub_evolves_refl|done].
Qed.

#[local] Instance schedule_frame_trans cov : Transitive (schedule_frame cov).
Proof.
  intros w1 w2 w3 (Ho1 & Ha1 & Hn1 & (Hq1 & Hr1 & Hm1 & Hs1) & H1)
                  (Ho2 & Ha2 & Hn2 & (Hq2 & Hr2 & Hm2 & Hs2) & H2).
  split; [congruence|]. split; [congruence|]. split; [congruence|].
  split; [repeat split; congruence|].
  intros c. specialize (H1 c). specialize (H2 c).
  destruct (subscriptions w1 !! c), (subscriptions w2 !! c),
    (subscriptions w3 !! c); try done.
  by eapply sub_evolves_trans.
Qed.

Lemma schedule_frame_alter cov (f : Subscription → Subscription) w :
  (∀ s, sub_evolves true s (f s)) →
  schedule_frame cov w (set_subscriptions (alter f cov) w).
Proof.
  intros Hf. repeat split. intros c. simpl.
  destruct (decide (cov = c)) as [->|Hne].
  - rewrite lookup_alter_eq. destruct (subscriptions w !! c); [|done].
    simpl. rewrite bool_decide_eq_true_2 by done. apply Hf.
  - rewrite lookup_alter_ne by done.
    destruct (subscriptions w !! c); [apply sub_evolves_refl|done].
Qed.

Lemma frames_suspend_task_schedule cov :
  frames (schedule_frame cov) (suspend_task cov).
Proof.
  intros w. apply schedule_frame_alter. intros s. by repeat split.
Qed.

Lemma frames_install_task_schedule cov delta :
  frames (schedule_frame cov) (install_task cov delta).
Proof.
  unfold install_task.
  apply frames_bind; [apply _|apply frames_get_subscription; apply _|].
  intros s.
  apply frames_bind; [apply _|apply frames_get_time; apply _|].
  intros t.
  destruct (match delta with Some d => _ | None => _ end) as [t'|];
    [|apply frames_raise; apply _].
  intros w. apply schedule_frame_alter. intros s0.
  do 6 (split; [done|]). simpl.
  split; [intros _; by eexists|].
  intros _. right. split; [done|by eexists].
Qed.

Lemma frames_renew_subscription_schedule cov lifetime :
  frames (schedule_frame cov) (renew_subscription cov lifetime).
Proof.
  unfold renew_subscription.
  apply frames_bind; [apply _|apply frames_get_subscription; apply _|].
  intros s. apply frames_bind; [apply _| |intros _].
  - destruct (isScheduled s);
      [apply frames_suspend_task_schedule|apply frames_ret; apply _].
  - destruct (lifetime_ne_0 lifetime);
      [apply frames_install_task_schedule|apply frames_ret; apply _].
Qed.

Lemma registered_evolves cov w w' c k :
  schedule_frame cov w w' → registered w' c k ↔ registered w c k.
Proof.
  intros (_ & _ & _ & _ & Hsub). specialize (Hsub c). unfold registered.
  destruct (subscriptions w !! c) as [s|], (subscriptions w' !! c) as [s'|];
    try done.
  destruct Hsub as (Href & _). split; intros (s0 & [= <-] & Hk);
    eexists; (split; [done|]); congruence.
Qed.

Lemma registry_inv_schedule_frame cov w w' :
  schedule_frame cov w w' → (∃ k, registered w cov k) →
  registry_inv w → registry_inv w'.
Proof.
  intros Hframe Hreg [H1 H2 H3 H4 H5 H6 H7 H8 H9 H10].
  pose proof Hframe as (Ho & Ha & Hn & _ & Hsub).
  assert (Hback : ∀ c s', subscriptions w' !! c = Some s' →
            ∃ s, subscriptions w !! c = Some s ∧
                 sub_evolves (bool_decide (c = cov)) s s').
  { intros c s' Hs'. specialize (Hsub c). rewrite Hs' in Hsub.
    destruct (subscriptions w !! c) as [s|]; [|done]. by exists s. }
  split.
  - intros c [s' Hs']. destruct (Hback c s' Hs') as (s & Hs & _).
    rewrite Hn. apply H1. by eexists.
  - by rewrite Ha.
  - intros c. rewrite Ha, H3.
    by setoid_rewrite (registered_evolves cov w w' c).
  - intros k o. rewrite Ho. apply H4.
  - intros k o c. rewrite Ho, (registered_evolves cov w w' c k Hframe).
    apply H5.
  - intros c k. rewrite Ho, (registered_evolves cov w w' c k Hframe).
    apply H6.
  - intros c s' k Hs' Hk. destruct (Hback c s' Hs') as (s & Hs & He).
    destruct He as (Href & _ & _ & Hid & _). rewrite Hid.
    apply (H7 c s k Hs). congruence.
  - intros c s' Hs' Hl. destruct (Hback c s' Hs') as (s & Hs & He).
    destruct He as (_ & _ & _ & _ & _ & Hlife & Htime & _).
    apply Htime, (H8 c s Hs). congruence.
  - intros c s' Hs' Hsch. destruct (Hback c s' Hs') as (s & Hs & He).
    destruct He as (Href & _ & _ & _ & _ & _ & Htime & Hsched).
    destruct (Hsched Hsch) as [Hold|[Hc Ht]].
    + destruct (H9 c s Hs Hold) as [Hr Ht]. split; [by rewrite Href|].
      by apply Htime.
    + split; [|done]. apply bool_decide_eq_true in Hc. subst c.
      destruct Hreg as (k & s0 & Hs0 & Hk). rewrite Href.
      rewrite Hs in Hs0. injection Hs0 as ->. by eexists.
  - intros c1 c2 s1' s2' Hs1' Hs2' Hr1 Hr2 Hm.
    destruct (Hback c1 s1' Hs1') as (s1 & Hs1 & He1).
    destruct (Hback c2 s2' Hs2') as (s2 & Hs2 & He2).
    destruct He1 as (Href1 & Hc1 & Hp1 & Hi1 & _).
    destruct He2 as (Href2 & Hc2 & Hp2 & Hi2 & _).
    apply (H10 c1 c2 s1 s2 Hs1 Hs2); [congruence|congruence|].
    unfold matches in *. by rewrite <- Hc1, <- Hp1, <- Hi1, <- Hc2, <- Hp2, <- Hi2.
Qed.

(** *** The runs of the methods of the registry *)

Lemma find_loop_spec (w : World) (covs : list subref)
    (client : addr) (proc : Z) (oid : objid) :
  (∀ c, c ∈ covs → is_Some (subscriptions w !! c)) →
  ∃ r, find_loop covs client proc oid w = (Ok r, w) ∧
       match r with
       | Some cov =>
           ∃ l1 l2 s,
             covs = l1 ++ cov :: l2 ∧
             subscriptions w !! cov = Some s ∧
             matches client proc oid s = true ∧
             ∀ c s', c ∈ l1 → subscriptions w !! c = Some s' →
                     matches client proc oid s' = false
       | None =>
           ∀ c s', c ∈ covs → subscriptions w !! c = Some s' →
                   matches client proc oid s' = false
       end.
Proof.
  induction covs as [|c covs IH]; intros Hvalid.
  - exists None. split; [done|]. by intros c s' ?%elem_of_nil.
  - destruct (Hvalid c) as [s Hs]; [by left|].
    simpl. unfold bind, get_subscription. rewrite Hs.
    fold (matches client proc oid s).
    destruct (matches client proc oid s) eqn:Hm.
    + exists (Some c). split; [done|]. exists [], covs, s.
      repeat split; try done. by intros c' s' ?%elem_of_nil.
    + destruct IH as (r & Hrun & Hr).
      { intros c' Hc'. apply Hvalid. by right. }
      exists r. split; [exact Hrun|]. destruct r as [cov|].
      * destruct Hr as (l1 & l2 & s0 & -> & Hs0 & Hm0 & Hbefore).
        exists (c :: l1), l2, s0. repeat split; try done.
        intros c' s' [->|Hc']%elem_of_cons Hs'; [congruence|].
        by apply (Hbefore c').
      * intros c' s' [->|Hc']%elem_of_cons Hs'; [congruence|].
        by apply (Hr c').
Qed.

Lemma cancel_subscription_run (w : World) (cov : subref) (s : Subscription)
    (k : objid) (o : COVObject) (l_obj l_app : list subref) :
  subscriptions w !! cov = Some s → obj_ref s = Some k →
  objects w !! k = Some o →
  list_remove cov (_cov_subscriptions o) = Ok l_obj →
  list_remove cov (active_cov_subscriptions w) = Ok l_app →
  cancel_subscription cov w = (Ok tt, cancelled cov k o l_obj l_app w).
Proof.
  intros Hs Hk Ho Hobj Happ.
  unfold cancel_subscription, bind, suspend_task, update_subscription,
    modify, get_subscription, SubscriptionList_remove, on_object, get, raise.
  simpl. rewrite lookup_alter_eq, Hs. simpl. rewrite Hk. simpl.
  rewrite Ho, Hobj. simpl. rewrite lookup_alter_eq, Hs. simpl. rewrite Hk.
  cbn. by rewrite Happ.
Qed.

Lemma Subscription_init_run (w : World) (k : objid) (o : COVObject)
    (client : addr) (proc : Z) (conf : option bool) (n : Z) :
  objects w !! k = Some o →
  Subscription_init k client proc k conf (Some n) w
  = (Ok (next_subref w),
     created (new_Subscription k client proc conf n (now w)) k o w).
Proof.
  intros Ho.
  unfold Subscription_init, bind, new_subscription, SubscriptionList_append,
    on_object, modify, get_subscription, install_task, get_time. simpl.
  rewrite Ho. simpl. unfold created, new_Subscription.
  destruct (n =? 0) eqn:Hn; simpl; [done|].
  rewrite lookup_insert_eq. unfold bind, get_subscription. simpl.
  rewrite lookup_insert_eq. simpl.
  unfold update_subscription, modify, set_subscriptions. simpl.
  by rewrite alter_insert_eq.
Qed.

Lemma Subscription_init_run_None (w : World) (k : objid) (o : COVObject)
    (client : addr) (proc : Z) (conf : option bool) :
  objects w !! k = Some o →
  Subscription_init k client proc k conf None w
  = (Raise RuntimeError,
     created (mkSubscription (Some k) client proc k conf None None false)
             k o w).
Proof.
  intros Ho.
  unfold Subscription_init, bind, new_subscription, SubscriptionList_append,
    on_object, modify, get_subscription, install_task, get_time. simpl.
  rewrite Ho. simpl. rewrite lookup_insert_eq.
  unfold bind, get_subscription. simpl. by rewrite lookup_insert_eq.
Qed.

(** *** The invariant of the registry is kept *)

Lemma registered_unique w c k k' :
  registered w c k → registered w c k' → k = k'.
Proof. intros (s & Hs & Hk) (s' & Hs' & Hk'). congruence. Qed.

Lemma registered_cancelled w cov k o l_obj l_app c k' :
  registered (cancelled cov k o l_obj l_app w) c k'
  ↔ registered w c k' ∧ c ≠ cov.
Proof.
  unfold registered. simpl. destruct (decide (cov = c)) as [->|Hne].
  - rewrite !lookup_alter_eq. split.
    + intros (s & Hs & Hk). destruct (subscriptions w !! c); [|done].
      simpl in Hs. injection Hs as <-. done.
    + by intros [_ ?].
  - rewrite !lookup_alter_ne by done. split; [|tauto].
    intros H. split; [done|]. by intros ->.
Qed.

Lemma registry_inv_cancelled (w : World) (cov : subref) (k : objid)
    (o : COVObject) (l_obj l_app : list subref) :
  registry_inv w → registered w cov k → objects w !! k = Some o →
  NoDup l_obj → (∀ y, y ∈ l_obj ↔ y ∈ _cov_subscriptions o ∧ y ≠ cov) →
  NoDup l_app → (∀ y, y ∈ l_app ↔ y ∈ active_cov_subscriptions w ∧ y ≠ cov) →
  registry_inv (cancelled cov k o l_obj l_app w).
Proof.
  intros [H1 H2 H3 H4 H5 H6 H7 H8 H9 H10] Hreg Ho Hnd1 Hl1 Hnd2 Hl2.
  assert (Hsub : ∀ c s', subscriptions (cancelled cov k o l_obj l_app w) !! c
                         = Some s' →
            ∃ s, subscriptions w !! c = Some s ∧
                 client_addr s' = client_addr s ∧ proc_id s' = proc_id s ∧
                 obj_id s' = obj_id s ∧ lifetime s' = lifetime s ∧
                 taskTime s' = taskTime s ∧
                 (is_Some (obj_ref s') → obj_ref s' = obj_ref s) ∧
                 (isScheduled s' = true →
                  isScheduled s = true ∧ is_Some (obj_ref s'))).
  { intros c s'. simpl. destruct (decide (cov = c)) as [->|Hne].
    - rewrite !lookup_alter_eq.
      destruct (subscriptions w !! c) as [s|]; [|done]. simpl.
      intros [= <-]. exists s. do 6 (split; [done|]). simpl.
      split; [by intros [? ?]|done].
    - rewrite !lookup_alter_ne by done. intros Hs. exists s'.
      do 7 (split; [done|]). intros Hsch. split; [done|].
      by destruct (H9 c s' Hs Hsch). }
  split.
  - intros c [s' Hs']. destruct (Hsub c s' Hs') as (s & Hs & _).
    simpl. apply H1. by eexists.
  - exact Hnd2.
  - intros c. simpl. rewrite Hl2, H3.
    setoid_rewrite registered_cancelled. split.
    + intros [(k' & Hr) Hne]. by exists k'.
    + intros (k' & Hr & Hne). split; [by exists k'|done].
  - intros k' o'. simpl. destruct (decide (k = k')) as [->|Hne].
    + rewrite lookup_insert_eq. by intros [= <-].
    + rewrite lookup_insert_ne by done. apply H4.
  - intros k' o' c. simpl. rewrite registered_cancelled.
    destruct (decide (k = k')) as [->|Hne].
    + rewrite lookup_insert_eq. intros [= <-]. simpl.
      by rewrite Hl1, (H5 k' o c Ho).
    + rewrite lookup_insert_ne by done. intros Ho'.
      rewrite (H5 k' o' c Ho'). split; [|tauto].
      intros Hr. split; [done|]. intros ->.
      apply Hne. by apply (registered_unique w cov).
  - intros c k'. rewrite registered_cancelled. intros [Hr _].
    simpl. apply lookup_insert_is_Some'. right. by apply (H6 c).
  - intros c s' k' Hs' Hk'. destruct (Hsub c s' Hs')
      as (s & Hs & _ & _ & Hid & _ & _ & Href & _).
    rewrite Hid. apply (H7 c s k' Hs). rewrite <- Href; [done|].
    rewrite Hk'. by eexists.
  - intros c s' Hs' Hl. destruct (Hsub c s' Hs')
      as (s & Hs & _ & _ & _ & Hlife & Htime & _).
    rewrite Htime. apply (H8 c s Hs). by rewrite <- Hlife.
  - intros c s' Hs' Hsch. destruct (Hsub c s' Hs')
      as (s & Hs & _ & _ & _ & _ & Htime & _ & Hsched).
    destruct (Hsched Hsch) as [Hold Hr]. split; [done|].
    rewrite Htime. by destruct (H9 c s Hs Hold).
  - intros c1 c2 s1' s2' Hs1' Hs2' Hr1 Hr2 Hm.
    destruct (Hsub c1 s1' Hs1')
      as (s1 & Hs1 & Hc1 & Hp1 & Hi1 & _ & _ & Href1 & _).
    destruct (Hsub c2 s2' Hs2')
      as (s2 & Hs2 & Hc2 & Hp2 & Hi2 & _ & _ & Href2 & _).
    apply (H10 c1 c2 s1 s2 Hs1 Hs2).
    + rewrite <- Href1; done.
    + rewrite <- Href2; done.
    + unfold matches in *.
      by rewrite <- Hc1, <- Hp1, <- Hi1, <- Hc2, <- Hp2, <- Hi2.
Qed.

Lemma registered_created w s k o c k' :
  subrefs_fresh w →
  registered (created s k o w) c k'
  ↔ registered w c k' ∨ (c = next_subref w ∧ obj_ref s = Some k').
Proof.
  intros Hfresh. unfold registered. simpl.
  destruct (decide (next_subref w = c)) as [<-|Hne].
  - rewrite lookup_insert_eq. split.
    + intros (s' & [= <-] & Hk). by right.
    + intros [(s' & Hs' & _)|[_ Hk]]; [|by exists s].
      assert (next_subref w < next_subref w)%nat; [|lia].
      apply Hfresh. by eexists.
  - rewrite lookup_insert_ne by done. split; [by left|].
    intros [?|[-> _]]; done.
Qed.

Lemma registry_inv_created (w : World) (s : Subscription) (k : objid)
    (o : COVObject) :
  registry_inv w → objects w !! k = Some o →
  obj_ref s = Some k → obj_id s = k →
  (truthy_lifetime (lifetime s) = true → is_Some (taskTime s)) →
  (isScheduled s = true → is_Some (taskTime s)) →
  no_match w (client_addr s) (proc_id s) (obj_id s) →
  registry_inv (created s k o w).
Proof.
  intros [H1 H2 H3 H4 H5 H6 H7 H8 H9 H10] Ho Hk Hid Htask Hsch Hno.
  set (self := next_subref w).
  assert (Hself : subscriptions w !! self = None).
  { destruct (subscriptions w !! self) eqn:Hs; [|done].
    assert (self < self)%nat; [|lia]. apply H1. by eexists. }
  assert (Hnotin : ∀ k', ¬ registered w self k').
  { intros k' (s' & Hs' & _). congruence. }
  assert (Hsub : ∀ c s', subscriptions (created s k o w) !! c = Some s' →
            (c = self ∧ s' = s) ∨ (c ≠ self ∧ subscriptions w !! c = Some s')).
  { intros c s'. simpl. destruct (decide (self = c)) as [<-|Hne].
    - rewrite lookup_insert_eq. intros [= <-]. by left.
    - rewrite lookup_insert_ne by done. intros Hs. right. by split. }
  split.
  - intros c [s' Hs']. simpl. destruct (Hsub c s' Hs') as [[-> _]|[_ Hs]].
    + unfold self. lia.
    + assert (c < next_subref w)%nat; [|lia]. apply H1. by eexists.
  - simpl. apply NoDup_app. repeat split; [done| |apply NoDup_singleton].
    intros c Hc ->%list_elem_of_singleton.
    apply H3 in Hc as (k' & Hr). by apply (Hnotin k').
  - intros c. simpl. rewrite elem_of_app, list_elem_of_singleton, H3.
    setoid_rewrite (registered_created w s k o c); [|done]. split.
    + intros [(k' & Hr)| ->]; [exists k'; by left|].
      exists k. right. by split.
    + intros (k' & [Hr|[-> _]]); [left; by exists k'|by right].
  - intros k' o'. simpl. destruct (decide (k = k')) as [->|Hne].
    + rewrite lookup_insert_eq. intros [= <-]. simpl.
      apply NoDup_app. repeat split; [by eapply H4| |apply NoDup_singleton].
      intros c Hc ->%list_elem_of_singleton.
      apply (H5 k' o _ Ho) in Hc. by apply (Hnotin k').
    + rewrite lookup_insert_ne by done. apply H4.
  - intros k' o' c. simpl. rewrite (registered_created w s k o c k' H1).
    destruct (decide (k = k')) as [->|Hne].
    + rewrite lookup_insert_eq. intros [= <-]. simpl.
      rewrite elem_of_app, list_elem_of_singleton, (H5 k' o c Ho).
      split; (intros [?|?]; [by left|right]); [by split|tauto].
    + rewrite lookup_insert_ne by done. intros Ho'.
      rewrite (H5 k' o' c Ho'). split; [by left|].
      intros [?|[_ Hk']]; [done|]. congruence.
  - intros c k'. rewrite (registered_created w s k o c k' H1). simpl.
    intros [Hr|[_ Hk']]; apply lookup_insert_is_Some'.
    + right. by apply (H6 c).
    + left. congruence.
  - intros c s' k' Hs' Hk'. destruct (Hsub c s' Hs') as [[_ ->]|[_ Hs]].
    + congruence.
    + by apply (H7 c s' k').
  - intros c s' Hs'. destruct (Hsub c s' Hs') as [[_ ->]|[_ Hs]];
      [done|by apply (H8 c)].
  - intros c s' Hs' Hsched. destruct (Hsub c s' Hs') as [[_ ->]|[_ Hs]].
    + split; [rewrite Hk; by eexists|by apply Hsch].
    + by apply (H9 c).
  - intros c1 c2 s1 s2 Hs1 Hs2 Hr1 Hr2 Hm.
    destruct (Hsub c1 s1 Hs1) as [[-> ->]|[Hn1 Hs1']],
             (Hsub c2 s2 Hs2) as [[-> ->]|[Hn2 Hs2']]; [done| | |].
    + rewrite (Hno c2 s2 Hs2' Hr2) in Hm. discriminate.
    + assert (Hm' : matches (client_addr s) (proc_id s) (obj_id s) s1 = true).
      { unfold matches in *.
        apply andb_true_iff in Hm as [Hm Hm3].
        apply andb_true_iff in Hm as [Hm1 Hm2].
        apply bool_decide_eq_true in Hm1, Hm2, Hm3.
        rewrite !bool_decide_eq_true_2; done. }
      rewrite (Hno c1 s1 Hs1' Hr1) in Hm'. discriminate.
    + by apply (H10 c1 c2 s1 s2).
Qed.

Lemma do_SubscribeCOVRequest_found (apdu : SubscribeCOVRequest) (w : World)
    (o : COVObject) (cov : subref) :
  objects w !! scr_monitoredObjectIdentifier apdu = Some o →
  find_loop (_cov_subscriptions o) (scr_pduSource apdu)
    (scr_subscriberProcessIdentifier apdu)
    (scr_monitoredObjectIdentifier apdu) w = (Ok (Some cov), w) →
  do_SubscribeCOVRequest apdu w
  = bind (if is_cancellation apdu then cancel_subscription cov
          else renew_subscription cov (scr_lifetime apdu))
         (λ _, response (SimpleAck apdu)) w.
Proof.
  intros Ho Hfind.
  unfold do_SubscribeCOVRequest, SubscriptionList_find, get_object, get,
    is_cancellation, bind.
  simpl. rewrite Ho. simpl. rewrite ?Ho. simpl. rewrite Hfind. reflexivity.
Qed.

Lemma do_SubscribeCOVRequest_not_found (apdu : SubscribeCOVRequest)
    (w : World) (o : COVObject) :
  objects w !! scr_monitoredObjectIdentifier apdu = Some o →
  find_loop (_cov_subscriptions o) (scr_pduSource apdu)
    (scr_subscriberProcessIdentifier apdu)
    (scr_monitoredObjectIdentifier apdu) w = (Ok None, w) →
  do_SubscribeCOVRequest apdu w
  = bind (if is_cancellation apdu then ret tt
          else bind (Subscription_init (scr_monitoredObjectIdentifier apdu)
                       (scr_pduSource apdu)
                       (scr_subscriberProcessIdentifier apdu)
                       (scr_monitoredObjectIdentifier apdu)
                       (issueConfirmedNotifications apdu)
                       (scr_lifetime apdu))
                    (λ _, ret tt))
         (λ _, response (SimpleAck apdu)) w.
Proof.
  intros Ho Hfind.
  unfold do_SubscribeCOVRequest, SubscriptionList_find, get_object, get,
    is_cancellation, bind.
  simpl. rewrite Ho. simpl. rewrite ?Ho. simpl. rewrite Hfind. reflexivity.
Qed.

Lemma registry_same_set_responses w f : registry_same w (set_responses f w).
Proof. by repeat split. Qed.

Lemma registry_same_set_now w t : registry_same w (set_now t w).
Proof. by repeat split. Qed.

Lemma registry_inv_find (w : World) (k : objid) (o : COVObject)
    (client : addr) (proc : Z) :
  registry_inv w → objects w !! k = Some o →
  ∃ r, find_loop (_cov_subscriptions o) client proc k w = (Ok r, w) ∧
       match r with
       | Some cov =>
           ∃ s, subscriptions w !! cov = Some s ∧ obj_ref s = Some k ∧
                matches client proc k s = true
       | None => no_match w client proc k
       end.
Proof.
  intros Hinv Ho.
  destruct (find_loop_spec w (_cov_subscriptions o) client proc k)
    as (r & Hrun & Hr).
  { intros c Hc. apply (reg_list w Hinv k o c Ho) in Hc as (s & Hs & _).
    by eexists. }
  exists r. split; [exact Hrun|]. destruct r as [cov|].
  - destruct Hr as (l1 & l2 & s & Hl & Hs & Hm & _).
    assert (Hin : cov ∈ _cov_subscriptions o).
    { rewrite Hl. apply elem_of_app. right. by left. }
    apply (reg_list w Hinv k o cov Ho) in Hin as (s' & Hs' & Hk).
    exists s. split; [done|]. split; [congruence|done].
  - intros c s Hs [k' Hk'].
    destruct (matches client proc k s) eqn:Hm; [|done].
    assert (Hid : obj_id s = k).
    { unfold matches in Hm. apply andb_true_iff in Hm as [_ Hm].
      by apply bool_decide_eq_true in Hm. }
    pose proof (reg_obj_id w Hinv c s k' Hs Hk') as Hid'.
    assert (Hin : c ∈ _cov_subscriptions o).
    { apply (reg_list w Hinv k o c Ho). exists s. split; [done|]. congruence. }
    by rewrite (Hr c s Hin Hs) in Hm.
Qed.

(** A registered subscription can be cancelled: the method returns and the
    subscription is out of the two lists. *)
Lemma cancel_subscription_registered (w : World) (cov : subref) (k : objid) :
  registry_inv w → registered w cov k →
  ∃ o l_obj l_app,
    objects w !! k = Some o ∧
    cancel_subscription cov w = (Ok tt, cancelled cov k o l_obj l_app w) ∧
    NoDup l_obj ∧ (∀ y, y ∈ l_obj ↔ y ∈ _cov_subscriptions o ∧ y ≠ cov) ∧
    NoDup l_app ∧
    (∀ y, y ∈ l_app ↔ y ∈ active_cov_subscriptions w ∧ y ≠ cov) ∧
    registry_inv (cancelled cov k o l_obj l_app w).
Proof.
  intros Hinv Hreg. pose proof Hreg as (s & Hs & Hk).
  destruct (reg_object w Hinv cov k Hreg) as [o Ho].
  destruct (list_remove_NoDup cov (_cov_subscriptions o))
    as (l_obj & Hrem1 & Hnd1 & Hl1).
  { by apply (reg_list_nodup w Hinv k). }
  { by apply (reg_list w Hinv k o cov Ho). }
  destruct (list_remove_NoDup cov (active_cov_subscriptions w))
    as (l_app & Hrem2 & Hnd2 & Hl2).
  { apply (reg_active_nodup w Hinv). }
  { apply (reg_active w Hinv). by exists k. }
  exists o, l_obj, l_app. split; [done|].
  split; [by apply (cancel_subscription_run w cov s k o)|].
  do 4 (split; [done|]). by apply registry_inv_cancelled.
Qed.

Lemma registry_inv_do_SubscribeCOVRequest apdu w :
  registry_inv w → registry_inv (snd (do_SubscribeCOVRequest apdu w)).
Proof.
  intros Hinv.
  destruct (objects w !! scr_monitoredObjectIdentifier apdu) as [o|] eqn:Ho.
  2:{ unfold do_SubscribeCOVRequest, bind, get. simpl. rewrite Ho.
      eapply registry_inv_same; [|exact Hinv].
      apply registry_same_set_responses. }
  destruct (registry_inv_find w _ o (scr_pduSource apdu)
              (scr_subscriberProcessIdentifier apdu) Hinv Ho)
    as (r & Hfind & Hr).
  destruct r as [cov|].
  - destruct Hr as (s & Hs & Hk & Hm).
    assert (Hreg : registered w cov (scr_monitoredObjectIdentifier apdu)).
    { by exists s. }
    rewrite (do_SubscribeCOVRequest_found apdu w o cov Ho Hfind).
    unfold bind. destruct (is_cancellation apdu).
    + destruct (cancel_subscription_registered w cov _ Hinv Hreg)
        as (o' & l_obj & l_app & _ & -> & _ & _ & _ & _ & Hinv').
      simpl. eapply registry_inv_same; [|exact Hinv'].
      apply registry_same_set_responses.
    + pose proof (frames_renew_subscription_schedule cov (scr_lifetime apdu) w)
        as Hframe.
      destruct (renew_subscription cov (scr_lifetime apdu) w) as [[[]|e] w1];
        simpl in *.
      * eapply registry_inv_same; [apply registry_same_set_responses|].
        eapply registry_inv_schedule_frame; [exact Hframe| |exact Hinv].
        by eexists.
      * eapply registry_inv_schedule_frame; [exact Hframe| |exact Hinv].
        by eexists.
  - rewrite (do_SubscribeCOVRequest_not_found apdu w o Ho Hfind).
    unfold bind. destruct (is_cancellation apdu).
    + simpl. eapply registry_inv_same; [|exact Hinv].
      apply registry_same_set_responses.
    + destruct (scr_lifetime apdu) as [n|].
      * rewrite (Subscription_init_run w _ o _ _ _ n Ho). simpl.
        eapply registry_inv_same; [apply registry_same_set_responses|].
        apply registry_inv_created; try done.
        -- unfold new_Subscription. simpl. unfold truthy_lifetime.
           destruct (n =? 0); [done|]. by eexists.
        -- unfold new_Subscription. simpl.
           destruct (n =? 0); [done|]. by eexists.
      * rewrite (Subscription_init_run_None w _ o _ _ _ Ho). simpl.
        by apply registry_inv_created.
Qed.

Lemma registry_inv_expire cov w :
  registry_inv w → due w cov = true →
  registry_inv (snd ((suspend_task cov ;;; process_task cov) w)) ∧
  fst ((suspend_task cov ;;; process_task cov) w) = Ok tt.
Proof.
  intros Hinv Hdue. unfold due in Hdue.
  destruct (subscriptions w !! cov) as [s|] eqn:Hs; [|done].
  apply andb_true_iff in Hdue as [Hsch _].
  destruct (reg_scheduled w Hinv cov s Hs Hsch) as [[k Hk] _].
  assert (Hreg : registered w cov k) by by exists s.
  set (w1 := snd (suspend_task cov w)).
  assert (Hframe : schedule_frame cov w w1).
  { apply frames_suspend_task_schedule. }
  assert (Hinv1 : registry_inv w1).
  { eapply registry_inv_schedule_frame; [exact Hframe| |exact Hinv].
    by exists k. }
  assert (Hreg1 : registered w1 cov k).
  { by apply (registered_evolves cov w w1). }
  destruct (cancel_subscription_registered w1 cov k Hinv1 Hreg1)
    as (o' & l_obj & l_app & _ & Hrun & _ & _ & _ & _ & Hinv').
  unfold bind, process_task.
  change (suspend_task cov w) with (@Ok unit tt, w1).
  lazy beta iota. rewrite Hrun. by split.
Qed.

Lemma ReadProperty_pure w : snd (ReadProperty w) = w.
Proof.
  unfold ReadProperty, bind, get_time, get. simpl.
  generalize (now w). generalize (active_cov_subscriptions w).
  intros covs t. 
  assert (H : ∀ w0, snd (read_loop t covs w0) = w0).
  { induction covs as [|c covs IH]; intros w0; [done|]. simpl.
    unfold bind, get_subscription, lift_result.
    destruct (subscriptions w0 !! c) as [s|]; [|done].
    destruct (time_remaining s t); [|done].
    destruct (obj_ref s) as [k|]; [|done].
    unfold get_object. destruct (objects w0 !! k) as [o|]; [|done].
    simpl. destruct (_monitored_property_reference (obj_class o)); [|done].
    simpl. specialize (IH w0).
    destruct (read_loop t covs w0) as [[l|e] w1]; simpl in *; by subst. }
  apply H.
Qed.

Lemma registry_inv_run_event e w : registry_inv w → registry_inv (run_event e w).
Proof.
  intros Hinv. destruct e as [apdu|obj propid v|obj|apdu|t|cov|]; simpl.
  - by apply registry_inv_do_SubscribeCOVRequest.
  - eapply registry_inv_same; [|exact Hinv]. apply frames_WriteProperty_same.
  - eapply registry_inv_same; [|exact Hinv].
    apply frames_send_cov_notifications_same.
  - eapply registry_inv_same; [|exact Hinv]. apply frames_confirmation_same.
  - destruct (Qle_bool (now w) t); [|exact Hinv].
    eapply registry_inv_same; [|exact Hinv]. apply registry_same_set_now.
  - destruct (due w cov) eqn:Hdue; [|exact Hinv].
    by apply registry_inv_expire.
  - by rewrite ReadProperty_pure.
Qed.

Lemma registry_inv_initial w : initial w → registry_inv w.
Proof.
  intros (Hsubs & Hact & _ & _ & _ & Hobj).
  assert (Hno : ∀ c k, ¬ registered w c k).
  { intros c k (s & Hs & _). by rewrite Hsubs, lookup_empty in Hs. }
  split.
  - intros c. rewrite Hsubs, lookup_empty. by intros [? ?].
  - rewrite Hact. constructor.
  - intros c. rewrite Hact. split; [by intros ?%elem_of_nil|].
    intros (k & Hr). by apply Hno in Hr.
  - intros k o Ho. rewrite (Hobj k o Ho). constructor.
  - intros k o c Ho. rewrite (Hobj k o Ho). split; [by intros ?%elem_of_nil|].
    intros Hr. by apply Hno in Hr.
  - intros c k Hr. by apply Hno in Hr.
  - intros c s k. by rewrite Hsubs, lookup_empty.
  - intros c s. by rewrite Hsubs, lookup_empty.
  - intros c s. by rewrite Hsubs, lookup_empty.
  - intros c1 c2 s1 s2. by rewrite Hsubs, lookup_empty.
Qed.

Lemma reachable_registry_inv w : reachable w → registry_inv w.
Proof.
  induction 1 as [w Hinit|e w _ IH].
  - by apply registry_inv_initial.
  - by apply registry_inv_run_event.
Qed.

(** *** Properties of the registry *)

(** X10. In every reachable state the list of the application and the
    lists of the objects have no duplicates; a subscription is in the list
    of the application exactly when it refers to an object, and in the list
    of an object exactly when it refers to that object; a cancelled
    subscription is in no list; and no two registered subscriptions have
    the same client, process identifier and object. *)
Theorem registry_lists_consistent (w : World) :
  reachable w →
  NoDup (active_cov_subscriptions w) ∧
  (∀ c, c ∈ active_cov_subscriptions w ↔ ∃ k, registered w c k) ∧
  (∀ k o, objects w !! k = Some o →
          NoDup (_cov_subscriptions o) ∧
          ∀ c, c ∈ _cov_subscriptions o ↔ registered w c k) ∧
  (∀ c s, subscriptions w !! c = Some s → obj_ref s = None →
          (c ∉ active_cov_subscriptions w) ∧
          ∀ k o, objects w !! k = Some o → c ∉ _cov_subscriptions o) ∧
  (∀ c1 c2 s1 s2 k1 k2,
     subscriptions w !! c1 = Some s1 → subscriptions w !! c2 = Some s2 →
     obj_ref s1 = Some k1 → obj_ref s2 = Some k2 →
     client_addr s1 = client_addr s2 → proc_id s1 = proc_id s2 →
     obj_id s1 = obj_id s2 → c1 = c2).
Proof.
  intros Hreach. pose proof (reachable_registry_inv w Hreach) as Hinv.
  split; [apply (reg_active_nodup w Hinv)|].
  split; [apply (reg_active w Hinv)|].
  split.
  { intros k o Ho. split; [by apply (reg_list_nodup w Hinv k)|].
    intros c. by apply (reg_list w Hinv). }
  split.
  { intros c s Hs Hnone. split.
    - intros (k & s' & Hs' & Hk)%(reg_active w Hinv). congruence.
    - intros k o Ho (s' & Hs' & Hk)%(reg_list w Hinv k o c Ho). congruence. }
  intros c1 c2 s1 s2 k1 k2 Hs1 Hs2 Hk1 Hk2 Hc Hp Hi.
  apply (reg_unique w Hinv c1 c2 s1 s2 Hs1 Hs2).
  - rewrite Hk1. by eexists.
  - rewrite Hk2. by eexists.
  - unfold matches. by rewrite !bool_decide_eq_true_2.
Qed.

Lemma registry_lists_consistent_witness :
  NoDup (active_cov_subscriptions two_pending) ∧
  (∀ c, c ∈ active_cov_subscriptions two_pending
        ↔ ∃ k, registered two_pending c k).
Proof.
  destruct (registry_lists_consistent two_pending reachable_two_pending)
    as (H1 & H2 & _).
  exact (conj H1 H2).
Defined.

(** X11. In every reachable state [SubscriptionList.find] on the list of
    an object returns without raising and changes nothing; it returns the
    first subscription of the list whose client, process identifier and
    object identifier are all equal to the ones given, and [None] when the
    list has no such subscription. *)
Theorem find_returns_first_match (w : World) (k : objid) (o : COVObject)
    (client : addr) (proc : Z) (oid : objid) :
  reachable w → objects w !! k = Some o →
  ∃ r, SubscriptionList_find k client proc oid w = (Ok r, w) ∧
       match r with
       | Some cov =>
           ∃ l1 l2 s,
             _cov_subscriptions o = l1 ++ cov :: l2 ∧
             subscriptions w !! cov = Some s ∧
             matches client proc oid s = true ∧
             ∀ c s', c ∈ l1 → subscriptions w !! c = Some s' →
                     matches client proc oid s' = false
       | None =>
           ∀ c s', c ∈ _cov_subscriptions o →
                   subscriptions w !! c = Some s' →
                   matches client proc oid s' = false
       end.
Proof.
  intros Hreach Ho. pose proof (reachable_registry_inv w Hreach) as Hinv.
  unfold SubscriptionList_find, bind, get_object. rewrite Ho.
  apply find_loop_spec. intros c Hc.
  apply (reg_list w Hinv k o c Ho) in Hc as (s & Hs & _). by eexists.
Qed.

Lemma find_returns_first_match_witness :
  ∃ r, SubscriptionList_find bv1 client 1 bv1 two_pending
       = (Ok r, two_pending) ∧
       match r with
       | Some cov =>
           ∃ l1 l2 s,
             [0%nat] = l1 ++ cov :: l2 ∧
             subscriptions two_pending !! cov = Some s ∧
             matches client 1 bv1 s = true ∧
             ∀ c s', c ∈ l1 → subscriptions two_pending !! c = Some s' →
                     matches client 1 bv1 s' = false
       | None =>
           ∀ c s', c ∈ [0%nat] →
                   subscriptions two_pending !! c = Some s' →
                   matches client 1 bv1 s' = false
       end.
Proof.
  apply (find_returns_first_match two_pending bv1
           (set_cov_subscriptions (λ _, [0%nat])
              (binary "inactive" "inactive"))
           client 1 bv1).
  - exact reachable_two_pending.
  - by vm_compute.
Defined.

(** X12. In every reachable state, a cancellation for an object that is
    there and for keys that no registered subscription has is answered with
    a simple acknowledgement and changes nothing else; it does not
    raise. *)
Theorem cancel_unknown_subscription_is_noop (w : World)
    (apdu : SubscribeCOVRequest) :
  reachable w →
  is_Some (objects w !! scr_monitoredObjectIdentifier apdu) →
  is_cancellation apdu = true →
  (∀ c s, subscriptions w !! c = Some s → is_Some (obj_ref s) →
          matches_request apdu s = false) →
  do_SubscribeCOVRequest apdu w
  = (Ok tt, set_responses (λ l, l ++ [SimpleAck apdu]) w).
Proof.
  intros Hreach [o Ho] Hcancel Hno.
  pose proof (reachable_registry_inv w Hreach) as Hinv.
  destruct (registry_inv_find w _ o (scr_pduSource apdu)
              (scr_subscriberProcessIdentifier apdu) Hinv Ho)
    as (r & Hfind & Hr).
  destruct r as [cov|].
  - destruct Hr as (s & Hs & Hk & Hm).
    unfold matches_request in Hno. rewrite (Hno cov s Hs) in Hm; [done|].
    rewrite Hk. by eexists.
  - rewrite (do_SubscribeCOVRequest_not_found apdu w o Ho Hfind).
    by rewrite Hcancel.
Qed.

Lemma cancel_unknown_subscription_is_noop_witness :
  do_SubscribeCOVRequest (mkSubscribeCOVRequest client 1 bv1 None None)
    device
  = (Ok tt,
     set_responses
       (λ l, l ++ [SimpleAck (mkSubscribeCOVRequest client 1 bv1 None None)])
       device).
Proof.
  apply (cancel_unknown_subscription_is_noop device
           (mkSubscribeCOVRequest client 1 bv1 None None)).
  - constructor. exact initial_device.
  - apply (bool_decide_unpack _). by vm_compute.
  - reflexivity.
  - intros c s Hs.
    change (subscriptions device) with (∅ : gmap subref Subscription) in Hs.
    by rewrite lookup_empty in Hs.
Defined.

Lemma matches_request_keys (apdu : SubscribeCOVRequest) (s : Subscription) :
  matches_request apdu s = true →
  client_addr s = scr_pduSource apdu ∧
  proc_id s = scr_subscriberProcessIdentifier apdu ∧
  obj_id s = scr_monitoredObjectIdentifier apdu.
Proof.
  unfold matches_request, matches.
  intros [[H1 H2]%andb_true_iff H3]%andb_true_iff.
  apply bool_decide_eq_true in H1, H2, H3. done.
Qed.

(** The subscription of a request is the one that [find] returns. *)
Lemma find_registered (w : World) (apdu : SubscribeCOVRequest)
    (cov : subref) (s : Subscription) :
  registry_inv w → subscriptions w !! cov = Some s → is_Some (obj_ref s) →
  matches_request apdu s = true →
  registered w cov (scr_monitoredObjectIdentifier apdu) ∧
  ∃ o, objects w !! scr_monitoredObjectIdentifier apdu = Some o ∧
       find_loop (_cov_subscriptions o) (scr_pduSource apdu)
         (scr_subscriberProcessIdentifier apdu)
         (scr_monitoredObjectIdentifier apdu) w = (Ok (Some cov), w).
Proof.
  intros Hinv Hs [k Hk] Hm.
  destruct (matches_request_keys apdu s Hm) as (Hc & Hp & Hi).
  pose proof (reg_obj_id w Hinv cov s k Hs Hk) as Hid.
  assert (k = scr_monitoredObjectIdentifier apdu) as -> by congruence.
  assert (Hreg : registered w cov (scr_monitoredObjectIdentifier apdu)).
  { by exists s. }
  split; [exact Hreg|].
  destruct (reg_object w Hinv cov _ Hreg) as [o Ho]. exists o.
  split; [exact Ho|].
  destruct (registry_inv_find w _ o (scr_pduSource apdu)
              (scr_subscriberProcessIdentifier apdu) Hinv Ho)
    as (r & Hfind & Hr).
  destruct r as [cov'|].
  - destruct Hr as (s' & Hs' & Hk' & Hm').
    assert (cov = cov') as <-; [|exact Hfind].
    apply (reg_unique w Hinv cov cov' s s' Hs Hs').
    + rewrite Hk. by eexists.
    + rewrite Hk'. by eexists.
    + by rewrite Hc, Hp, Hi.
  - unfold matches_request in Hm. rewrite (Hr cov s Hs) in Hm; [done|].
    rewrite Hk. by eexists.
Qed.

(** What a cancellation leaves behind. *)
Lemma cancelled_facts (w : World) (cov : subref) (k : objid) (o : COVObject)
    (l_obj l_app : list subref) :
  registered w cov k →
  (∀ y, y ∈ l_app ↔ y ∈ active_cov_subscriptions w ∧ y ≠ cov) →
  registry_inv (cancelled cov k o l_obj l_app w) →
  (cov ∉ active_cov_subscriptions (cancelled cov k o l_obj l_app w)) ∧
  (∀ k' o', objects (cancelled cov k o l_obj l_app w) !! k' = Some o' →
            cov ∉ _cov_subscriptions o') ∧
  (∀ c, c ≠ cov →
        (c ∈ active_cov_subscriptions (cancelled cov k o l_obj l_app w)
         ↔ c ∈ active_cov_subscriptions w)) ∧
  (∃ s', subscriptions (cancelled cov k o l_obj l_app w) !! cov = Some s' ∧
         obj_ref s' = None ∧ isScheduled s' = false) ∧
  (∀ c, c ≠ cov →
        subscriptions (cancelled cov k o l_obj l_app w) !! c
        = subscriptions w !! c).
Proof.
  intros (s & Hs & Hk) Happ Hinv'.
  split; [|split; [|split; [|split]]].
  - simpl. intros [_ Hne]%Happ. done.
  - intros k' o' Ho' Hin.
    apply (reg_list _ Hinv' k' o' cov Ho') in Hin.
    apply registered_cancelled in Hin as [_ Hne]. done.
  - intros c Hne. simpl. rewrite Happ. tauto.
  - simpl. rewrite !lookup_alter_eq, Hs. simpl. by eexists.
  - intros c Hne. simpl. by rewrite !lookup_alter_ne.
Qed.

(** X13. In every reachable state, a request with a lifetime for an object
    that is there and for keys that no registered subscription has returns,
    makes one subscription with the next reference, which it puts at the
    end of the list of the object and of the list of the application and
    schedules exactly when the lifetime is not 0, and answers with a simple
    acknowledgement; [find] then returns that subscription. *)
Theorem subscribe_creates_subscription (w : World)
    (apdu : SubscribeCOVRequest) (o : COVObject) (n : Z) :
  reachable w →
  objects w !! scr_monitoredObjectIdentifier apdu = Some o →
  scr_lifetime apdu = Some n →
  (∀ c s, subscriptions w !! c = Some s → is_Some (obj_ref s) →
          matches_request apdu s = false) →
  let w' :=
    set_responses (λ l, l ++ [SimpleAck apdu])
      (created
         (new_Subscription (scr_monitoredObjectIdentifier apdu)
            (scr_pduSource apdu) (scr_subscriberProcessIdentifier apdu)
            (issueConfirmedNotifications apdu) n (now w))
         (scr_monitoredObjectIdentifier apdu) o w) in
  do_SubscribeCOVRequest apdu w = (Ok tt, w') ∧
  fst (SubscriptionList_find (scr_monitoredObjectIdentifier apdu)
         (scr_pduSource apdu) (scr_subscriberProcessIdentifier apdu)
         (scr_monitoredObjectIdentifier apdu) w')
  = Ok (Some (next_subref w)).
Proof.
  intros Hreach Ho Hn Hno w'.
  pose proof (reachable_registry_inv w Hreach) as Hinv.
  assert (Hrun : do_SubscribeCOVRequest apdu w = (Ok tt, w')).
  { destruct (registry_inv_find w _ o (scr_pduSource apdu)
                (scr_subscriberProcessIdentifier apdu) Hinv Ho)
      as (r & Hfind & Hr).
    destruct r as [cov|].
    - destruct Hr as (s & Hs & Hk & Hm).
      unfold matches_request in Hno. rewrite (Hno cov s Hs) in Hm; [done|].
      rewrite Hk. by eexists.
    - rewrite (do_SubscribeCOVRequest_not_found apdu w o Ho Hfind).
      unfold is_cancellation. rewrite Hn.
      rewrite (bool_decide_eq_false_2 (Some n = None)) by done.
      rewrite andb_false_r. unfold bind.
      by rewrite (Subscription_init_run w _ o _ _ _ n Ho). }
  split; [exact Hrun|].
  assert (Hinv' : registry_inv w').
  { apply reachable_registry_inv.
    replace w' with (run_event (EvSubscribe apdu) w);
      [by constructor|]. simpl. by rewrite Hrun. }
  assert (Ho' : objects w' !! scr_monitoredObjectIdentifier apdu
                = Some (set_cov_subscriptions (λ l, l ++ [next_subref w]) o)).
  { simpl. by rewrite lookup_insert_eq. }
  assert (Hnew : subscriptions w' !! next_subref w
                 = Some (new_Subscription (scr_monitoredObjectIdentifier apdu)
                           (scr_pduSource apdu)
                           (scr_subscriberProcessIdentifier apdu)
                           (issueConfirmedNotifications apdu) n (now w))).
  { simpl. by rewrite lookup_insert_eq. }
  assert (Hmnew : matches (scr_pduSource apdu)
                    (scr_subscriberProcessIdentifier apdu)
                    (scr_monitoredObjectIdentifier apdu)
                    (new_Subscription (scr_monitoredObjectIdentifier apdu)
                       (scr_pduSource apdu)
                       (scr_subscriberProcessIdentifier apdu)
                       (issueConfirmedNotifications apdu) n (now w)) = true).
  { unfold matches, new_Subscription. simpl.
    by rewrite !bool_decide_eq_true_2. }
  destruct (registry_inv_find w' _ _ (scr_pduSource apdu)
              (scr_subscriberProcessIdentifier apdu) Hinv' Ho')
    as (r & Hfind & Hr).
  unfold SubscriptionList_find, bind, get_object. rewrite Ho', Hfind. simpl.
  destruct r as [cov|].
  - destruct Hr as (s' & Hs' & Hk' & Hm').
    do 2 f_equal. symmetry.
    apply (reg_unique w' Hinv' (next_subref w) cov _ s' Hnew Hs').
    + by eexists.
    + rewrite Hk'. by eexists.
    + exact Hm'.
  - rewrite (Hr _ _ Hnew) in Hmnew; [done|]. by eexists.
Qed.

Lemma subscribe_creates_subscription_witness :
  let apdu := mkSubscribeCOVRequest client 1 bv1 (Some true) (Some 60) in
  let w' :=
    set_responses (λ l, l ++ [SimpleAck apdu])
      (created (new_Subscription bv1 client 1 (Some true) 60 (now device))
         bv1 (binary "inactive" "inactive") device) in
  do_SubscribeCOVRequest apdu device = (Ok tt, w') ∧
  fst (SubscriptionList_find bv1 client 1 bv1 w') = Ok (Some 0%nat).
Proof.
  apply (subscribe_creates_subscription device
           (mkSubscribeCOVRequest client 1 bv1 (Some true) (Some 60))
           (binary "inactive" "inactive") 60).
  - constructor. exact initial_device.
  - by vm_compute.
  - reflexivity.
  - intros c s Hs.
    change (subscriptions device) with (∅ : gmap subref Subscription) in Hs.
    by rewrite lookup_empty in Hs.
Defined.

(** X14. In every reachable state, a cancellation whose keys are those of
    a registered subscription returns and answers with a simple
    acknowledgement; the subscription is then in no list, refers to no
    object and is not scheduled, the other subscriptions are in the list of
    the application as before, and [find] with the same keys returns
    [None]. *)
Theorem cancel_removes_subscription (w : World)
    (apdu : SubscribeCOVRequest) (cov : subref) (s : Subscription) :
  reachable w →
  is_cancellation apdu = true →
  subscriptions w !! cov = Some s → is_Some (obj_ref s) →
  matches_request apdu s = true →
  ∃ w', do_SubscribeCOVRequest apdu w = (Ok tt, w') ∧
        responses w' = responses w ++ [SimpleAck apdu] ∧
        (cov ∉ active_cov_subscriptions w') ∧
        (∀ k o, objects w' !! k = Some o → cov ∉ _cov_subscriptions o) ∧
        (∀ c, c ≠ cov → (c ∈ active_cov_subscriptions w'
                         ↔ c ∈ active_cov_subscriptions w)) ∧
        (∃ s', subscriptions w' !! cov = Some s' ∧
               obj_ref s' = None ∧ isScheduled s' = false) ∧
        fst (SubscriptionList_find (scr_monitoredObjectIdentifier apdu)
               (scr_pduSource apdu) (scr_subscriberProcessIdentifier apdu)
               (scr_monitoredObjectIdentifier apdu) w') = Ok None.
Proof.
  intros Hreach Hcancel Hs Hobj Hm.
  pose proof (reachable_registry_inv w Hreach) as Hinv.
  destruct (find_registered w apdu cov s Hinv Hs Hobj Hm)
    as (Hreg & o & Ho & Hfind).
  destruct (cancel_subscription_registered w cov _ Hinv Hreg)
    as (o' & l_obj & l_app & Ho' & Hrun & _ & _ & _ & Happ & Hinv').
  destruct (cancelled_facts w cov _ o' l_obj l_app Hreg Happ Hinv')
    as (H1 & H2 & H3 & H4 & H5).
  assert (Hrun' : do_SubscribeCOVRequest apdu w
                  = (Ok tt, set_responses (λ l, l ++ [SimpleAck apdu])
                              (cancelled cov (scr_monitoredObjectIdentifier apdu)
                                 o' l_obj l_app w))).
  { rewrite (do_SubscribeCOVRequest_found apdu w o cov Ho Hfind).
    rewrite Hcancel. unfold bind. by rewrite Hrun. }
  eexists. split; [exact Hrun'|].
  split; [done|]. split; [exact H1|]. split; [exact H2|].
  split; [exact H3|]. split; [exact H4|].
  set (w' := set_responses _ _) in *.
  assert (Hinv'' : registry_inv w').
  { apply reachable_registry_inv.
    replace w' with (run_event (EvSubscribe apdu) w);
      [by constructor|]. simpl. by rewrite Hrun'. }
  assert (is_Some (objects w' !! scr_monitoredObjectIdentifier apdu))
    as [o'' Ho''].
  { simpl. rewrite lookup_insert_eq. by eexists. }
  destruct (registry_inv_find w' _ o'' (scr_pduSource apdu)
              (scr_subscriberProcessIdentifier apdu) Hinv'' Ho'')
    as (r & Hfind' & Hr).
  unfold SubscriptionList_find, bind, get_object. rewrite Ho'', Hfind'. simpl.
  destruct r as [c|]; [exfalso|done].
  destruct Hr as (s' & Hs' & Hk' & Hm').
  destruct (decide (c = cov)) as [->|Hne].
  - destruct H4 as (s'' & Hs'' & Hnone & _).
    change (subscriptions w') with
      (subscriptions (cancelled cov (scr_monitoredObjectIdentifier apdu)
                        o' l_obj l_app w)) in Hs'.
    congruence.
  - change (subscriptions w') with
      (subscriptions (cancelled cov (scr_monitoredObjectIdentifier apdu)
                        o' l_obj l_app w)) in Hs'.
    rewrite (H5 c Hne) in Hs'.
    destruct (matches_request_keys apdu s Hm) as (Hc & Hp & Hi).
    apply Hne. symmetry.
    apply (reg_unique w Hinv cov c s s' Hs Hs' Hobj).
    + rewrite Hk'. by eexists.
    + by rewrite Hc, Hp, Hi.
Qed.

Lemma cancel_removes_subscription_witness :
  ∃ w', do_SubscribeCOVRequest
          (mkSubscribeCOVRequest client 1 bv1 None None) two_pending
        = (Ok tt, w') ∧
        (0%nat ∉ active_cov_subscriptions w') ∧
        fst (SubscriptionList_find bv1 client 1 bv1 w') = Ok None.
Proof.
  destruct (cancel_removes_subscription two_pending
              (mkSubscribeCOVRequest client 1 bv1 None None) 0%nat
              (mkSubscription (Some bv1) client 1 bv1 (Some true) (Some 0)
                 None false))
    as (w' & Hrun & _ & Hout & _ & _ & _ & Hfind).
  - exact reachable_two_pending.
  - reflexivity.
  - by vm_compute.
  - by eexists.
  - by vm_compute.
  - exists w'. by repeat split.
Defined.

(** X15. In every reachable state, a request with a lifetime whose keys
    are those of a registered subscription returns and answers with a
    simple acknowledgement. Of the subscription it changes the schedule
    only: the task is at the current time plus the new lifetime and
    scheduled when that lifetime is not 0, and not scheduled when it is 0;
    the confirmed flag and the recorded lifetime stay as they were made,
    whatever the request carries. The lists, the objects and the other
    subscriptions are unchanged. *)
Theorem renewal_changes_schedule_only (w : World)
    (apdu : SubscribeCOVRequest) (cov : subref) (s : Subscription) (n : Z) :
  reachable w →
  scr_lifetime apdu = Some n →
  subscriptions w !! cov = Some s → is_Some (obj_ref s) →
  matches_request apdu s = true →
  ∃ w', do_SubscribeCOVRequest apdu w = (Ok tt, w') ∧
        responses w' = responses w ++ [SimpleAck apdu] ∧
        subscriptions w' !! cov
        = Some (mkSubscription (obj_ref s) (client_addr s) (proc_id s)
                  (obj_id s) (confirmed s) (lifetime s)
                  (if n =? 0 then taskTime s
                   else Some (now w + inject_Z n)%Q)
                  (negb (n =? 0))) ∧
        (∀ c, c ≠ cov → subscriptions w' !! c = subscriptions w !! c) ∧
        objects w' = objects w ∧
        active_cov_subscriptions w' = active_cov_subscriptions w ∧
        delivery_state w' = delivery_state w.
Proof.
  intros Hreach Hn Hs Hobj Hm.
  pose proof (reachable_registry_inv w Hreach) as Hinv.
  destruct (find_registered w apdu cov s Hinv Hs Hobj Hm)
    as (Hreg & o & Ho & Hfind).
  rewrite (do_SubscribeCOVRequest_found apdu w o cov Ho Hfind).
  unfold is_cancellation. rewrite Hn.
  rewrite (bool_decide_eq_false_2 (Some n = None)) by done.
  rewrite andb_false_r.
  unfold renew_subscription, bind, get_subscription, suspend_task,
    install_task, update_subscription, modify, get_time, bind,
    get_subscription, ret, raise, response, modify, lifetime_ne_0.
  rewrite Hs.
  destruct (isScheduled s) eqn:Hsch, (n =? 0) eqn:Hn0; simpl;
    rewrite ?lookup_alter_eq, ?Hs; simpl;
    (eexists; split; [reflexivity|]); simpl;
    rewrite ?lookup_alter_eq, ?Hs; simpl;
    (split; [done|]);
    (split; [try rewrite <- Hsch; by destruct s|]);
    (split; [intros c Hne; by rewrite ?lookup_alter_ne|]);
    by repeat split.
Qed.

Lemma renewal_changes_schedule_only_witness :
  ∃ w', do_SubscribeCOVRequest
          (mkSubscribeCOVRequest client 1 bv1 (Some false) (Some 60))
          subscribed
        = (Ok tt, w') ∧
        subscriptions w' !! 0%nat
        = Some (mkSubscription (Some bv1) client 1 bv1 (Some true) (Some 0)
                  (Some (60 # 1)) true).
Proof.
  destruct (renewal_changes_schedule_only subscribed
              (mkSubscribeCOVRequest client 1 bv1 (Some false) (Some 60))
              0%nat
              (mkSubscription (Some bv1) client 1 bv1 (Some true) (Some 0)
                 None false) 60)
    as (w' & Hrun & _ & Hs & _).
  - apply (reachable_step _ device), reachable_initial, initial_device.
  - reflexivity.
  - by vm_compute.
  - by eexists.
  - by vm_compute.
  - exists w'. split; [exact Hrun|]. etrans; [exact Hs|reflexivity].
Defined.

(** X16. In every reachable state, when the task of a subscription is due,
    the task manager's call of [process_task] returns without raising; the
    subscription is then in no list, refers to no object and is not due
    again, the other subscriptions are in the list of the application as
    before, and nothing is sent: no notification and no response. *)
Theorem expiry_removes_subscription (w : World) (cov : subref) :
  reachable w → due w cov = true →
  fst ((suspend_task cov ;;; process_task cov) w) = Ok tt ∧
  (cov ∉ active_cov_subscriptions (run_event (EvExpire cov) w)) ∧
  (∀ k o, objects (run_event (EvExpire cov) w) !! k = Some o →
          cov ∉ _cov_subscriptions o) ∧
  (∀ c, c ≠ cov →
        (c ∈ active_cov_subscriptions (run_event (EvExpire cov) w)
         ↔ c ∈ active_cov_subscriptions w)) ∧
  (∃ s', subscriptions (run_event (EvExpire cov) w) !! cov = Some s' ∧
         obj_ref s' = None ∧ isScheduled s' = false) ∧
  due (run_event (EvExpire cov) w) cov = false ∧
  delivery_state (run_event (EvExpire cov) w) = delivery_state w ∧
  responses (run_event (EvExpire cov) w) = responses w.
Proof.
  intros Hreach Hdue.
  pose proof (reachable_registry_inv w Hreach) as Hinv.
  simpl. rewrite Hdue. unfold due in Hdue.
  destruct (subscriptions w !! cov) as [s|] eqn:Hs; [|done].
  apply andb_true_iff in Hdue as [Hsch _].
  destruct (reg_scheduled w Hinv cov s Hs Hsch) as [[k Hk] _].
  assert (Hreg : registered w cov k) by by exists s.
  set (w1 := snd (suspend_task cov w)).
  assert (Hframe : schedule_frame cov w w1).
  { apply frames_suspend_task_schedule. }
  assert (Hinv1 : registry_inv w1).
  { eapply registry_inv_schedule_frame; [exact Hframe| |exact Hinv].
    by exists k. }
  assert (Hreg1 : registered w1 cov k).
  { by apply (registered_evolves cov w w1). }
  destruct (cancel_subscription_registered w1 cov k Hinv1 Hreg1)
    as (o' & l_obj & l_app & _ & Hrun & _ & _ & _ & Happ & Hinv').
  destruct (cancelled_facts w1 cov k o' l_obj l_app Hreg1 Happ Hinv')
    as (H1 & H2 & H3 & H4 & H5).
  unfold bind, process_task.
  change (suspend_task cov w) with (@Ok unit tt, w1).
  lazy beta iota. rewrite Hrun.
  split; [done|]. split; [exact H1|]. split; [exact H2|].
  split; [exact H3|]. split; [exact H4|].
  split; [|by split].
  destruct H4 as (s' & Hs' & _ & Hsch'). unfold due. cbn [snd].
  by rewrite Hs', Hsch'.
Qed.

Lemma expiry_removes_subscription_witness :
  fst ((suspend_task 0%nat ;;; process_task 0%nat) overdue) = Ok tt ∧
  (0%nat ∉ active_cov_subscriptions (run_event (EvExpire 0%nat) overdue)) ∧
  due (run_event (EvExpire 0%nat) overdue) 0%nat = false.
Proof.
  destruct (expiry_removes_subscription overdue 0%nat)
    as (H1 & H2 & _ & _ & _ & H3 & _).
  - apply (reachable_run_events _ device), reachable_initial, initial_device.
  - by vm_compute.
  - by repeat split.
Defined.

(** X17. In every reachable state a subscription that refers to no object,
    as [cancel_subscription] leaves it, is not due, at whatever time: the
    task manager does not call [process_task] on it, and the state is as it
    was. *)
Theorem cancelled_subscription_never_due (w : World) (cov : subref)
    (s : Subscription) :
  reachable w → subscriptions w !! cov = Some s → obj_ref s = None →
  ∀ t, due (set_now t w) cov = false ∧
       run_event (EvExpire cov) w = w.
Proof.
  intros Hreach Hs Hnone t.
  pose proof (reachable_registry_inv w Hreach) as Hinv.
  assert (Hsch : isScheduled s = false).
  { destruct (isScheduled s) eqn:Hsch; [|done].
    destruct (reg_scheduled w Hinv cov s Hs Hsch) as [[k Hk] _].
    congruence. }
  simpl. unfold due. simpl. by rewrite Hs, Hsch.
Qed.

Lemma cancelled_subscription_never_due_witness :
  let w :=
    run_events
      [ EvSubscribe (mkSubscribeCOVRequest client 1 bv1 (Some true) (Some 5));
        EvSubscribe (mkSubscribeCOVRequest client 1 bv1 None None) ]
      device in
  due (set_now 1000 w) 0%nat = false ∧ run_event (EvExpire 0%nat) w = w.
Proof.
  apply (cancelled_subscription_never_due _ 0%nat
           (mkSubscription None client 1 bv1 (Some true) (Some 5)
              (Some 5%Q) false)).
  - apply (reachable_run_events _ device), reachable_initial, initial_device.
  - by vm_compute.
  - reflexivity.
Defined.

(** *** Reading the subscriptions and notifying the subscribers *)

Lemma time_remaining_total (s : Subscription) (t : Q) :
  (truthy_lifetime (lifetime s) = true → is_Some (taskTime s)) →
  ∃ n, time_remaining s t = Ok n.
Proof.
  intros H. unfold time_remaining.
  destruct (truthy_lifetime (lifetime s)); simpl; [|by eexists].
  destruct H as [tt' ->]; [done|].
  destruct (_ =? 0); by eexists.
Qed.

Lemma read_loop_entries (w : World) (covs : list subref) :
  registry_inv w →
  (∀ c, c ∈ covs → c ∈ active_cov_subscriptions w) →
  (∀ k o, objects w !! k = Some o → obj_class o = PulseConverterCriteria →
          _cov_subscriptions o = []) →
  ∃ out, read_loop (now w) covs w = (Ok out, w) ∧
         Forall2 (read_entry w) covs out.
Proof.
  intros Hinv Hin Hpulse.
  induction covs as [|c covs IH]; [by exists []|].
  destruct IH as (out & Hrun & Hout).
  { intros c' Hc'. apply Hin. by right. }
  assert (Hc : c ∈ active_cov_subscriptions w) by (apply Hin; by left).
  apply (reg_active w Hinv) in Hc as (k & s & Hs & Hk).
  destruct (reg_object w Hinv c k) as [o Ho]; [by exists s|].
  destruct (time_remaining_total s (now w) (reg_task w Hinv c s Hs))
    as [n Hn].
  assert (∃ ref, _monitored_property_reference (obj_class o) = Ok ref)
    as [ref Href].
  { destruct (obj_class o) eqn:Hclass; try by eexists.
    pose proof (Hpulse k o Ho Hclass) as Hempty.
    assert (Hreg : registered w c k) by by exists s.
    apply (reg_list w Hinv k o c Ho) in Hreg.
    rewrite Hempty in Hreg. by apply elem_of_nil in Hreg. }
  exists (mkCOVSubscription (client_addr s) (proc_id s) (obj_id s) ref
            (confirmed s) n :: out).
  split.
  - simpl. unfold bind, get_subscription, lift_result, get_object.
    rewrite Hs, Hn, Hk. simpl. rewrite Ho. simpl. rewrite Href.
    lazy beta iota. by rewrite Hrun.
  - constructor; [|exact Hout]. by exists s, k, o.
Qed.

(** X18. In every reachable state in which no pulse converter has a
    subscription, [ActiveCOVSubscriptions.ReadProperty] returns without
    raising and changes nothing; its result has one entry for each
    subscription of the list of the application, in the order of the list,
    with the client, the process identifier, the object identifier and the
    confirmed flag of the subscription, the monitored property of the class
    of its object, and the time remaining computed at the current time. *)
Theorem ReadProperty_lists_subscriptions (w : World) :
  reachable w →
  (∀ k o, objects w !! k = Some o → obj_class o = PulseConverterCriteria →
          _cov_subscriptions o = []) →
  ∃ out, ReadProperty w = (Ok out, w) ∧
         Forall2 (read_entry w) (active_cov_subscriptions w) out.
Proof.
  intros Hreach Hpulse.
  pose proof (reachable_registry_inv w Hreach) as Hinv.
  unfold ReadProperty, bind, get_time, get.
  by apply read_loop_entries.
Qed.

Lemma ReadProperty_lists_subscriptions_witness :
  ∃ out, ReadProperty two_pending = (Ok out, two_pending) ∧
         Forall2 (read_entry two_pending)
           (active_cov_subscriptions two_pending) out.
Proof.
  apply (ReadProperty_lists_subscriptions two_pending).
  - exact reachable_two_pending.
  - intros k o Ho Hclass. revert Ho.
    change (objects two_pending) with
      (<[bv1 := set_cov_subscriptions (λ _, [0%nat])
                  (binary "inactive" "inactive")]>
         ({[ av1 := analog 0 1 0 ]} : gmap objid COVObject)).
    intros Ho.
    apply lookup_insert_Some in Ho as [[_ <-]|[_ Ho]]; [done|].
    apply lookup_singleton_Some in Ho as [_ <-]. done.
Defined.

(** X19. [PulseConverterCriteria] has no [_check_criteria]: a write of one
    of its tracked properties to a pulse converter stores the value and
    then raises [AttributeError]; the snapshot is as it was and no
    notification is made, whether the object has subscriptions or not. *)
Theorem pulse_converter_write_raises (w : World) (k : objid)
    (o : COVObject) (propid : string) (v : value) :
  objects w !! k = Some o →
  obj_class o = PulseConverterCriteria →
  propid ∈ _properties_tracked PulseConverterCriteria →
  WriteProperty k propid v w
  = (Raise AttributeError,
     set_objects (insert k (set_values (insert propid v) o)) w).
Proof.
  intros Ho Hclass Hin.
  unfold WriteProperty, bind, on_object, modify, get_object.
  rewrite Ho. simpl. rewrite lookup_insert_eq. simpl. rewrite Hclass.
  rewrite (bool_decide_eq_true_2 _ Hin). simpl.
  rewrite lookup_insert_eq. unfold set_objects. simpl.
  by rewrite insert_insert_eq.
Qed.

Lemma pulse_converter_write_raises_witness :
  WriteProperty pc1 "presentValue" (VNum 1) pulse_device
  = (Raise AttributeError,
     set_objects
       (insert pc1 (set_values (insert "presentValue" (VNum 1))
                      pulse_converter))
       pulse_device).
Proof.
  apply (pulse_converter_write_raises pulse_device pc1 pulse_converter).
  - by vm_compute.
  - reflexivity.
  - apply (bool_decide_unpack _). by vm_compute.
Defined.

Lemma read_loop_pulse_converter (w : World) (covs : list subref)
    (c : subref) (k : objid) (o : COVObject) :
  registry_inv w →
  (∀ c', c' ∈ covs → c' ∈ active_cov_subscriptions w) →
  registered w c k → objects w !! k = Some o →
  obj_class o = PulseConverterCriteria →
  c ∈ covs →
  read_loop (now w) covs w = (Raise AttributeError, w).
Proof.
  intros Hinv Hin (s & Hs & Hk) Ho Hclass.
  induction covs as [|c0 covs IH]; intros Hc.
  { by apply elem_of_nil in Hc. }
  assert (Hc0 : c0 ∈ active_cov_subscriptions w) by (apply Hin; by left).
  apply (reg_active w Hinv) in Hc0 as (k0 & s0 & Hs0 & Hk0).
  destruct (reg_object w Hinv c0 k0) as [o0 Ho0]; [by exists s0|].
  destruct (time_remaining_total s0 (now w) (reg_task w Hinv c0 s0 Hs0))
    as [n Hn].
  simpl. unfold bind, get_subscription, lift_result, get_object.
  rewrite Hs0, Hn, Hk0. simpl. rewrite Ho0. simpl.
  destruct (_monitored_property_reference (obj_class o0)) as [ref|e] eqn:Href.
  - lazy beta iota. rewrite IH; [done| |].
    + intros c' Hc'. apply Hin. by right.
    + apply elem_of_cons in Hc as [->|Hc]; [|exact Hc].
      assert (k0 = k) as -> by congruence.
      assert (o0 = o) as -> by congruence.
      rewrite Hclass in Href. done.
  - destruct (obj_class o0); simpl in Href; congruence.
Qed.

(** X20. [PulseConverterCriteria] has no [_monitored_property_reference]:
    in every reachable state in which a pulse converter has a subscription,
    [ActiveCOVSubscriptions.ReadProperty] raises [AttributeError], whatever
    the other subscriptions are. *)
Theorem ReadProperty_pulse_converter_raises (w : World) (k : objid)
    (o : COVObject) :
  reachable w →
  objects w !! k = Some o →
  obj_class o = PulseConverterCriteria →
  _cov_subscriptions o ≠ [] →
  ReadProperty w = (Raise AttributeError, w).
Proof.
  intros Hreach Ho Hclass Hne.
  pose proof (reachable_registry_inv w Hreach) as Hinv.
  destruct (_cov_subscriptions o) as [|c l] eqn:Hl; [done|].
  assert (Hreg : registered w c k).
  { apply (reg_list w Hinv k o c Ho). rewrite Hl. by left. }
  unfold ReadProperty, bind, get_time, get.
  apply (read_loop_pulse_converter w _ c k o Hinv); try done.
  apply (reg_active w Hinv). by exists k.
Qed.

Lemma ReadProperty_pulse_converter_raises_witness :
  let w :=
    run_event
      (EvSubscribe (mkSubscribeCOVRequest client 1 pc1 (Some false) (Some 0)))
      pulse_device in
  ReadProperty w = (Raise AttributeError, w).
Proof.
  apply (ReadProperty_pulse_converter_raises _ pc1
           (set_cov_subscriptions (λ _, [0%nat]) pulse_converter)).
  - apply (reachable_step _ pulse_device), reachable_initial.
    repeat split. apply (bool_decide_unpack _). by vm_compute.
  - by vm_compute.
  - reflexivity.
  - done.
Defined.

(** One turn of the loop of [_send_cov_notifications]: the next request is
    the notification of the subscription, and the other requests are as
    they were. *)
Lemma notify_subscription_effect (w : World) (t : Q)
    (vs : list (string * value)) (cov : subref) (s : Subscription) (tr : Z) :
  subscriptions w !! cov = Some s → time_remaining s t = Ok tr →
  ∃ w', notify_subscription t vs cov w = (Ok tt, w') ∧
        next_reqref w' = S (next_reqref w) ∧
        (∀ r, r ≠ next_reqref w → requests w' !! r = requests w !! r) ∧
        (∃ inv, requests w' !! next_reqref w
                = Some (notification_of (localDevice_objectIdentifier w)
                          vs s tr inv)) ∧
        subscriptions w' = subscriptions w ∧
        localDevice_objectIdentifier w' = localDevice_objectIdentifier w ∧
        objects w' = objects w ∧
        now w' = now w.
Proof.
  intros Hs Htr.
  unfold notify_subscription, bind, get_subscription, lift_result, get,
    new_request, cov_notification, bind, get_subscription, queue_getitem,
    modify, super_request, bind, get_request, get, modify, ret,
    notification_of.
  rewrite Hs, Htr. simpl. rewrite Hs.
  destruct (truthy_confirmed (confirmed s)) eqn:Hconf; simpl.
  - destruct (confirmed_notifications_queue w !! client_addr s)
      as [l|] eqn:Hq; simpl.
    + destruct l as [|x l]; simpl.
      * rewrite lookup_insert_eq. simpl.
        eexists. split; [reflexivity|]. simpl.
        split; [done|]. split.
        { intros r Hr. by rewrite !lookup_insert_ne. }
        split; [|done].
        rewrite lookup_insert_eq. by eexists.
      * destruct (l ++ _) eqn:Hl; [by destruct l|]. simpl.
        eexists. split; [reflexivity|]. simpl.
        split; [done|]. split.
        { intros r Hr. by rewrite !lookup_insert_ne. }
        split; [|done].
        rewrite lookup_insert_eq. by eexists.
    + rewrite lookup_insert_eq. simpl.
      eexists. split; [reflexivity|]. simpl.
      split; [done|]. split.
      { intros r Hr. by rewrite !lookup_insert_ne. }
      split; [|done].
      rewrite lookup_insert_eq. by eexists.
  - rewrite lookup_insert_eq. simpl.
    eexists. split; [reflexivity|]. simpl.
    split; [done|]. split.
    { intros r Hr. by rewrite !lookup_insert_ne. }
    split; [|done].
    rewrite lookup_insert_eq. by eexists.
Qed.

Lemma notify_loop_effect (t : Q) (vs : list (string * value))
    (covs : list subref) :
  ∀ w,
    (∀ c, c ∈ covs → ∃ s tr, subscriptions w !! c = Some s ∧
                             time_remaining s t = Ok tr) →
    ∃ w', notify_loop t vs covs w = (Ok tt, w') ∧
          next_reqref w' = (next_reqref w + length covs)%nat ∧
          (∀ r, (r < next_reqref w)%nat →
                requests w' !! r = requests w !! r) ∧
          (∀ i c, covs !! i = Some c →
             ∃ s tr inv,
               subscriptions w !! c = Some s ∧
               time_remaining s t = Ok tr ∧
               requests w' !! (next_reqref w + i)%nat
               = Some (notification_of (localDevice_objectIdentifier w)
                         vs s tr inv)) ∧
          subscriptions w' = subscriptions w ∧
          objects w' = objects w ∧
          now w' = now w.
Proof.
  induction covs as [|c covs IH]; intros w Hvalid.
  { exists w. simpl. split; [done|]. split; [lia|]. split; [done|].
    split; [|done]. intros i c Hi. by rewrite lookup_nil in Hi. }
  destruct (Hvalid c) as (s & tr & Hs & Htr); [by left|].
  destruct (notify_subscription_effect w t vs c s tr Hs Htr)
    as (w1 & Hrun1 & Hnext1 & Hold1 & [inv Hnew1] & Hsubs1 & Hdev1 & Hobj1
        & Hnow1).
  destruct (IH w1) as (w' & Hrun & Hnext & Hold & Hnew & Hsubs & Hobj & Hnow).
  { intros c' Hc'. rewrite Hsubs1. apply Hvalid. by right. }
  exists w'. simpl. unfold bind. rewrite Hrun1.
  split; [exact Hrun|]. split; [rewrite Hnext, Hnext1; lia|].
  split.
  { intros r Hr. rewrite Hold by lia. apply Hold1. lia. }
  split; [|by rewrite Hsubs, Hobj, Hnow].
  intros [|i] c' Hi; simpl in Hi.
  - injection Hi as <-. exists s, tr, inv. split; [done|]. split; [done|].
    rewrite Nat.add_0_r, Hold by lia. exact Hnew1.
  - destruct (Hnew i c' Hi) as (s' & tr' & inv' & Hs' & Htr' & Hreq).
    exists s', tr', inv'. rewrite <- Hsubs1. split; [done|]. split; [done|].
    rewrite <- Hdev1. rewrite <- Hreq. f_equal. lia.
Qed.

(** [_send_cov_notifications] on an object whose subscriptions are there
    with a time remaining. *)
Lemma send_cov_notifications_effect (w : World) (k : objid) (o : COVObject)
    (vs : list (string * value)) :
  objects w !! k = Some o →
  fst (build_list_of_values (_properties_reported (obj_class o)) o) = Ok vs →
  (∀ c, c ∈ _cov_subscriptions o →
        ∃ s tr, subscriptions w !! c = Some s ∧
                time_remaining s (now w) = Ok tr) →
  ∃ w', _send_cov_notifications k w = (Ok tt, w') ∧
        next_reqref w'
        = (next_reqref w + length (_cov_subscriptions o))%nat ∧
        (∀ r, (r < next_reqref w)%nat →
              requests w' !! r = requests w !! r) ∧
        (∀ i c, _cov_subscriptions o !! i = Some c →
           ∃ s tr inv,
             subscriptions w !! c = Some s ∧
             time_remaining s (now w) = Ok tr ∧
             requests w' !! (next_reqref w + i)%nat
             = Some (notification_of (localDevice_objectIdentifier w)
                       vs s tr inv)) ∧
        objects w' !! k = Some o.
Proof.
  intros Ho Hvs Hvalid.
  unfold _send_cov_notifications, bind, get_object, get_time, on_object.
  rewrite Ho. simpl.
  destruct (length (_cov_subscriptions o) =? 0)%nat eqn:Hlen.
  { apply Nat.eqb_eq in Hlen. exists w. unfold ret.
    destruct (_cov_subscriptions o); [|done].
    split; [done|]. split; [simpl; lia|]. split; [done|].
    split; [|done]. intros i c Hi. by rewrite lookup_nil in Hi. }
  rewrite Ho.
  pose proof (build_list_of_values_pure (_properties_reported (obj_class o)) o)
    as Hpure.
  destruct (build_list_of_values (_properties_reported (obj_class o)) o)
    as [r o'].
  simpl in Hvs, Hpure. subst r o'.
  destruct (notify_loop_effect (now w) vs (_cov_subscriptions o)
              (set_objects (insert k o) w))
    as (w' & Hrun & Hnext & Hold & Hnew & _ & Hobj & _).
  { exact Hvalid. }
  exists w'. split; [exact Hrun|]. split; [exact Hnext|].
  split; [exact Hold|]. split; [exact Hnew|].
  rewrite Hobj. simpl. by rewrite lookup_insert_eq.
Qed.

Lemma registry_inv_time_remaining (w : World) (k : objid) (o : COVObject) :
  registry_inv w → objects w !! k = Some o →
  ∀ c, c ∈ _cov_subscriptions o →
       ∃ s tr, subscriptions w !! c = Some s ∧
               time_remaining s (now w) = Ok tr.
Proof.
  intros Hinv Ho c Hc.
  apply (reg_list w Hinv k o c Ho) in Hc as (s & Hs & _).
  destruct (time_remaining_total s (now w) (reg_task w Hinv c s Hs))
    as [n Hn].
  by exists s, n.
Qed.

(** X21. In every reachable state, when the list of values of the object
    can be built, that is when every reported property has a datatype and
    a value that the datatype accepts, [_send_cov_notifications] returns
    without raising and makes one request for each subscription of the
    object, in the order of the list: the request of a subscription has
    its client as
    destination, its process identifier and object identifier, the
    identifier of the device, the time remaining of the subscription at
    the current time, and the one list of the reported values; it is a
    confirmed request exactly when the confirmed flag of the subscription
    is true. The requests made before are as they were. *)
Theorem send_cov_notifications_one_per_subscription (w : World) (k : objid)
    (o : COVObject) (vs : list (string * value)) :
  reachable w →
  objects w !! k = Some o →
  fst (build_list_of_values (_properties_reported (obj_class o)) o) = Ok vs →
  ∃ w', _send_cov_notifications k w = (Ok tt, w') ∧
        next_reqref w'
        = (next_reqref w + length (_cov_subscriptions o))%nat ∧
        (∀ r, (r < next_reqref w)%nat →
              requests w' !! r = requests w !! r) ∧
        ∀ i c, _cov_subscriptions o !! i = Some c →
          ∃ s tr inv,
            subscriptions w !! c = Some s ∧
            time_remaining s (now w) = Ok tr ∧
            requests w' !! (next_reqref w + i)%nat
            = Some (notification_of (localDevice_objectIdentifier w)
                      vs s tr inv).
Proof.
  intros Hreach Ho Hvs.
  pose proof (reachable_registry_inv w Hreach) as Hinv.
  destruct (send_cov_notifications_effect w k o vs Ho Hvs
              (registry_inv_time_remaining w k o Hinv Ho))
    as (w' & Hrun & Hnext & Hold & Hnew & _).
  by exists w'.
Qed.

Lemma send_cov_notifications_one_per_subscription_witness :
  ∃ w', _send_cov_notifications bv1 two_pending = (Ok tt, w') ∧
        next_reqref w' = 3%nat.
Proof.
  destruct (send_cov_notifications_one_per_subscription two_pending bv1
              (set_cov_subscriptions (λ _, [0%nat])
                 (binary "inactive" "inactive"))
              [("presentValue"%string, VStr "inactive");
               ("statusFlags"%string,
                VList [VNum 0; VNum 0; VNum 0; VNum 0])])
    as (w' & Hrun & Hnext & _).
  - exact reachable_two_pending.
  - by vm_compute.
  - by vm_compute.
  - exists w'. split; [exact Hrun|]. etrans; [exact Hnext|]. by vm_compute.
Defined.

(** X22. A write to [presentValue] of an object with the increment
    criteria, of a number strictly between the snapshot minus the increment
    and the snapshot plus the increment as the program computes them, in
    floats, and with the status flags those of the snapshot, returns and
    only stores the value: the snapshot is as it was and no request is
    made, whatever subscriptions the object has. *)
Theorem write_inside_deadband_is_silent (w : World) (k : objid)
    (o : COVObject) (s i c : Q) (f g : value) :
  objects w !! k = Some o →
  obj_class o = COVIncrementCriteria →
  _cov_properties o !! "presentValue" = Some (VNum s) →
  _values o !! "covIncrement" = Some (VNum i) →
  _values o !! "statusFlags" = Some f →
  _cov_properties o !! "statusFlags" = Some g →
  py_ne f g = false →
  (round64 (s - i) < c)%Q → (c < round64 (s + i))%Q →
  WriteProperty k "presentValue" (VNum c) w
  = (Ok tt,
     set_objects (insert k (set_values (insert "presentValue" (VNum c)) o))
       w).
Proof.
  intros Ho Hclass Hs Hi Hf Hg Hfg Hlo Hhi.
  unfold WriteProperty, bind, on_object, modify, get_object.
  rewrite Ho. simpl. rewrite lookup_insert_eq. simpl. rewrite Hclass. simpl.
  rewrite lookup_insert_eq.
  rewrite (increment_check_criteria_run _ s i c f g); simpl;
    rewrite ?lookup_insert_eq, ?lookup_insert_ne by done; try done.
  rewrite Hfg.
  replace (Qle_bool c (round64 (s - i))) with false.
  2:{ symmetry. apply not_true_iff_false. rewrite Qle_bool_iff.
      by apply Qlt_not_le. }
  replace (Qle_bool (round64 (s + i)) c) with false.
  2:{ symmetry. apply not_true_iff_false. rewrite Qle_bool_iff.
      by apply Qlt_not_le. }
  simpl. unfold set_objects. simpl. by rewrite insert_insert_eq.
Qed.

Lemma write_inside_deadband_is_silent_witness :
  let w :=
    run_event
      (EvSubscribe (mkSubscribeCOVRequest client 1 av1 (Some true) (Some 0)))
      device in
  WriteProperty av1 "presentValue" (VNum (1 # 2)) w
  = (Ok tt,
     set_objects
       (insert av1
          (set_values (insert "presentValue" (VNum (1 # 2)))
             (set_cov_subscriptions (λ _, [0%nat]) (analog 0 1 0))))
       w).
Proof.
  apply (write_inside_deadband_is_silent _ av1
           (set_cov_subscriptions (λ _, [0%nat]) (analog 0 1 0))
           0 1 (1 # 2)
           (VList [VNum 0; VNum 0; VNum 0; VNum 0])
           (VList [VNum 0; VNum 0; VNum 0; VNum 0])).
  - by vm_compute.
  - reflexivity.
  - by vm_compute.
  - by vm_compute.
  - by vm_compute.
  - by vm_compute.
  - reflexivity.
  - by vm_compute.
  - by vm_compute.
Defined.

(** X23. In every reachable state, a write to [presentValue] of an object
    with the increment criteria, of a number on or outside the deadband as
    the program computes it, in floats, when the datatypes of the present
    value and of the status flags accept the number and the current flags:
    the write returns without raising, takes the number as the new
    snapshot, and makes one request for each subscription of the object,
    in the order of the list, each with the typed new value and the typed
    status flags as its list of values. *)
Theorem write_crossing_deadband_notifies (w : World) (k : objid)
    (o : COVObject) (s i c : Q) (f g : value)
    (present_value_type status_flags_type : datatype)
    (typed_value typed_flags : value) :
  reachable w →
  objects w !! k = Some o →
  obj_class o = COVIncrementCriteria →
  _cov_properties o !! "presentValue" = Some (VNum s) →
  _values o !! "covIncrement" = Some (VNum i) →
  _values o !! "statusFlags" = Some f →
  _cov_properties o !! "statusFlags" = Some g →
  crosses_deadband s i c →
  _properties o !! "presentValue" = Some present_value_type →
  present_value_type (VNum c) = Ok typed_value →
  _properties o !! "statusFlags" = Some status_flags_type →
  status_flags_type f = Ok typed_flags →
  ∃ w' o',
    WriteProperty k "presentValue" (VNum c) w = (Ok tt, w') ∧
    objects w' !! k = Some o' ∧
    _values o' !! "presentValue" = Some (VNum c) ∧
    _cov_properties o' !! "presentValue" = Some (VNum c) ∧
    _cov_subscriptions o' = _cov_subscriptions o ∧
    next_reqref w' = (next_reqref w + length (_cov_subscriptions o))%nat ∧
    ∀ j cov, _cov_subscriptions o !! j = Some cov →
      ∃ sub tr inv,
        subscriptions w !! cov = Some sub ∧
        time_remaining sub (now w) = Ok tr ∧
        requests w' !! (next_reqref w + j)%nat
        = Some (notification_of (localDevice_objectIdentifier w)
                  [("presentValue"%string, typed_value);
                   ("statusFlags"%string, typed_flags)] sub tr inv).
Proof.
  intros Hreach Ho Hclass Hs Hi Hf Hg Hcross Hdv Htv Hdf Htf.
  pose proof (reachable_registry_inv w Hreach) as Hinv.
  assert (Hchanged : Qle_bool c (round64 (s - i))
                     || Qle_bool (round64 (s + i)) c = true).
  { by apply Qle_bool_crosses. }
  set (o1 := set_values (insert "presentValue" (VNum c)) o).
  set (o2 := (if py_ne f g
              then set_cov_properties (insert "statusFlags" f) else id)
               (set_cov_properties (insert "presentValue" (VNum c)) o1)).
  assert (Hcheck : COVIncrementCriteria_check_criteria o1 = (Ok true, o2)).
  { rewrite (increment_check_criteria_run o1 s i c f g); simpl;
      rewrite ?lookup_insert_eq, ?lookup_insert_ne by done; try done.
    rewrite Hchanged. done. }
  assert (Hclass2 : obj_class o2 = COVIncrementCriteria).
  { unfold o2. by destruct (py_ne f g). }
  assert (Hlist2 : _cov_subscriptions o2 = _cov_subscriptions o).
  { unfold o2. by destruct (py_ne f g). }
  assert (Hvals2 : _values o2 = <["presentValue" := VNum c]> (_values o)).
  { unfold o2. by destruct (py_ne f g). }
  assert (Hprops2 : _properties o2 = _properties o).
  { unfold o2. by destruct (py_ne f g). }
  assert (Hsnap2 : _cov_properties o2 !! "presentValue" = Some (VNum c)).
  { unfold o2. destruct (py_ne f g); simpl.
    - rewrite lookup_insert_ne by done. by rewrite lookup_insert_eq.
    - by rewrite lookup_insert_eq. }
  set (w2 := set_objects (insert k o2) (set_objects (insert k o1) w)).
  destruct (send_cov_notifications_effect w2 k o2
              [("presentValue"%string, typed_value);
               ("statusFlags"%string, typed_flags)])
    as (w' & Hrun & Hnext & _ & Hnew & Hobj).
  { simpl. by rewrite lookup_insert_eq. }
  { rewrite Hclass2. simpl.
    unfold bind, get_datatype, values_getitem, getitem, lift_result.
    rewrite Hprops2, Hdv. cbn iota. rewrite Hvals2, lookup_insert_eq, Htv.
    rewrite Hprops2, Hdf. cbn iota.
    rewrite Hvals2, lookup_insert_ne by done. by rewrite Hf, Htf. }
  { rewrite Hlist2. exact (registry_inv_time_remaining w k o Hinv Ho). }
  exists w', o2.
  split.
  { unfold WriteProperty, bind, on_object, modify, get_object.
    rewrite Ho. simpl. rewrite lookup_insert_eq. simpl. rewrite Hclass. simpl.
    rewrite lookup_insert_eq. fold o1. rewrite Hcheck. exact Hrun. }
  split; [exact Hobj|].
  split; [by rewrite Hvals2, lookup_insert_eq|].
  split; [exact Hsnap2|]. split; [exact Hlist2|].
  split; [by rewrite Hnext, Hlist2|].
  intros j cov Hj. rewrite <- Hlist2 in Hj. exact (Hnew j cov Hj).
Qed.

Lemma write_crossing_deadband_notifies_witness :
  let w :=
    run_event
      (EvSubscribe (mkSubscribeCOVRequest client 1 av1 (Some true) (Some 0)))
      device in
  ∃ w' o',
    WriteProperty av1 "presentValue" (VNum 1) w = (Ok tt, w') ∧
    objects w' !! av1 = Some o' ∧
    _cov_properties o' !! "presentValue" = Some (VNum 1) ∧
    next_reqref w' = 1%nat.
Proof.
  intros w.
  destruct (write_crossing_deadband_notifies w av1
              (set_cov_subscriptions (λ _, [0%nat]) (analog 0 1 0))
              0 1 1
              (VList [VNum 0; VNum 0; VNum 0; VNum 0])
              (VList [VNum 0; VNum 0; VNum 0; VNum 0])
              Real StatusFlags (VNum 1)
              (VList [VNum 0; VNum 0; VNum 0; VNum 0]))
    as (w' & o' & Hrun & Hobj & _ & Hsnap & _ & Hnext & _).
  - apply (reachable_step _ device), reachable_initial, initial_device.
  - by vm_compute.
  - reflexivity.
  - by vm_compute.
  - by vm_compute.
  - by vm_compute.
  - by vm_compute.
  - right. by vm_compute.
  - reflexivity.
  - reflexivity.
  - reflexivity.
  - reflexivity.
  - exists w', o'. split; [exact Hrun|]. split; [exact Hobj|].
    split; [exact Hsnap|]. etrans; [exact Hnext|]. by vm_compute.
Defined.

(** X24. A write, a round of notifications, a response of a client (also an
    abort, an error or a reject), a read of the active subscriptions and the
    clock never change the registry: the subscriptions with their schedule,
    the list of the application and the list of every object are as they
    were, whether the operation raises or not. *)
Theorem delivery_events_leave_registry (w : World) :
  (∀ k propid v, registry_same w (run_event (EvWrite k propid v) w)) ∧
  (∀ k, registry_same w (run_event (EvTrigger k) w)) ∧
  (∀ apdu, registry_same w (run_event (EvConfirmation apdu) w)) ∧
  (∀ t, registry_same w (run_event (EvTick t) w)) ∧
  registry_same w (run_event EvRead w).
Proof.
  split; [|split; [|split; [|split]]].
  - intros k propid v. apply (frames_WriteProperty_same k propid v w).
  - intros k. apply (frames_send_cov_notifications_same k w).
  - intros apdu. apply (frames_confirmation_same apdu w).
  - intros t. simpl. destruct (Qle_bool (now w) t); [|reflexivity].
    apply registry_same_set_now.
  - simpl. rewrite ReadProperty_pure. reflexivity.
Qed.

(** *** The constructor of the objects *)

Lemma snapshot_tracked_run (names : list string) :
  ∀ o,
    match snapshot_tracked names o with
    | (Ok _, o') =>
        (∀ p, p ∈ names → is_Some (_values o !! p)) ∧
        obj_class o' = obj_class o ∧
        _values o' = _values o ∧
        _cov_subscriptions o' = _cov_subscriptions o ∧
        ∀ p, _cov_properties o' !! p =
             if bool_decide (p ∈ names) then _values o !! p
             else _cov_properties o !! p
    | (Raise e, _) =>
        e = KeyError ∧ ∃ p, p ∈ names ∧ _values o !! p = None
    end.
Proof.
  induction names as [|n rest IH]; intros o.
  { simpl. split; [|done]. intros p Hp. by apply elem_of_nil in Hp. }
  simpl. unfold bind, values_getitem, getitem.
  destruct (_values o !! n) as [v|] eqn:Hv; simpl.
  2:{ split; [done|]. exists n. split; [by left|done]. }
  specialize (IH (set_cov_properties (insert n v) o)).
  unfold cov_properties_setitem, modify. simpl.
  destruct (snapshot_tracked rest _) as [[[]|e] o']; simpl in *.
  - destruct IH as (Hpres & Hclass & Hvals & Hlist & Hsnap).
    split.
    { intros p [->|Hp]%elem_of_cons; [by eexists|by apply Hpres]. }
    split; [done|]. split; [done|]. split; [done|].
    intros p. rewrite Hsnap.
    destruct (decide (p = n)) as [->|Hne].
    + rewrite (bool_decide_eq_true_2 (n ∈ n :: rest)) by by left.
      rewrite lookup_insert_eq. by destruct (bool_decide (n ∈ rest)).
    + rewrite (bool_decide_elem_of_cons_ne p n rest Hne).
      by rewrite lookup_insert_ne.
  - destruct IH as (-> & p & Hp & Hnone).
    split; [done|]. exists p. split; [by right|done].
Qed.

(** X25. [COVObjectMixin.__init__], on the values the constructor of the
    superclass leaves, returns exactly when every tracked property of the
    class has a value, and raises [KeyError] otherwise. When it returns,
    the object has no subscriptions, its values are the ones given, and
    its snapshot has exactly the tracked properties, each with its
    value. *)
Theorem COVObjectMixin_init_snapshot (c : criteria_class)
    (properties : gmap string datatype) (kwargs : gmap string value) :
  match COVObjectMixin_init c properties kwargs with
  | Ok self =>
      (∀ p, p ∈ _properties_tracked c → is_Some (kwargs !! p)) ∧
      obj_class self = c ∧
      _values self = kwargs ∧
      _cov_subscriptions self = [] ∧
      ∀ p, _cov_properties self !! p =
           if bool_decide (p ∈ _properties_tracked c) then kwargs !! p
           else None
  | Raise e =>
      e = KeyError ∧ ∃ p, p ∈ _properties_tracked c ∧ kwargs !! p = None
  end.
Proof.
  unfold COVObjectMixin_init.
  pose proof (snapshot_tracked_run (_properties_tracked c)
                (mkCOVObject c kwargs ∅ [] properties)) as H.
  destruct (snapshot_tracked _ _) as [[[]|e] o']; simpl in *; [|exact H].
  destruct H as (Hpres & Hclass & Hvals & Hlist & Hsnap).
  split; [exact Hpres|]. split; [done|]. split; [done|]. split; [done|].
  intros p. rewrite Hsnap. by destruct (bool_decide _).
Qed.
